(** * The AIS voyage pipeline: a shallow embedding of [import_ais_data.py]
      and [modules/centroid.py], with the properties of its stages.

    Data frames are lists of rows, a row index is an explicit [Z] label,
    numeric columns are IEEE binary64 values ([float]), timestamps are whole
    seconds since the epoch (the pings are parsed with a one-second format).
    The MMSI is text: [import_ais] reads it from the csv files and converts
    the four numeric columns and the time only, so pandas compares, sorts and
    groups it as text.

    The point-in-polygon engine, the great-circle distance and the time
    resampling of pandas are not part of the sources; they are the variables
    of the section below.

    The fetching side, [modules/database.py] and [get_ais_data.py], comes
    before the pipeline.  What psycopg2 answers, the file system and the
    formatting of a date are parameters there; a date is its day number. *)

From Stdlib Require Import ZArith List Lia Bool String Floats Permutation Sorted.
Import ListNotations.

Set Implicit Arguments.

(** ** Exceptions and results *)

Inductive Exc : Type :=
| NotdefinedError (variable : string)
| ZeroDivisionError
| KeyError
| ValueError
| OverflowError.

Inductive Result (A : Type) : Type :=
| Return (a : A)
| Raise (e : Exc).

Arguments Return {A} a.
Arguments Raise {A} e.

Definition bind {A B : Type} (r : Result A) (k : A -> Result B) : Result B :=
  match r with
  | Return a => k a
  | Raise e => Raise e
  end.

Notation "x <- r ;; k" := (bind r (fun x => k))
  (at level 61, r at next level, right associativity).

Fixpoint mapM {A B : Type} (f : A -> Result B) (l : list A) : Result (list B) :=
  match l with
  | [] => Return []
  | a :: t => b <- f a ;; bs <- mapM f t ;; Return (b :: bs)
  end.

(** ** Rows *)

Definition Point : Type := (float * float)%type.

Record Ping : Type := mkPing
  { mmsi : string; time : Z; long : float; lat : float; sog : float; cog : float }.

Record Port : Type := mkPort
  { name : string; locode : string; polygon : list Point }.

(** The port columns that [create_routes] attaches to every row of a voyage. *)
Record PortInfo : Type := mkPortInfo
  { from_locode : string; from_lat : float; from_long : float;
    to_locode : string; to_lat : float; to_long : float; to_time : Z }.

(** A row of [routes], of [interpolated_routes] and of [waypoints]. *)
Record Route : Type := mkRoute
  { ping : Ping; id : nat; info : PortInfo }.

(** The columns that the resampling works on. *)
Record Sample : Type := mkSample
  { s_id : nat; s_ping : Ping }.

(** ** modules/centroid.py *)

Module Centroid.

Open Scope float_scope.

Definition vertex (polygon : list Point) (i : nat) : Point :=
  nth i polygon (0, 0).

(** One iteration of the loop over the vertices; the accumulator is
    [(x, y, signed_area)]. *)
Definition step (polygon : list Point) (acc : float * float * float) (i : nat)
  : float * float * float :=
  let '(x, y, signed_area) := acc in
  let length := List.length polygon in
  let x_first := fst (vertex polygon i) in
  let y_first := snd (vertex polygon i) in
  let x_last := fst (vertex polygon ((i + 1) mod length)) in
  let y_last := snd (vertex polygon ((i + 1) mod length)) in
  let area_polygon := (x_first * y_last) - (x_last * y_first) in
  (x + (x_first + x_last) * area_polygon,
   y + (y_first + y_last) * area_polygon,
   signed_area + area_polygon).

Definition accumulate (polygon : list Point) : float * float * float :=
  fold_left (step polygon) (seq 0 (List.length polygon)) (0, 0, 0).

(** The value of [signed_area] after [signed_area *= 0.5]. *)
Definition signed_area (polygon : list Point) : float :=
  snd (accumulate polygon) * 0.5.

(** [find_centroid].  The polygon is a numpy array: as soon as the loop has
    run once the accumulators are numpy floats and the two divisions follow
    IEEE 754 (they warn and do not raise).  With no vertex the accumulators
    are still Python numbers, and Python's own division by [0.0] raises. *)
Definition find_centroid (polygon : list Point) : Result Point :=
  let '(x, y, _) := accumulate polygon in
  let signed_area := signed_area polygon in
  match polygon with
  | [] => Raise ZeroDivisionError
  | _ :: _ => Return (x / (6 * signed_area), y / (6 * signed_area))
  end.

End Centroid.

(** ** Data-frame helpers *)

(** Row labels [k, k+1, ...], as [reset_index] gives them from [0]. *)
Fixpoint index_from {A : Type} (k : Z) (l : list A) : list (Z * A) :=
  match l with
  | [] => []
  | a :: t => (k, a) :: index_from (k + 1) t
  end.

Definition reset_index {A : Type} (l : list A) : list (Z * A) := index_from 0 l.

(** A stable sort by a boolean order. *)
Fixpoint insert_sorted {A : Type} (leb : A -> A -> bool) (a : A) (l : list A)
  : list A :=
  match l with
  | [] => [a]
  | b :: t => if leb a b then a :: b :: t else b :: insert_sorted leb a t
  end.

Definition sort_by {A : Type} (leb : A -> A -> bool) (l : list A) : list A :=
  fold_right (insert_sorted leb) [] l.

(** [drop_duplicates(key)]: the first row of every key value is kept. *)
Fixpoint drop_duplicates {A K : Type} (eqb : K -> K -> bool) (key : A -> K)
  (l : list A) : list A :=
  match l with
  | [] => []
  | a :: t =>
      a :: filter (fun b => negb (eqb (key a) (key b))) (drop_duplicates eqb key t)
  end.

Definition unique {K : Type} (eqb : K -> K -> bool) (l : list K) : list K :=
  drop_duplicates eqb (fun k => k) l.

(** [(s != s.shift()).cumsum()] and its relatives: the running number of
    rows at which [brk previous current] holds; the first row has no
    previous row and always counts. *)
Fixpoint run_labels {A : Type} (brk : A -> A -> bool) (prev : option A)
  (acc : nat) (l : list A) : list nat :=
  match l with
  | [] => []
  | x :: t =>
      let acc' := match prev with
                  | None => S acc
                  | Some p => if brk p x then S acc else acc
                  end in
      acc' :: run_labels brk (Some x) acc' t
  end.

Definition cumsum_breaks {A : Type} (brk : A -> A -> bool) (l : list A) : list nat :=
  run_labels brk None 0 l.

Definition memZ (i : Z) (l : list Z) : bool := existsb (Z.eqb i) l.
Definition mem_nat (i : nat) (l : list nat) : bool := existsb (Nat.eqb i) l.

Definition opt_eqb (a b : option Z) : bool :=
  match a, b with
  | Some x, Some y => Z.eqb x y
  | None, None => true
  | _, _ => false
  end.

(** Group keys of [create_routes]: a ship and a run number. *)
Definition Key : Type := (string * nat)%type.

Definition key_eqb (a b : Key) : bool :=
  String.eqb (fst a) (fst b) && Nat.eqb (snd a) (snd b).

Definition key_ltb (a b : Key) : bool :=
  String.ltb (fst a) (fst b) || (String.eqb (fst a) (fst b) && Nat.ltb (snd a) (snd b)).

(** The group number pandas gives to a key: its rank among the distinct keys
    in sorted order. *)
Definition group_code (keys : list Key) (k : Key) : nat :=
  List.length (filter (fun k' => key_ltb k' k) (unique key_eqb keys)).

(** Whole seconds as a float. *)
Definition float_of_Z (z : Z) : float :=
  if (z <? 0)%Z then PrimFloat.opp (PrimFloat.of_uint63 (Uint63.of_Z (- z)))
  else PrimFloat.of_uint63 (Uint63.of_Z z).

(** [GroupBy.first] and [GroupBy.last] skip missing values. *)
Definition first_valid (l : list float) : float :=
  match find (fun x => negb (PrimFloat.is_nan x)) l with
  | Some x => x
  | None => PrimFloat.nan
  end.

Definition last_valid (l : list float) : float := first_valid (rev l).

(** Rows of the intermediate frames of [create_routes]. *)

(** A ping inside a port polygon, with the columns of its port. *)
Record InPort : Type := mkInPort
  { ip_index : Z; ip_ping : Ping; ip_port : Port }.

(** The same row once the centroid columns are there and [polygon] is
    dropped. *)
Record PortPing : Type := mkPortPing
  { pp_index : Z; pp_ping : Ping; pp_locode : string;
    port_lat : float; port_long : float }.

(** One row of [times]: a stay of one ship under one port code. *)
Record Dwell : Type := mkDwell
  { time_first : Z; time_last : Z;
    lat_first : float; lat_last : float;
    long_first : float; long_last : float;
    index_list : list Z }.

(** A row of [routes] while it still has its [index] column and no port
    columns. *)
Record Track : Type := mkTrack
  { t_index : Z; t_ping : Ping; t_id : nat }.

(** The order of [sort_values(by = ['mmsi','time'])]: the MMSI as text, then
    the time. *)
Definition ping_leb (p q : Ping) : bool :=
  String.ltb (mmsi p) (mmsi q)
  || (String.eqb (mmsi p) (mmsi q) && Z.leb (time p) (time q)).

(** The order of a text column. *)
Definition text_le (a b : string) : Prop := String.leb a b = true.

Definition index_leb {A : Type} (a b : Z * A) : bool := Z.leb (fst a) (fst b).

Definition key_leb (a b : Key) : bool := key_ltb a b || key_eqb a b.

Definition explode (masks : list (list Z * Z)) : list (option Z * Z) :=
  flat_map (fun m => match fst m with
                     | [] => [(None, snd m)]
                     | _ :: _ => map (fun i => (Some i, snd m)) (fst m)
                     end) masks.

Definition row_at {A : Type} (l : list A) (j : Z) : option A :=
  if (j <? 0)%Z then None else nth_error l (Z.to_nat j).

Definition agg_dwell (g : list InPort) : Dwell :=
  {| time_first := hd 0%Z (map (fun r => time (ip_ping r)) g);
     time_last := last (map (fun r => time (ip_ping r)) g) 0%Z;
     lat_first := first_valid (map (fun r => lat (ip_ping r)) g);
     lat_last := last_valid (map (fun r => lat (ip_ping r)) g);
     long_first := first_valid (map (fun r => long (ip_ping r)) g);
     long_last := last_valid (map (fun r => long (ip_ping r)) g);
     index_list := map ip_index g |}.

Definition locode_changed (p x : InPort) : bool :=
  negb (String.eqb (locode (ip_port p)) (locode (ip_port x))).

Definition index_gap (p x : Z * Ping) : bool :=
  negb (Z.eqb (fst x) (fst p + 1)).

(** ** Steps of [create_routes] on explicit frames *)

(** [ships.index.isin(exploded_masks['index'])] at one label. *)
Definition inside_any (exploded : list (option Z * Z)) (i : Z) : bool :=
  existsb (fun e => opt_eqb (fst e) (Some i)) exploded.

(** [exploded_masks.merge(ports, left_on='polygon_index', right_index=True)] *)
Definition merge_ports (ports : list Port) (exploded : list (option Z * Z))
  : list (option Z * Port) :=
  flat_map (fun e => match row_at ports (snd e) with
                     | Some p => [(fst e, p)]
                     | None => []
                     end) exploded.

(** [ships[constraint]] joined with the port of every ping.  The join keeps
    the order of the pings, and the labels given back by [set_index] are the
    labels the rows already carry. *)
Definition ships_in_port (exploded : list (option Z * Z))
  (locodes : list (option Z * Port)) (ships : list (Z * Ping)) : list InPort :=
  flat_map (fun row =>
              if inside_any exploded (fst row)
              then map (fun e => mkInPort (fst row) (snd row) (snd e))
                       (filter (fun e => opt_eqb (fst e) (Some (fst row))) locodes)
              else [])
           ships.

Definition ships_out_port (exploded : list (option Z * Z)) (ships : list (Z * Ping))
  : list (Z * Ping) :=
  filter (fun row => negb (inside_any exploded (fst row))) ships.

(** The rows of one group of a [groupby]. *)
Definition group_rows {A : Type} (keys : list Key) (rows : list A) (k : Key) : list A :=
  map snd (filter (fun e => key_eqb (fst e) k) (combine keys rows)).

(** [groupby(keys).agg(...)], one row per key, in key order. *)
Definition dwell_groups (keys : list Key) (rows : list InPort) : list Dwell :=
  map (fun k => agg_dwell (group_rows keys rows k))
      (sort_by key_leb (unique key_eqb keys)).

Definition rank (distinct : list Key) (k : Key) : nat :=
  List.length (filter (fun k' => key_ltb k' k) distinct).

(** [routes['id'] = routes.groupby(keys).grouper.group_info[0]] *)
Definition with_ids (keys : list Key) (rows : list (Z * Ping)) : list Track :=
  let distinct := unique key_eqb keys in
  map (fun kr => mkTrack (fst (snd kr)) (snd (snd kr)) (rank distinct (fst kr)))
      (combine keys rows).

(** [frame['id'].value_counts()] at one id. *)
Definition count_id (frame : list Track) (i : nat) : nat :=
  List.length (filter (fun r => Nat.eqb (t_id r) i) frame).

(** [frame[frame['id'].isin(point_count[point_count >= n].index)]] *)
Definition at_least (n : nat) (frame : list Track) : list Track :=
  filter (fun r => Nat.leb n (count_id frame (t_id r))) frame.

Definition of_ship (m : string) (frame : list Track) : list Track :=
  filter (fun r => String.eqb (mmsi (t_ping r)) m) frame.

(** [frame.groupby('mmsi')['id'].agg(['first','last']).values.flatten()] *)
Definition first_last_ids (frame : list Track) : list nat :=
  flat_map (fun m => match of_ship m frame with
                     | [] => []
                     | r :: g => [t_id r; t_id (last g r)]
                     end)
           (unique String.eqb (map (fun r => mmsi (t_ping r)) frame)).

(** [frame[~frame['id'].isin(ids)]] *)
Definition drop_ids (ids : list nat) (frame : list Track) : list Track :=
  filter (fun r => negb (mem_nat (t_id r) ids)) frame.

Definition of_id (i : nat) (frame : list Track) : list Track :=
  filter (fun r => Nat.eqb (t_id r) i) frame.

(** [frame.groupby('id')['index'].agg(['first','last'])] *)
Definition first_last_index (frame : list Track) : list (nat * (Z * Z)) :=
  map (fun i => let g := map t_index (of_id i frame) in (i, (hd 0%Z g, last g 0%Z)))
      (unique Nat.eqb (map t_id frame)).

(** [in_port.loc[label]] *)
Definition loc (frame : list PortPing) (label : Z) : Result PortPing :=
  match find (fun r => Z.eqb (pp_index r) label) frame with
  | Some r => Return r
  | None => Raise KeyError
  end.

Definition port_info (f t : PortPing) : PortInfo :=
  {| from_locode := pp_locode f; from_lat := port_lat f; from_long := port_long f;
     to_locode := pp_locode t; to_lat := port_lat t; to_long := port_long t;
     to_time := time (pp_ping t) |}.

(** [in_port['polygon'].apply(find_centroid)] and the two centroid columns. *)
Definition with_centroid (frame : list InPort) : Result (list PortPing) :=
  mapM (fun r =>
          c <- Centroid.find_centroid (polygon (ip_port r)) ;;
          Return (mkPortPing (ip_index r) (ip_ping r) (locode (ip_port r))
                             (fst c) (snd c)))
       frame.

(** [route_port.merge(from_to, left_on='id', right_index=True)] *)
Definition merge_info (infos : list (nat * PortInfo)) (frame : list Track) : list Route :=
  flat_map (fun r => map (fun e => mkRoute (t_ping r) (t_id r) (snd e))
                         (filter (fun e => Nat.eqb (fst e) (t_id r)) infos))
           frame.

(** The lookups of the origin and the destination of every voyage. *)
Definition attach_ports (frame : list PortPing) (bounds : list (nat * (Z * Z)))
  (voyages : list Track) : Result (list Route) :=
  froms <- mapM (fun ft => loc frame (fst (snd ft) - 1)) bounds ;;
  tos <- mapM (fun ft => loc frame (snd (snd ft) + 1)) bounds ;;
  Return (merge_info
            (combine (map fst bounds)
                     (map (fun ft => port_info (fst ft) (snd ft)) (combine froms tos)))
            voyages).

(** * Fetching the pings: [modules/database.py] and [get_ais_data.py] *)

(** What the two files raise: three classes of [modules/errors.py], and two
    exceptions of Python itself. *)
Module Errors.

Inductive t : Type :=
| PathError (path : string)
| WrongArguments
| ConnectionDBError
| KeyError
| UnboundLocalError.

End Errors.

(** ** modules/database.py *)

Module Database.

(** A psycopg2 connection as far as the class looks at it: its [closed]
    flag. *)
Record Connection : Type := mkConnection { closed : bool }.

Record t : Type := mk
  { _conn : option Connection;
    _counter : nat }.

(** [__init__] *)
Definition init : t := mk None 0.

(** [disconnect] closes the connection and leaves it in [_conn]. *)
Definition disconnect (self : t) : t :=
  match _conn self with
  | Some _ => mk (Some (mkConnection true)) (_counter self)
  | None => self
  end.

(** [connect]; [reachable] tells whether [psycopg2.connect] returns a
    connection or raises [DatabaseError]. *)
Definition connect (reachable : bool) (self : t) : t * option Errors.t :=
  match _conn self with
  | None =>
      if reachable then (mk (Some (mkConnection false)) (_counter self), None)
      else (disconnect self, Some Errors.ConnectionDBError)
  | Some _ => (self, None)
  end.

(** [__cursor_counter]; the name is [str] of the number. *)
Definition cursor_counter (self : t) : t * nat :=
  (mk (_conn self) (S (_counter self)), S (_counter self)).

(** What psycopg2 does with a query: the call of [cursor] raises, or
    [execute] or [fetchall] raises, or the rows come back. *)
Inductive Reply (Rows : Type) : Type :=
| CursorFails
| QueryFails
| Fetched (data : Rows).

Arguments CursorFails {Rows}.
Arguments QueryFails {Rows}.
Arguments Fetched {Rows} data.

(** [execute_sql].  When [cursor] raises, the handler reads [cur] before it
    is bound, and what leaves the method is [UnboundLocalError]. *)
Definition execute_sql {Rows : Type} (reply : Reply Rows) (self : t)
  : t * (Errors.t + option Rows) :=
  match _conn self with
  | None => (self, inr None)
  | Some _ =>
      let self := fst (cursor_counter self) in
      match reply with
      | CursorFails => (self, inl Errors.UnboundLocalError)
      | QueryFails => (disconnect self, inl Errors.ConnectionDBError)
      | Fetched data => (self, inr (Some data))
      end
  end.

(** Calls on one object, with what psycopg2 does at each. *)
Inductive Call (Rows : Type) : Type :=
| Connect (reachable : bool)
| Disconnect
| ExecuteSql (reply : Reply Rows).

Arguments Connect {Rows} reachable.
Arguments Disconnect {Rows}.
Arguments ExecuteSql {Rows} reply.

Definition call {Rows : Type} (c : Call Rows) (self : t) : t :=
  match c with
  | Connect reachable => fst (connect reachable self)
  | Disconnect => disconnect self
  | ExecuteSql reply => fst (execute_sql reply self)
  end.

Definition run {Rows : Type} (calls : list (Call Rows)) (self : t) : t :=
  fold_left (fun self c => call c self) calls self.

(** The cursor names that the calls ask psycopg2 for. *)
Fixpoint names {Rows : Type} (calls : list (Call Rows)) (self : t) : list nat :=
  match calls with
  | [] => []
  | c :: rest =>
      match c, _conn self with
      | ExecuteSql _, Some _ => snd (cursor_counter self) :: names rest (call c self)
      | _, _ => names rest (call c self)
      end
  end.

(** The connection is open. *)
Definition is_open (self : t) : bool :=
  match _conn self with
  | Some c => negb (closed c)
  | None => false
  end.

End Database.

(** ** get_ais_data.py *)

Module GetAisData.

(** [daterange]; a date is its day number, and [timedelta(i)] is [i]
    days. *)
Definition daterange (start_date end_date : Z) : list Z :=
  map (fun i => (start_date + Z.of_nat i)%Z)
      (seq 0 (Z.to_nat (end_date - start_date + 1))).

(** A dict as its items in insertion order: [d[k]], and [d[k] = v], which
    leaves an existing key in its place. *)
Fixpoint getitem {K V : Type} (eqb : K -> K -> bool) (d : list (K * V)) (k : K)
  : option V :=
  match d with
  | [] => None
  | (k', v) :: t => if eqb k' k then Some v else getitem eqb t k
  end.

Fixpoint setitem {K V : Type} (eqb : K -> K -> bool) (d : list (K * V)) (k : K) (v : V)
  : list (K * V) :=
  match d with
  | [] => [(k, v)]
  | (k', v') :: t =>
      if eqb k' k then (k', v) :: t else (k', v') :: setitem eqb t k v
  end.

Definition ship_type_lookup : list (string * Z) :=
  [ ("cargo", 70); ("tanker", 80); ("other type", 90); ("passenger", 60);
    ("fishing", 30); ("towing", 31); ("tailing", 36); ("pleasure craft", 37);
    ("tug", 52); ("law enforcement", 55); ("search and rescue vessel", 51);
    ("high speed craft", 40); ("hsc", 40); ("military ops", 35);
    ("military", 35) ]%string%Z.

(** [{v: k for k, v in ship_type_lookup.items()}] *)
Definition inverted (d : list (string * Z)) : list (Z * string) :=
  fold_left (fun acc kv => setitem Z.eqb acc (snd kv) (fst kv)) d [].

(** The conversion of [shiptype], a name or a number, to a number. *)
Definition shiptype_code (shiptype : string + Z) : Errors.t + Z :=
  match shiptype with
  | inl name =>
      match getitem String.eqb ship_type_lookup name with
      | Some code => inr code
      | None => inl Errors.WrongArguments
      end
  | inr code => inr code
  end.

(** [if shiptype == 32: shiptype = 31] *)
Definition towing (code : Z) : Z := if (code =? 32)%Z then 31%Z else code.

(** The name of the folder the files of a ship type go to. *)
Definition ship_string (code : Z) : Errors.t + string :=
  match getitem Z.eqb (inverted ship_type_lookup) code with
  | Some name => inr name
  | None => inl Errors.KeyError
  end.

(** [str.endswith] *)
Definition endswith (s suffix : string) : bool :=
  Nat.leb (String.length suffix) (String.length s)
  && String.eqb (substring (String.length s - String.length suffix)
                           (String.length suffix) s)
                suffix.

(** The file name that [pandas_to_csv] writes to. *)
Definition csv_name (file_name : string) : string :=
  if endswith file_name ".csv" then file_name else (file_name ++ ".csv")%string.

Section Fetch.

(** The rows of a query, [OperatingSystem.path], [OperatingSystem.check_file]
    and [date.strftime('%Y-%m-%d')]. *)
Variable Rows : Type.
Variable path : string -> list string -> string.
Variable check_file : string -> bool.
Variable strftime : Z -> string.

(** A file that has been written: its path and its rows. *)
Definition File : Type := (string * Rows)%type.

Definition pandas_to_csv (file_path file_name : string) (data_frame : Rows)
  : Errors.t + File :=
  let file_name := csv_name file_name in
  if check_file file_path then inr (path file_path [file_name], data_frame)
  else inl (Errors.PathError file_path).

(** The state of [get_ship_ais]: the database object and the files written
    so far. *)
Record Fetching : Type := mkFetching
  { database : Database.t;
    written : list File }.

(** The loop over the dates; [reply] is what psycopg2 does with the query
    of a date. *)
Fixpoint fetch_dates (reply : Z -> Database.Reply Rows) (code : Z)
  (geo_area folder_name : string) (dates : list Z) (st : Fetching)
  : Fetching * option Errors.t :=
  match dates with
  | [] => (st, None)
  | current_date :: rest =>
      match Database.execute_sql (reply current_date) (database st) with
      | (db, inl e) => (mkFetching db (written st), Some e)
      | (db, inr None) => fetch_dates reply code geo_area folder_name rest
                                      (mkFetching db (written st))
      | (db, inr (Some result)) =>
          match ship_string code with
          | inl e => (mkFetching db (written st), Some e)
          | inr name =>
              match pandas_to_csv (path folder_name [geo_area; name])
                                  (strftime current_date) result with
              | inl e => (mkFetching db (written st), Some e)
              | inr file =>
                  fetch_dates reply code geo_area folder_name rest
                              (mkFetching db (written st ++ [file]))
              end
          end
      end
  end.

(** [get_ship_ais] once the two dates are parsed.  The conversion of the
    ship type comes before the database object exists; from there on
    [disconnect] is called whatever happens. *)
Definition get_ship_ais (reachable : bool) (reply : Z -> Database.Reply Rows)
  (shiptype : string + Z) (start_date end_date : Z) (geo_area folder_name : string)
  : Fetching * option Errors.t :=
  match shiptype_code shiptype with
  | inl e => (mkFetching Database.init [], Some e)
  | inr code =>
      let code := towing code in
      let out :=
        match Database.connect reachable Database.init with
        | (db, Some e) => (mkFetching db [], Some e)
        | (db, None) =>
            fetch_dates reply code geo_area folder_name (daterange start_date end_date)
                        (mkFetching db [])
        end in
      (mkFetching (Database.disconnect (database (fst out))) (written (fst out)), snd out)
  end.

End Fetch.

End GetAisData.

(** Stand-ins to run [get_ship_ais] on two days: a path joined with [/], a
    disk where every folder exists, the names of the first two days of April
    2019, and a server that answers every query with the number of the
    day. *)
Definition join (base_path : string) (paths : list string) : string :=
  fold_left (fun a p => (a ++ "/" ++ p)%string) paths base_path.

Definition every_folder (file_path : string) : bool := true.

Definition april (d : Z) : string :=
  if (d =? 737150)%Z then "2019-04-01"%string else "2019-04-02"%string.

Definition answers (d : Z) : Database.Reply Z := Database.Fetched d.

(** What is left after the cargo ships of these two days have been fetched:
    a closed connection, two cursors used, two files. *)
Definition two_days : GetAisData.Fetching Z :=
  GetAisData.mkFetching
    (Database.mk (Some (Database.mkConnection true)) 2)
    [ ("AIS/N_Norway/cargo/2019-04-01.csv"%string, 737150%Z);
      ("AIS/N_Norway/cargo/2019-04-02.csv"%string, 737151%Z) ].

(** An object that was connected and then disconnected. *)
Definition hung_up : Database.t := Database.disconnect (fst (Database.connect true Database.init)).

Section Pipeline.

(** The point-in-polygon test of a point [(lat, long)] against the outer
    ring of a polygon. *)
Variable inside : list Point -> float -> float -> bool.

(** [haversine_vector] on one pair of points, in kilometres. *)
Variable haversine : Point -> Point -> float.

(** [groupby(['id','mmsi']).resample(interval).mean().interpolate('linear')]
    on the columns [mmsi, time, lat, long, sog, cog, id]; pandas refuses
    some intervals, so the call may raise. *)
Variable resample : Z -> list Sample -> Result (list Sample).

(** [GroupBy.mean] on one column of one group. *)
Variable mean : list float -> float.

(** Modelled from the spec: the membership engine
    [modules.points_in_polygons.mask_from_polygons], which is not among the
    sources.  Per polygon, in input order, it returns the indices of the
    points inside it together with the polygon index. *)
Definition mask_from_polygons (lat long : list float)
  (polygons : list (list Point)) : list (list Z * Z) :=
  map (fun jp =>
         (map fst (filter (fun ip => inside (snd jp) (fst (snd ip)) (snd (snd ip)))
                          (reset_index (combine lat long))),
          fst jp))
      (reset_index polygons).

(** Speed in knots between the first and the last position of a stay; the
    last factor is the binary64 value of [0.53996]. *)
Definition speed (d : Dwell) : float :=
  (haversine (lat_first d, long_first d) (lat_last d, long_last d)
   / (float_of_Z (time_last d - time_first d) / 3600) * 0x1.1475a31a4bdbap-1)%float.

Definition docked (speed_limit : float) (d : Dwell) : bool :=
  PrimFloat.leb (speed d) speed_limit.

Section CreateRoutes.

Variable ais_data : list Ping.
Variable ports : list Port.
Variable speed_limit : float.

Definition ships : list (Z * Ping) := reset_index (sort_by ping_leb ais_data).

Definition masks : list (list Z * Z) :=
  mask_from_polygons (map (fun r => lat (snd r)) ships)
                     (map (fun r => long (snd r)) ships)
                     (map polygon ports).

Definition exploded_masks : list (option Z * Z) :=
  drop_duplicates opt_eqb fst (explode masks).

Definition constraint : Z -> bool := inside_any exploded_masks.

Definition locode_in_polygon : list (option Z * Port) :=
  merge_ports ports exploded_masks.

Definition in_port : list InPort :=
  ships_in_port exploded_masks locode_in_polygon ships.

Definition out_port : list (Z * Ping) := ships_out_port exploded_masks ships.

(** Arrival and departure of every stay. *)
Definition dwell_keys : list Key :=
  combine (map (fun r => mmsi (ip_ping r)) in_port)
          (cumsum_breaks locode_changed in_port).

Definition times : list Dwell := dwell_groups dwell_keys in_port.

Definition time_in_port : list Dwell := filter (docked speed_limit) times.

Definition time_out_port : list Dwell :=
  filter (fun d => negb (docked speed_limit d)) times.

Definition time_out_port_idx : list Z := flat_map index_list time_out_port.

Definition in_port_centroid : Result (list PortPing) := with_centroid in_port.

Definition time_out_port_values : list (Z * Ping) :=
  let idx := time_out_port_idx in
  filter (fun row => memZ (fst row) idx) ships.

(** [pd.concat([out_port, time_out_port_values]).sort_index()] *)
Definition routes_index : list (Z * Ping) :=
  sort_by index_leb (out_port ++ time_out_port_values).

Definition route_keys : list Key :=
  combine (map (fun r => mmsi (snd r)) routes_index)
          (cumsum_breaks index_gap routes_index).

Definition routes : list Track := with_ids route_keys routes_index.

(** Routes with at least ten points. *)
Definition route_port_counted : list Track := at_least 10 routes.

Definition remove_idx : list nat := first_last_ids route_port_counted.

(** Without the first and the last trip of every ship. *)
Definition route_port : list Track := drop_ids remove_idx route_port_counted.

Definition from_to : list (nat * (Z * Z)) := first_last_index route_port.

(** The frame that [create_routes] stores in [self.routes]. *)
Definition create_routes_frame : Result (list Route) :=
  in_port' <- in_port_centroid ;;
  attach_ports in_port' from_to route_port.

(** *** What the frames say about a ping and about a voyage *)

(** The engine reports ping [i] inside polygon [j]. *)
Definition reported (i j : Z) : Prop :=
  exists idxs, In (idxs, j) masks /\ In i idxs.

(** A ping is part of a route when no port polygon contains it or when it
    passes through a port. *)
Definition moving (l : Z) : bool := negb (constraint l) || memZ l time_out_port_idx.

(** The rows of [routes] with their run number. *)
Definition tagged : list (nat * (Z * Ping)) :=
  combine (cumsum_breaks index_gap routes_index) routes_index.

Definition key_of (cr : nat * (Z * Ping)) : Key := (mmsi (snd (snd cr)), fst cr).

Definition track_of (cr : nat * (Z * Ping)) : Track :=
  mkTrack (fst (snd cr)) (snd (snd cr)) (rank (unique key_eqb route_keys) (key_of cr)).

(** The ping with label [l] is a ping of ship [m] in a port polygon, and
    the stay that it belongs to counts as a dock event. *)
Definition docked_ping (m : string) (l : Z) : Prop :=
  exists r d, In r in_port /\ ip_index r = l /\ mmsi (ip_ping r) = m /\
              In d times /\ In l (index_list d) /\ docked speed_limit d = true.

(** Among the voyages of its ship that have ten points, the voyage of [t]
    has the earliest id. *)
Definition earliest_id (t : Track) : Prop :=
  forall a, In a route_port_counted ->
            mmsi (t_ping a) = mmsi (t_ping t) -> (t_id t <= t_id a)%nat.

(** Among them, it has the latest id. *)
Definition latest_id (t : Track) : Prop :=
  forall a, In a route_port_counted ->
            mmsi (t_ping a) = mmsi (t_ping t) -> (t_id a <= t_id t)%nat.

End CreateRoutes.

(** ** [remove_routes_outside_polygon] *)

(** The ids of the rows whose position is not reported inside the area. *)
Definition ids_outside (area : list Point) (frame : list Route) : list nat :=
  let masks := mask_from_polygons (map (fun r => lat (ping r)) frame)
                                  (map (fun r => long (ping r)) frame)
                                  [area] in
  let inside_rows := fst (hd ([], 0%Z) masks) in
  unique Nat.eqb
    (map (fun r => id (snd r))
         (filter (fun r => negb (memZ (fst r) inside_rows)) (reset_index frame))).

(** [frame[~frame['id'].isin(ids)]] *)
Definition without_ids (ids : list nat) (frame : list Route) : list Route :=
  filter (fun r => negb (mem_nat (id r) ids)) frame.

Definition remove_outside (area : list Point) (frame : list Route) : list Route :=
  without_ids (ids_outside area frame) frame.

(** ** [__interpolate] *)

Definition info_complete (i : PortInfo) : bool :=
  negb (PrimFloat.is_nan (from_lat i)) && negb (PrimFloat.is_nan (from_long i))
  && negb (PrimFloat.is_nan (to_lat i)) && negb (PrimFloat.is_nan (to_long i)).

(** Equality of two cells of a float column when rows are compared: two
    missing values count as equal. *)
Definition float_same (a b : float) : bool :=
  PrimFloat.eqb a b || (PrimFloat.is_nan a && PrimFloat.is_nan b).

Definition info_eqb (a b : PortInfo) : bool :=
  String.eqb (from_locode a) (from_locode b)
  && float_same (from_lat a) (from_lat b)
  && float_same (from_long a) (from_long b)
  && String.eqb (to_locode a) (to_locode b)
  && float_same (to_lat a) (to_lat b)
  && float_same (to_long a) (to_long b)
  && Z.eqb (to_time a) (to_time b).

Definition id_info_eqb (a b : nat * PortInfo) : bool :=
  Nat.eqb (fst a) (fst b) && info_eqb (snd a) (snd b).

(** The distinct [(id, port columns)] of a frame; [value_counts] leaves out
    the rows with a missing value.  One voyage has one set of port columns,
    so the order in which [value_counts] lists them plays no part. *)
Definition id_locode (frame : list Route) : list (nat * PortInfo) :=
  unique id_info_eqb
    (map (fun r => (id r, info r)) (filter (fun r => info_complete (info r)) frame)).

(** [interpolated.merge(id_locode, left_on='id', right_on='id')] *)
Definition merge_locode (infos : list (nat * PortInfo)) (samples : list Sample)
  : list Route :=
  flat_map (fun s => map (fun e => mkRoute (s_ping s) (s_id s) (snd e))
                         (filter (fun e => Nat.eqb (fst e) (s_id s)) infos))
           samples.

Definition interpolate (interval_s : Z) (frame : list Route) : Result (list Route) :=
  interpolated <- resample interval_s (map (fun r => mkSample (id r) (ping r)) frame) ;;
  Return (merge_locode (id_locode frame) interpolated).

(** ** [clean_data] *)

(** [groupby('id').shift(1)]: every row with the row before it in its own
    voyage, when there is one.  [seen] holds the earlier rows, latest first. *)
Fixpoint with_previous (seen : list Route) (frame : list Route)
  : list (Route * option Route) :=
  match frame with
  | [] => []
  | r :: t => (r, find (fun p => Nat.eqb (id p) (id r)) seen) :: with_previous (r :: seen) t
  end.

Definition ping_complete (p : Ping) : bool :=
  negb (PrimFloat.is_nan (lat p)) && negb (PrimFloat.is_nan (long p))
  && negb (PrimFloat.is_nan (sog p)) && negb (PrimFloat.is_nan (cog p)).

(** [dropna()] on the merged frame: a row stays when none of its own columns
    and none of the three [next_] columns is missing. *)
Definition dropna (frame : list (Route * option Route)) : list (Route * Route) :=
  flat_map (fun rp =>
              match snd rp with
              | Some p =>
                  if ping_complete (ping (fst rp)) && info_complete (info (fst rp))
                     && negb (PrimFloat.is_nan (lat (ping p)))
                     && negb (PrimFloat.is_nan (long (ping p)))
                  then [(fst rp, p)] else []
              | None => []
              end) frame.

Definition distance (rp : Route * Route) : float :=
  haversine (lat (ping (fst rp)), long (ping (fst rp)))
            (lat (ping (snd rp)), long (ping (snd rp))).

(** Ids of the trips with two successive points closer than [threshold]. *)
Definition stationary_ids (threshold : float) (ais_inter_day : list Route) : list nat :=
  unique Nat.eqb
    (map (fun rp => id (fst rp))
         (filter (fun rp => PrimFloat.ltb (distance rp) threshold)
                 (dropna (with_previous [] ais_inter_day)))).

(** Ids of the trips with a point at or under [speed] knots. *)
Definition slow_ids (speed : float) (frame : list Route) : list nat :=
  unique Nat.eqb
    (map id (filter (fun r => PrimFloat.leb (sog (ping r)) speed) frame)).

(** The first pass of [clean_data] on [(routes, interpolated_routes)]. *)
Definition distance_pass (threshold : float) (interval_s : Z)
  (frames : list Route * list Route) : Result (list Route * list Route) :=
  ais_inter_day <- interpolate interval_s (snd frames) ;;
  let remove_id := stationary_ids threshold ais_inter_day in
  Return (without_ids remove_id (fst frames), without_ids remove_id (snd frames)).

(** The second pass. *)
Definition speed_pass (speed : float) (frames : list Route * list Route)
  : list Route * list Route :=
  let remove_id := slow_ids speed (snd frames) in
  (without_ids remove_id (fst frames), without_ids remove_id (snd frames)).

Definition clean_data_frames (threshold : float) (interval_s : Z) (speed : float)
  (frames : list Route * list Route) : Result (list Route * list Route) :=
  frames' <- distance_pass threshold interval_s frames ;;
  Return (speed_pass speed frames').

(** ** [__waypoints] *)

Definition times_of (i : nat) (frame : list Route) : list Z :=
  map (fun r => time (ping r)) (filter (fun r => Nat.eqb (id r) i) frame).

Definition maximum (l : list Z) : Z :=
  match l with
  | [] => 0%Z
  | x :: t => fold_left Z.max t x
  end.

Definition minimum (l : list Z) : Z :=
  match l with
  | [] => 0%Z
  | x :: t => fold_left Z.min t x
  end.

(** The length of a voyage in seconds. *)
Definition duration (i : nat) (frame : list Route) : Z :=
  (maximum (times_of i frame) - minimum (times_of i frame))%Z.

(** The column [f]: [(max - min).astype(int64) / (points - 1) // 10**9].
    The times are whole seconds, so the nanosecond count is [duration * 10^9];
    below [2^53] nanoseconds the float quotient floors to the integer
    quotient of the seconds.  With [points = 1] the division gives no
    number. *)
Definition bucket_width (points : Z) (i : nat) (frame : list Route) : option Z :=
  if (points - 1 =? 0)%Z then None
  else Some (duration i frame / (points - 1))%Z.

(** The column [t0]: midnight of the first day of the voyage, in seconds. *)
Definition day_floor (i : nat) (frame : list Route) : Z :=
  (minimum (times_of i frame) / 86400 * 86400)%Z.

(** The float floor division [s // f]: no exception, and no number when the
    divisor is zero. *)
Definition floordiv (s : Z) (f : option Z) : option Z :=
  match f with
  | Some f => if (f =? 0)%Z then None else Some (s / f)%Z
  | None => None
  end.

Definition opt_mul (a b : option Z) : option Z :=
  match a, b with
  | Some x, Some y => Some (x * y)%Z
  | _, _ => None
  end.

(** The column [s_group = t0 + s_since_t0 // f * f]; [None] is the missing
    value that [to_datetime] turns into [NaT]. *)
Definition s_group (points : Z) (frame : list Route) (r : Route) : option Z :=
  let f := bucket_width points (id r) frame in
  let t0 := day_floor (id r) frame in
  let s_since_t0 := (time (ping r) - t0)%Z in
  match opt_mul (floordiv s_since_t0 f) f with
  | Some g => Some (t0 + g)%Z
  | None => None
  end.

Definition WKey : Type := (nat * Z)%type.

Definition wkey_eqb (a b : WKey) : bool := Nat.eqb (fst a) (fst b) && Z.eqb (snd a) (snd b).

Definition wkey_leb (a b : WKey) : bool :=
  Nat.ltb (fst a) (fst b) || (Nat.eqb (fst a) (fst b) && Z.leb (snd a) (snd b)).

(** The rows of [z] with their group key; a row without a [time_group] is
    in no group. *)
Definition keyed_rows (points : Z) (frame : list Route) : list (WKey * Route) :=
  flat_map (fun r => match s_group points frame r with
                     | Some g => [((id r, g), r)]
                     | None => []
                     end) frame.

Definition bucket_rows (keyed : list (WKey * Route)) (k : WKey) : list Route :=
  map snd (filter (fun e => wkey_eqb (fst e) k) keyed).

(** [z.groupby(['id','time_group'])[['lat','long','sog','cog']].mean()] *)
Definition bucket_means (keyed : list (WKey * Route)) : list (WKey * (float * float * float * float)) :=
  map (fun k => let g := bucket_rows keyed k in
                (k, (mean (map (fun r => lat (ping r)) g),
                     mean (map (fun r => long (ping r)) g),
                     mean (map (fun r => sog (ping r)) g),
                     mean (map (fun r => cog (ping r)) g))))
      (sort_by wkey_leb (unique wkey_eqb (map fst keyed))).

Definition static_eqb (a b : nat * string * PortInfo) : bool :=
  Nat.eqb (fst (fst a)) (fst (fst b)) && String.eqb (snd (fst a)) (snd (fst b))
  && info_eqb (snd a) (snd b).

(** [route.drop(['time','lat','long','sog','cog']).drop_duplicates()] *)
Definition static_columns (frame : list Route) : list (nat * string * PortInfo) :=
  unique static_eqb (map (fun r => (id r, mmsi (ping r), info r)) frame).

Definition waypoints_frame (route : list Route) (points : Z) : list Route :=
  let port_info := static_columns route in
  let z := bucket_means (keyed_rows points route) in
  flat_map (fun w =>
              let '(k, (la, lo, sg, cg)) := w in
              map (fun e => mkRoute (mkPing (snd (fst e)) (snd k) lo la sg cg) (fst k) (snd e))
                  (filter (fun e => Nat.eqb (fst (fst e)) (fst k)) port_info))
           z.

(** ** [create_waypoints] *)

(** [groupby('id')['lat'].count()] at one id. *)
Definition count_points (frame : list Route) (i : nat) : nat :=
  List.length (filter (fun r => Nat.eqb (id r) i && negb (PrimFloat.is_nan (lat (ping r))))
                      frame).

(** Ids of the trips with fewer resampled points than the target. *)
Definition missing_ids (waypoint_amount : Z) (interpolated : list Route) : list nat :=
  filter (fun i => (Z.of_nat (count_points interpolated i) <? waypoint_amount)%Z)
         (unique Nat.eqb (map id interpolated)).

(** The column [length]: whole minutes between the first and the last raw
    ping of every such trip. *)
Definition delta_time (missing_points_data : list Route) : list (nat * Z) :=
  map (fun i => let g := times_of i missing_points_data in
                (i, ((last g 0 - hd 0 g) / 60)%Z))
      (unique Nat.eqb (map id missing_points_data)).

(** [port_route_copy.merge(delta_time[['id','length']], on 'id')] *)
Definition merge_length (lengths : list (nat * Z)) (frame : list Route)
  : list (Route * Z) :=
  flat_map (fun r => map (fun e => (r, snd e))
                         (filter (fun e => Nat.eqb (fst e) (id r)) lengths))
           frame.

(** [min()] of the column [length]; an empty column has no minimum. *)
Definition smallest (lengths : list Z) : option Z :=
  match lengths with
  | [] => None
  | _ :: _ => Some (minimum lengths)
  end.

(** [int(smallest_time * 60 / waypoint_amount)].  The minimum of an empty
    column is Python's own [nan]: the division of it by a target of [0]
    raises [ZeroDivisionError], and by another target it is [nan] again, of
    which [int] raises [ValueError].  A minimum that was found is a numpy
    number, whose division by [0] raises nothing: it is [nan] for [0] and
    infinite otherwise, and [int] of an infinite number raises
    [OverflowError].  That last case is never met: a short trip has fewer
    points than the target (lemma [smallest_time_target]). *)
Definition new_interval (smallest_time : option Z) (waypoint_amount : Z) : Result Z :=
  match smallest_time with
  | Some m =>
      if (waypoint_amount =? 0)%Z
      then (if (m =? 0)%Z then Raise ValueError else Raise OverflowError)
      else Return (Z.quot (m * 60) waypoint_amount)
  | None =>
      if (waypoint_amount =? 0)%Z then Raise ZeroDivisionError else Raise ValueError
  end.

(** The short trips that are kept, with their length. *)
Definition short_routes (waypoint_amount : Z) (routes interpolated : list Route)
  : list (Route * Z) :=
  let missing := missing_ids waypoint_amount interpolated in
  let missing_points_data := filter (fun r => mem_nat (id r) missing) routes in
  merge_length (delta_time missing_points_data) interpolated.

(** [port_route_copy[port_route_copy['length'] >= 30]] *)
Definition at_least_30 (frame : list (Route * Z)) : list (Route * Z) :=
  filter (fun rl => (30 <=? snd rl)%Z) frame.

(** The interval, in seconds, at which the short trips are resampled. *)
Definition resampling_interval (waypoint_amount : Z) (routes interpolated : list Route)
  : Result Z :=
  new_interval
    (smallest (map snd (at_least_30 (short_routes waypoint_amount routes interpolated))))
    waypoint_amount.

(** The frame that is bucketed: the short trips resampled again, then the
    rows of the other trips. *)
Definition interpolated_local (waypoint_amount : Z) (routes interpolated : list Route)
  : Result (list Route) :=
  let port_route_copy := short_routes waypoint_amount routes interpolated in
  let remove_id := unique Nat.eqb (map (fun rl => id (fst rl)) port_route_copy) in
  let port_route_copy := at_least_30 port_route_copy in
  let smallest_time := smallest (map snd port_route_copy) in
  interval <- new_interval smallest_time waypoint_amount ;;
  new_inter <- interpolate interval (map fst port_route_copy) ;;
  Return (new_inter ++ without_ids remove_id interpolated).

Definition create_waypoints_frame (waypoint_amount : Z) (routes interpolated : list Route)
  : Result (list Route) :=
  local <- interpolated_local waypoint_amount routes interpolated ;;
  Return (waypoints_frame local waypoint_amount).

(** ** The object [clean_ais] and its stages *)

(** The frames held by the object; [None] is Python's [None]. *)
Record clean_ais : Type := mk_clean_ais
  { self_ports : option (list Port);
    self_routes : option (list Route);
    self_interpolated_routes : option (list Route);
    self_polygon : option (list Point);
    self_ais_data : option (list Ping);
    self_waypoints : option (list Route);
    self_waypoint_amount : option Z }.

(** [__init__] *)
Definition init : clean_ais :=
  mk_clean_ais None None None None None None None.

Definition set_routes (self : clean_ais) (v : list Route) : clean_ais :=
  mk_clean_ais (self_ports self) (Some v) (self_interpolated_routes self)
               (self_polygon self) (self_ais_data self) (self_waypoints self)
               (self_waypoint_amount self).

Definition set_interpolated_routes (self : clean_ais) (v : list Route) : clean_ais :=
  mk_clean_ais (self_ports self) (self_routes self) (Some v)
               (self_polygon self) (self_ais_data self) (self_waypoints self)
               (self_waypoint_amount self).

Definition set_waypoints (self : clean_ais) (v : list Route) : clean_ais :=
  mk_clean_ais (self_ports self) (self_routes self) (self_interpolated_routes self)
               (self_polygon self) (self_ais_data self) (Some v)
               (self_waypoint_amount self).

Definition set_waypoint_amount (self : clean_ais) (v : Z) : clean_ais :=
  mk_clean_ais (self_ports self) (self_routes self) (self_interpolated_routes self)
               (self_polygon self) (self_ais_data self) (self_waypoints self)
               (Some v).

(** A call leaves the object in some state and either returns or raises. *)
Definition Outcome : Type := (clean_ais * option Exc)%type.

Definition returns (self : clean_ais) : Outcome := (self, None).
Definition raises (self : clean_ais) (e : Exc) : Outcome := (self, Some e).

Definition create_routes (speed_limit : float) (self : clean_ais) : Outcome :=
  match self_ais_data self with
  | None => raises self (NotdefinedError "ais_data")
  | Some ais_data =>
      match self_ports self with
      | None => raises self (NotdefinedError "ports")
      | Some ports =>
          match create_routes_frame ais_data ports speed_limit with
          | Return frame => returns (set_routes self frame)
          | Raise e => raises self e
          end
      end
  end.

Definition remove_routes_outside_polygon (self : clean_ais) : Outcome :=
  match self_polygon self with
  | None => raises self (NotdefinedError "polygon")
  | Some area =>
      match self_routes self with
      | None => raises self (NotdefinedError "routes")
      | Some routes => returns (set_routes self (remove_outside area routes))
      end
  end.

Definition interpolate_routes (interval_s : Z) (self : clean_ais) : Outcome :=
  match self_routes self with
  | None => raises self (NotdefinedError "routes")
  | Some routes =>
      match interpolate interval_s routes with
      | Return frame => returns (set_interpolated_routes self frame)
      | Raise e => raises self e
      end
  end.

Definition clean_data (threshold : float) (interval_s : Z) (speed : float)
  (self : clean_ais) : Outcome :=
  match self_routes self with
  | None => raises self (NotdefinedError "routes")
  | Some routes =>
      match self_interpolated_routes self with
      | None => raises self (NotdefinedError "interpolated_routes")
      | Some interpolated =>
          match clean_data_frames threshold interval_s speed (routes, interpolated) with
          | Return frames =>
              returns (set_interpolated_routes (set_routes self (fst frames)) (snd frames))
          | Raise e => raises self e
          end
      end
  end.

(** [waypoint_amount] is stored before the frames are worked on. *)
Definition create_waypoints (waypoint_amount : Z) (self : clean_ais) : Outcome :=
  match self_interpolated_routes self with
  | None => raises self (NotdefinedError "interpolated_routes")
  | Some interpolated =>
      match self_routes self with
      | None => raises self (NotdefinedError "routes")
      | Some routes =>
          let self := set_waypoint_amount self waypoint_amount in
          match create_waypoints_frame waypoint_amount routes interpolated with
          | Return frame => returns (set_waypoints self frame)
          | Raise e => raises self e
          end
      end
  end.

(** [__save_pickle]: the file that is written is no part of the object. *)
Definition save_pickle (dataframe : option (list Route)) (variable_name : string)
  (self : clean_ais) : Outcome :=
  match dataframe with
  | Some _ => returns self
  | None => raises self (NotdefinedError variable_name)
  end.

Definition save_routes (self : clean_ais) : Outcome :=
  save_pickle (self_routes self) "routes" self.

Definition save_interpolated (self : clean_ais) : Outcome :=
  save_pickle (self_interpolated_routes self) "interpolated_routes" self.

Definition save_waypoints (self : clean_ais) : Outcome :=
  save_pickle (self_waypoints self) "waypoints" self.

(** * Vocabulary of the properties *)

(** ** Floats *)

(** A float that is no number: a NaN or an infinity. *)
Definition no_number (v : float) : Prop :=
  Prim2SF v = S754_nan \/ exists s, Prim2SF v = S754_infinity s.

(** ** Stages and artifacts *)

Inductive Stage : Type :=
| CreateRoutes (speed_limit : float)
| RemoveRoutesOutsidePolygon
| InterpolateRoutes (interval_s : Z)
| CleanData (threshold : float) (interval_s : Z) (speed : float)
| CreateWaypoints (waypoint_amount : Z)
| SaveRoutes
| SaveInterpolated
| SaveWaypoints.

Definition run (stage : Stage) : clean_ais -> Outcome :=
  match stage with
  | CreateRoutes speed_limit => create_routes speed_limit
  | RemoveRoutesOutsidePolygon => remove_routes_outside_polygon
  | InterpolateRoutes interval_s => interpolate_routes interval_s
  | CleanData threshold interval_s speed => clean_data threshold interval_s speed
  | CreateWaypoints waypoint_amount => create_waypoints waypoint_amount
  | SaveRoutes => save_routes
  | SaveInterpolated => save_interpolated
  | SaveWaypoints => save_waypoints
  end.

Inductive Artifact : Type :=
| AisData | Ports | Polygon | Routes | InterpolatedRoutes | Waypoints.

Definition artifact_name (a : Artifact) : string :=
  match a with
  | AisData => "ais_data"
  | Ports => "ports"
  | Polygon => "polygon"
  | Routes => "routes"
  | InterpolatedRoutes => "interpolated_routes"
  | Waypoints => "waypoints"
  end.

Definition is_none {A : Type} (o : option A) : bool :=
  match o with
  | None => true
  | Some _ => false
  end.

Definition absent (a : Artifact) (self : clean_ais) : bool :=
  match a with
  | AisData => is_none (self_ais_data self)
  | Ports => is_none (self_ports self)
  | Polygon => is_none (self_polygon self)
  | Routes => is_none (self_routes self)
  | InterpolatedRoutes => is_none (self_interpolated_routes self)
  | Waypoints => is_none (self_waypoints self)
  end.

(** What every stage needs from the stages before it. *)
Definition required (stage : Stage) : list Artifact :=
  match stage with
  | CreateRoutes _ => [AisData; Ports]
  | RemoveRoutesOutsidePolygon => [Polygon; Routes]
  | InterpolateRoutes _ => [Routes]
  | CleanData _ _ _ => [Routes; InterpolatedRoutes]
  | CreateWaypoints _ => [InterpolatedRoutes; Routes]
  | SaveRoutes => [Routes]
  | SaveInterpolated => [InterpolatedRoutes]
  | SaveWaypoints => [Waypoints]
  end.

(** ** Rows of the membership engine *)

(** Among the rows of [masks], in the order the engine gives them, the
    first one that lists ping [i] is the row of polygon [j]. *)
Definition first_report (masks : list (list Z * Z)) (i j : Z) : Prop :=
  exists m1 idxs m2,
    masks = m1 ++ (idxs, j) :: m2 /\ In i idxs /\
    forall row, In row m1 -> ~ In i (fst row).

(** ** Trips in a resampled frame *)

(** Some point of trip [i] is at or under [speed] knots. *)
Definition has_slow_point (speed : float) (frame : list Route) (i : nat) : Prop :=
  exists g, In g frame /\ id g = i /\ PrimFloat.leb (sog (ping g)) speed = true.

(** [prev] and [cur] are two successive points of one trip in [grid]. *)
Definition consecutive (grid : list Route) (prev cur : Route) : Prop :=
  exists l1 l2 l3,
    grid = l1 ++ prev :: l2 ++ cur :: l3 /\
    id prev = id cur /\
    forall x, In x l2 -> id x <> id cur.

(** The pair [(prev, cur)] stays under [dropna]: no column of [cur] is
    missing, and [prev] has a position. *)
Definition pair_complete (prev cur : Route) : bool :=
  ping_complete (ping cur) && info_complete (info cur)
  && negb (PrimFloat.is_nan (lat (ping prev)))
  && negb (PrimFloat.is_nan (long (ping prev))).

(** Trip [i] has two successive grid points, complete for [dropna], that
    are closer than [threshold]. *)
Definition close_pair (threshold : float) (grid : list Route) (i : nat) : Prop :=
  exists prev cur,
    consecutive grid prev cur /\ id cur = i /\ pair_complete prev cur = true /\
    PrimFloat.ltb (haversine (lat (ping cur), long (ping cur))
                             (lat (ping prev), long (ping prev))) threshold = true.

(** ** Waypoint groups *)

(** The rows of [frame] that fall in the group [k]. *)
Definition in_bucket (points : Z) (frame : list Route) (k : WKey) (r : Route) : bool :=
  match s_group points frame r with
  | Some g => wkey_eqb (id r, g) k
  | None => false
  end.

Definition bucket (points : Z) (frame : list Route) (k : WKey) : list Route :=
  filter (in_bucket points frame k) frame.

(** The [(id, time_group)] groups of one trip, with their means. *)
Definition buckets_of (points : Z) (frame : list Route) (i : nat)
  : list (WKey * (float * float * float * float)) :=
  filter (fun w => Nat.eqb (fst (fst w)) i) (bucket_means (keyed_rows points frame)).

(** The whole minutes between the first and the last raw ping of trip [i]. *)
Definition minutes (i : nat) (routes : list Route) : Z :=
  ((last (times_of i routes) 0 - hd 0 (times_of i routes)) / 60)%Z.

(** ** Frames for the examples *)

(** Stand-ins for the library functions, to run the pipeline on small
    frames: membership in the bounding box of the vertices, a distance that
    is zero between equal points, a resampling for frames that already lie on
    the grid, and the plain mean. *)
Definition in_box (polygon : list Point) (la lo : float) : bool :=
  existsb (fun v => PrimFloat.leb (fst v) la) polygon
  && existsb (fun v => PrimFloat.leb la (fst v)) polygon
  && existsb (fun v => PrimFloat.leb (snd v) lo) polygon
  && existsb (fun v => PrimFloat.leb lo (snd v)) polygon.

Definition flat_distance (a b : Point) : float :=
  (111 * (PrimFloat.abs (fst a - fst b) + PrimFloat.abs (snd a - snd b)))%float.

Definition on_grid (interval_s : Z) (frame : list Sample) : Result (list Sample) :=
  Return frame.

Definition plain_mean (l : list float) : float :=
  (fold_left PrimFloat.add l 0 / float_of_Z (Z.of_nat (List.length l)))%float.

(** Two harbours and one ship: twelve pings at sea, three in the first
    harbour, twelve at sea, three in the second harbour, twelve at sea. *)
Definition harbours : list Port :=
  [ mkPort "Aarhus" "DKAAR" [(0, 0); (1, 0); (1, 1); (0, 1)]%float;
    mkPort "Copenhagen" "DKCPH" [(10, 10); (11, 10); (11, 11); (10, 11)]%float ].

Definition at_sea (t : Z) : Ping := mkPing "219000001" t 5 5 9 90.
Definition in_aarhus (t : Z) : Ping := mkPing "219000001" t 0.5 0.5 0 0.
Definition in_copenhagen (t : Z) : Ping := mkPing "219000001" t 10.5 10.5 0 0.

Definition leg (f : Z -> Ping) (start : Z) (n : nat) : list Ping :=
  map (fun k => f (start + 60 * Z.of_nat k)%Z) (seq 0 n).

Definition synthetic : list Ping :=
  leg at_sea 0 12 ++ leg in_aarhus 720 3 ++ leg at_sea 900 12
  ++ leg in_copenhagen 1620 3 ++ leg at_sea 1800 12.

(** Three vertices on one line. *)
Definition collinear : list Point := [(0, 0); (1, 1); (2, 2)]%float.

(** Two harbour polygons that overlap, and one ping inside both. *)
Definition overlapping : list Port :=
  [ mkPort "Aarhus" "DKAAR" [(0, 0); (1, 0); (1, 1); (0, 1)]%float;
    mkPort "Aarhus bay" "DKAAB" [(0, 0); (2, 0); (2, 2); (0, 2)]%float ].

(** Rows of a resampled frame; the port columns play no part. *)
Definition some_ports : PortInfo :=
  mkPortInfo "DKAAR" 0.5 0.5 "DKCPH" 10.5 10.5 1620.

Definition grid_point (i : nat) (t : Z) (la lo sg : float) : Route :=
  mkRoute (mkPing "219000001" t lo la sg 90) i some_ports.

(** Trip 1 has a slow point, trip 2 has none; both move a degree a day. *)
Definition two_trips : list Route :=
  [ grid_point 1 0 55 10 9; grid_point 1 86400 56 10 0.25;
    grid_point 2 0 55 12 9; grid_point 2 86400 56 12 9 ].

(** A trip that does not move and whose speed could not be parsed.  Its two
    points are a day apart, at midnight, so resampling at one day gives the
    same two rows, and the linear interpolation leaves the missing speeds in
    place, as no value comes before them. *)
Definition becalmed : list Route :=
  [ grid_point 3 0 55 10 PrimFloat.nan; grid_point 3 86400 55 10 PrimFloat.nan ].

(** A trip that does not move, with a speed. *)
Definition moored : list Route :=
  [ grid_point 4 0 55 10 2; grid_point 4 86400 55 10 2 ].

(** A trip whose points share one timestamp. *)
Definition instant : list Route :=
  [ grid_point 5 1000 55 10 9; grid_point 5 1000 55 10 9 ].

(** A trip of a hundred seconds that starts thirty-two seconds after
    midnight. *)
Definition hundred_seconds : list Route :=
  [ grid_point 6 32 55 10 9; grid_point 6 50 55 10 9; grid_point 6 80 55 10 9;
    grid_point 6 110 55 10 9; grid_point 6 132 55 10 9 ].

(** A trip of an hour with two raw pings and two resampled points. *)
Definition one_hour : list Route :=
  [ grid_point 7 0 55 10 9; grid_point 7 3600 56 10 9 ].

(** * More of the pipeline *)

(** ** Scripts of stages *)

(** Stages called one after the other, as [clean_example.py] does; the
    first exception ends the script. *)
Fixpoint run_all (script : list Stage) (self : clean_ais) : Outcome :=
  match script with
  | [] => returns self
  | stage :: rest =>
      match run stage self with
      | (self', None) => run_all rest self'
      | (self', Some e) => raises self' e
      end
  end.

(** The calls of [clean_example.py] between the imports and the reading
    back of the pickle files. *)
Definition clean_example : list Stage :=
  [ CreateRoutes 3;
    RemoveRoutesOutsidePolygon;
    InterpolateRoutes (10 * 60);
    CleanData 10 (24 * 60 * 60) 0.5;
    CreateWaypoints 100;
    SaveRoutes;
    SaveInterpolated;
    SaveWaypoints ].

Definition is_Notdefined (o : option Exc) : bool :=
  match o with
  | Some (NotdefinedError _) => true
  | _ => false
  end.

Definition artifact_eqb (a b : Artifact) : bool :=
  match a, b with
  | AisData, AisData | Ports, Ports | Polygon, Polygon | Routes, Routes
  | InterpolatedRoutes, InterpolatedRoutes | Waypoints, Waypoints => true
  | _, _ => false
  end.

(** What a stage that returns has stored. *)
Definition provides (stage : Stage) : list Artifact :=
  match stage with
  | CreateRoutes _ => [Routes]
  | RemoveRoutesOutsidePolygon => [Routes]
  | InterpolateRoutes _ => [InterpolatedRoutes]
  | CleanData _ _ _ => [Routes; InterpolatedRoutes]
  | CreateWaypoints _ => [Waypoints]
  | SaveRoutes | SaveInterpolated | SaveWaypoints => []
  end.

(** Every stage of the script needs only what is among [have] or is stored
    by a stage before it. *)
Fixpoint ordered (have : list Artifact) (script : list Stage) : bool :=
  match script with
  | [] => true
  | stage :: rest =>
      forallb (fun a => existsb (artifact_eqb a) have) (required stage)
      && ordered (provides stage ++ have) rest
  end.

(** The object after the three imports of [clean_example.py]. *)
Definition imported (ais_data : list Ping) (ports : list Port) (area : list Point)
  : clean_ais :=
  mk_clean_ais (Some ports) None None (Some area) (Some ais_data) None None.

(** An area around both harbours, and an object that holds two trips, raw
    and resampled. *)
Definition open_sea : list Point := [(0, 0); (20, 0); (20, 20); (0, 20)]%float.

Definition holding (routes interpolated : list Route) : clean_ais :=
  mk_clean_ais None (Some routes) (Some interpolated) None None None None.

(** ** Voyages and the area *)

(** Every row of voyage [i] lies inside the area. *)
Definition all_inside (area : list Point) (frame : list Route) (i : nat) : Prop :=
  forall q, In q frame -> id q = i -> inside area (lat (ping q)) (long (ping q)) = true.

(** ** Rows of the stored routes *)

(** The ping with label [l] lies in no port polygon, or it belongs to a
    stay that is no dock event. *)
Definition under_way (ais_data : list Ping) (ports : list Port) (speed_limit : float)
  (l : Z) : Prop :=
  (forall r, In r (in_port ais_data ports) -> ip_index r <> l) \/
  (exists d, In d (times ais_data ports) /\ In l (index_list d)
             /\ docked speed_limit d = false).

(** The rows of voyage [i]. *)
Definition voyage (i : nat) (frame : list Route) : list Route :=
  filter (fun r => Nat.eqb (id r) i) frame.

(** The voyage that [create_routes] keeps of the synthetic ship: the twelve
    pings between the two harbours. *)
Definition middle_voyage : list Route :=
  map (fun p => mkRoute p 1 some_ports) (leg at_sea 900 12).

(** A ship with one ping inside the first harbour. *)
Definition passing : list Ping :=
  leg at_sea 0 2 ++ leg in_aarhus 120 1 ++ leg at_sea 180 2.

Definition one_ping_stay : Dwell := mkDwell 120 120 0.5 0.5 0.5 0.5 [2%Z].

(** The object of the synthetic ship after the first four stages, with a
    distance threshold of zero. *)
Definition cleaned : clean_ais :=
  mk_clean_ais (Some harbours) (Some middle_voyage) (Some middle_voyage) (Some open_sea)
               (Some synthetic) None None.

(** ** A port visited twice *)

(** A ping inside the first harbour at twelve knots. *)
Definition fly_by (t : Z) : Ping := mkPing "219000001" t 0.5 0.5 12 90.

(** The synthetic ship, but on its way from the first harbour to the second
    it comes through the first harbour once more, at twelve knots: one ping
    inside the polygon, with the ship at sea a minute before and a minute
    after. *)
Definition revisit : list Ping :=
  leg at_sea 0 12 ++ leg in_aarhus 720 3 ++ leg at_sea 900 12
  ++ leg fly_by 1620 1 ++ leg at_sea 1680 12
  ++ leg in_copenhagen 2400 3 ++ leg at_sea 2580 12.

(** The pings of the first harbour as [create_routes] groups them: the three
    pings of the stay and the ping at twelve knots, fifteen minutes apart,
    in one row of [times]. *)
Definition merged_stay : Dwell := mkDwell 720 1620 0.5 0.5 0.5 0.5 [12; 13; 14; 27]%Z.

(** The ping at twelve knots as a stay of its own. *)
Definition fly_by_stay : Dwell := mkDwell 1620 1620 0.5 0.5 0.5 0.5 [27%Z].

(** The routes that [create_routes] stores for that ship: the way from the
    first harbour to the second as two voyages, cut at the ping at twelve
    knots. *)
Definition revisit_routes : list Route :=
  map (fun p => mkRoute p 1 (mkPortInfo "DKAAR" 0.5 0.5 "DKAAR" 0.5 0.5 1620))
      (leg at_sea 900 12)
  ++ map (fun p => mkRoute p 2 (mkPortInfo "DKAAR" 0.5 0.5 "DKCPH" 10.5 10.5 2400))
         (leg at_sea 1680 12).

(** ** Vertices on one line, with rounding *)

(** Twice the signed area of a polygon with whole coordinates, exactly. *)
Definition twice_area (polygon : list (Z * Z)) : Z :=
  let n := List.length polygon in
  fold_left (fun acc i =>
               let v := nth i polygon (0, 0)%Z in
               let w := nth ((i + 1) mod n) polygon (0, 0)%Z in
               (acc + (fst v * snd w - fst w * snd v))%Z)
            (seq 0 n) 0%Z.

(** Three vertices on one line whose products are too long for binary64. *)
Definition on_a_line : list (Z * Z) :=
  [(134217729, 134217731); (134217730, 134217732); (134217731, 134217733)]%Z.

Definition rounded_line : list Point :=
  map (fun v => (float_of_Z (fst v), float_of_Z (snd v))) on_a_line.

(** * Properties *)

Unset Implicit Arguments.
Set Default Proof Using "Type".

(** [tauto] reads a function among the section variables as an implication
    and may drag it into a proof that has no use for it. *)
Ltac library_free :=
  try clear resample; try clear mean; try clear haversine; try clear inside.
Ltac prop := library_free; tauto.
Ltac prop_cong := library_free; intuition congruence.
Ltac prop_split := library_free; intuition.

(** ** Lists as frames *)

Section Frames.

Variables (A K : Type) (eqb : K -> K -> bool) (key : A -> K).

Lemma drop_duplicates_incl (l : list A) (a : A) :
  In a (drop_duplicates eqb key l) -> In a l.
Proof.
  induction l as [|b t IH]; simpl; [prop|].
  intros [H|H]; [now left|].
  apply filter_In in H. right. apply IH, H.
Qed.

Hypothesis eqb_refl : forall k, eqb k k = true.
Hypothesis eqb_trans : forall a b c, eqb a b = true -> eqb b c = true -> eqb a c = true.

(** A row survives [drop_duplicates] exactly when no earlier row has its
    key. *)
Lemma drop_duplicates_first (l : list A) (a : A) :
  In a (drop_duplicates eqb key l) <->
  exists l1 l2, l = l1 ++ a :: l2 /\ forall b, In b l1 -> eqb (key b) (key a) = false.
Proof.
  induction l as [|b t IH]; simpl.
  - split; [prop|]. intros (l1 & l2 & H & _). destruct l1; discriminate.
  - split.
    + intros [H|H].
      * subst. exists [], t. split; [reflexivity|]. intros ? [].
      * apply filter_In in H. destruct H as [H Hn].
        apply IH in H. destruct H as (l1 & l2 & -> & Hl1).
        exists (b :: l1), l2. split; [reflexivity|].
        intros c [<-|Hc]; [|now apply Hl1].
        now apply negb_true_iff in Hn.
    + intros (l1 & l2 & H & Hl1). destruct l1 as [|c l1]; simpl in H.
      * injection H as -> ->. now left.
      * injection H as -> ->. right. apply filter_In. split.
        -- apply IH. exists l1, l2. split; [reflexivity|].
           intros d Hd. apply Hl1. now right.
        -- apply negb_true_iff. apply Hl1. now left.
Qed.

(** Every key of the frame keeps a row. *)
Lemma drop_duplicates_keeps (l : list A) (a : A) :
  In a l -> exists b, In b (drop_duplicates eqb key l) /\ eqb (key b) (key a) = true.
Proof using eqb_refl eqb_trans.
  induction l as [|b t IH]; simpl; [prop|].
  intros [H|H].
  - subst. exists a. split; [now left|apply eqb_refl].
  - destruct (IH H) as (c & Hc & Hk).
    destruct (eqb (key b) (key c)) eqn:E.
    + exists b. split; [now left|]. eapply eqb_trans; eauto.
    + exists c. split; [|assumption]. right. apply filter_In. split; [assumption|].
      now rewrite E.
Qed.

End Frames.

Section Unique.

Variables (K : Type) (eqb : K -> K -> bool).
Hypothesis eqb_eq : forall a b, eqb a b = true <-> a = b.

Lemma unique_In (l : list K) (a : K) : In a (unique eqb l) <-> In a l.
Proof using eqb_eq.
  split; [apply drop_duplicates_incl|].
  intros H. unfold unique.
  destruct (drop_duplicates_keeps K K eqb (fun k => k)) with (l := l) (a := a)
    as (b & Hb & E); auto.
  - intros k. now apply eqb_eq.
  - intros x y z Hxy Hyz. apply eqb_eq in Hxy, Hyz. apply eqb_eq. congruence.
  - apply eqb_eq in E. now subst.
Qed.

Lemma unique_NoDup (l : list K) : NoDup (unique eqb l).
Proof using eqb_eq.
  unfold unique. induction l as [|a t IH]; simpl; [constructor|].
  constructor.
  - intros H. apply filter_In in H. destruct H as [_ H].
    apply negb_true_iff in H.
    assert (eqb a a = true) by now apply eqb_eq. congruence.
  - now apply NoDup_filter.
Qed.

End Unique.

Lemma mem_nat_In (i : nat) (l : list nat) : mem_nat i l = true <-> In i l.
Proof.
  unfold mem_nat. rewrite existsb_exists. split.
  - intros (x & Hx & E). apply Nat.eqb_eq in E. now subst.
  - intros H. exists i. split; [assumption|apply Nat.eqb_refl].
Qed.

Lemma memZ_In (i : Z) (l : list Z) : memZ i l = true <-> In i l.
Proof.
  unfold memZ. rewrite existsb_exists. split.
  - intros (x & Hx & E). apply Z.eqb_eq in E. now subst.
  - intros H. exists i. split; [assumption|apply Z.eqb_refl].
Qed.

(** ** The centroid of a polygon *)

Lemma float_zero_spec (d : float) :
  PrimFloat.eqb d 0 = true -> exists s, Prim2SF d = S754_zero s.
Proof.
  rewrite FloatAxioms.eqb_spec. unfold SFeqb.
  replace (Prim2SF 0) with (S754_zero false) by reflexivity.
  destruct (Prim2SF d) as [s|s| |s m e]; simpl; try discriminate.
  - eauto.
  - destruct s; discriminate.
  - destruct s; discriminate.
Qed.

Lemma div_six_zero (x d : float) :
  PrimFloat.eqb d 0 = true -> no_number (x / (6 * d))%float.
Proof.
  intros H. destruct (float_zero_spec _ H) as [s Hs].
  unfold no_number. rewrite div_spec, mul_spec, Hs.
  replace (Prim2SF 6) with (S754_finite false 6755399441055744 (-50)) by reflexivity.
  unfold SF64mul, SF64div. simpl.
  destruct (Prim2SF x); simpl; eauto.
Qed.




(** The area that counts is the computed one.  The vertices of [on_a_line]
    lie on one line, their exact signed area is zero; the products are
    rounded, the computed signed area is [-2], and [find_centroid] returns a
    finite pair that is no centroid of anything. *)
Lemma find_centroid_rounded :
  twice_area on_a_line = 0%Z /\
  Centroid.signed_area rounded_line = (-2)%float /\
  PrimFloat.eqb (Centroid.signed_area rounded_line) 0 = false /\
  exists x y, Centroid.find_centroid rounded_line = Return (x, y) /\
              PrimFloat.is_finite x = true /\ PrimFloat.is_finite y = true.
Proof.
  split; [reflexivity|]. split; [vm_compute; reflexivity|].
  split; [vm_compute; reflexivity|].
  destruct (Centroid.find_centroid rounded_line) as [[x y]|e] eqn:E.
  - exists x, y. split; [reflexivity|].
    revert E. vm_compute. intros [= <- <-]. split; reflexivity.
  - revert E. vm_compute. discriminate.
Qed.

(** ** Missing artifacts *)

Ltac case_field f self :=
  destruct (f self) eqn:?; simpl in *; try discriminate.

(** C8: a stage that is called while one of the artifacts it needs is [None]
    raises [NotdefinedError] for an artifact that is missing, and leaves the
    object as it was. *)
Theorem missing_artifact_raises (stage : Stage) (self : clean_ais) (a : Artifact) :
  In a (required stage) ->
  absent a self = true ->
  exists b, In b (required stage) /\ absent b self = true /\
            run stage self = raises self (NotdefinedError (artifact_name b)).
Proof.
  intros Ha Hn.
  destruct stage; simpl in Ha;
    repeat (destruct Ha as [<-|Ha]; [|try contradiction]); simpl in Hn;
    unfold run, create_routes, remove_routes_outside_polygon, interpolate_routes,
      clean_data, create_waypoints, save_routes, save_interpolated, save_waypoints,
      save_pickle.
  - case_field self_ais_data self. exists AisData. simpl. rewrite Heqo. auto.
  - case_field self_ports self.
    destruct (self_ais_data self) eqn:E.
    + exists Ports. simpl. rewrite Heqo. auto.
    + exists AisData. simpl. rewrite E. auto.
  - case_field self_polygon self. exists Polygon. simpl. rewrite Heqo. auto.
  - case_field self_routes self.
    destruct (self_polygon self) eqn:E.
    + exists Routes. simpl. rewrite Heqo. auto.
    + exists Polygon. simpl. rewrite E. auto.
  - case_field self_routes self. exists Routes. simpl. rewrite Heqo. auto.
  - case_field self_routes self. exists Routes. simpl. rewrite Heqo. auto.
  - case_field self_interpolated_routes self.
    destruct (self_routes self) eqn:E.
    + exists InterpolatedRoutes. simpl. rewrite Heqo. auto.
    + exists Routes. simpl. rewrite E. auto.
  - case_field self_interpolated_routes self.
    exists InterpolatedRoutes. simpl. rewrite Heqo. auto.
  - case_field self_routes self.
    destruct (self_interpolated_routes self) eqn:E.
    + exists Routes. simpl. rewrite Heqo. auto.
    + exists InterpolatedRoutes. simpl. rewrite E. auto.
  - case_field self_routes self. exists Routes. simpl. rewrite Heqo. auto.
  - case_field self_interpolated_routes self.
    exists InterpolatedRoutes. simpl. rewrite Heqo. auto.
  - case_field self_waypoints self. exists Waypoints. simpl. rewrite Heqo. auto.
Qed.

(** ** The quality filter *)

Lemma without_ids_In (ids : list nat) (frame : list Route) (r : Route) :
  In r (without_ids ids frame) <-> In r frame /\ ~ In (id r) ids.
Proof.
  unfold without_ids. rewrite filter_In, negb_true_iff.
  rewrite <- mem_nat_In. destruct (mem_nat (id r) ids); prop_cong.
Qed.

Lemma unique_nat_In (l : list nat) (i : nat) : In i (unique Nat.eqb l) <-> In i l.
Proof. apply unique_In. apply Nat.eqb_eq. Qed.

Lemma slow_ids_spec (speed : float) (frame : list Route) (i : nat) :
  In i (slow_ids speed frame) <-> has_slow_point speed frame i.
Proof.
  unfold slow_ids, has_slow_point. rewrite unique_nat_In, in_map_iff.
  split.
  - intros (g & E & H). apply filter_In in H. exists g. prop.
  - intros (g & H & E & S). exists g. split; [assumption|].
    apply filter_In. prop.
Qed.

(** C7: on an object that holds the raw and the interpolated routes, once
    the first pass has given its frames, the stage [clean_data] returns and
    stores two frames in place of them: a row of the raw routes and a row of
    the interpolated routes is kept exactly when no interpolated point of its
    trip has a speed over ground at or under [speed]. *)
Theorem clean_data_speed_filter (threshold : float) (interval_s : Z) (speed : float)
  (self : clean_ais) (routes interpolated : list Route)
  (frames1 : list Route * list Route) :
  self_routes self = Some routes ->
  self_interpolated_routes self = Some interpolated ->
  distance_pass threshold interval_s (routes, interpolated) = Return frames1 ->
  exists out,
    clean_data_frames threshold interval_s speed (routes, interpolated) = Return out /\
    run (CleanData threshold interval_s speed) self
    = returns (set_interpolated_routes (set_routes self (fst out)) (snd out)) /\
    self_routes (fst (run (CleanData threshold interval_s speed) self)) = Some (fst out) /\
    self_interpolated_routes (fst (run (CleanData threshold interval_s speed) self))
    = Some (snd out) /\
    forall r,
      (In r (fst out) <->
       In r (fst frames1) /\ ~ has_slow_point speed (snd frames1) (id r)) /\
      (In r (snd out) <->
       In r (snd frames1) /\ ~ has_slow_point speed (snd frames1) (id r)).
Proof.
  intros Hr Hi H. exists (speed_pass speed frames1).
  assert (F : clean_data_frames threshold interval_s speed (routes, interpolated)
              = Return (speed_pass speed frames1)).
  { unfold clean_data_frames. rewrite H. reflexivity. }
  assert (S : run (CleanData threshold interval_s speed) self
              = returns (set_interpolated_routes
                           (set_routes self (fst (speed_pass speed frames1)))
                           (snd (speed_pass speed frames1)))).
  { simpl. unfold clean_data. rewrite Hr, Hi, F. reflexivity. }
  split; [exact F|]. split; [exact S|]. rewrite S.
  split; [reflexivity|]. split; [reflexivity|].
  intros r. unfold speed_pass. simpl.
  rewrite !without_ids_In, slow_ids_spec. prop.
Qed.

Lemma find_first {A : Type} (p : A -> bool) (l : list A) (x : A) :
  find p l = Some x <->
  exists l1 l2, l = l1 ++ x :: l2 /\ p x = true /\ forall y, In y l1 -> p y = false.
Proof.
  induction l as [|a t IH]; simpl.
  - split; [discriminate|]. intros (l1 & l2 & H & _). destruct l1; discriminate.
  - destruct (p a) eqn:E.
    + split.
      * intros [= <-]. exists [], t. split; [reflexivity|]. split; [assumption|].
        intros ? [].
      * intros (l1 & l2 & H & Hx & Hl1). destruct l1 as [|b l1]; simpl in H.
        -- congruence.
        -- injection H as <- _. rewrite (Hl1 a) in E; [discriminate|now left].
    + rewrite IH. split.
      * intros (l1 & l2 & -> & Hx & Hl1). exists (a :: l1), l2.
        split; [reflexivity|]. split; [assumption|].
        intros y [<-|Hy]; auto.
      * intros (l1 & l2 & H & Hx & Hl1). destruct l1 as [|b l1]; simpl in H.
        -- injection H as -> _. congruence.
        -- injection H as -> ->. exists l1, l2. split; [reflexivity|].
           split; [assumption|]. intros y Hy. apply Hl1. now right.
Qed.

Lemma with_previous_In (seen grid : list Route) (cur : Route) (o : option Route) :
  In (cur, o) (with_previous seen grid) <->
  exists g1 g3, grid = g1 ++ cur :: g3 /\
                o = find (fun p => Nat.eqb (id p) (id cur)) (rev g1 ++ seen).
Proof.
  revert seen. induction grid as [|r t IH]; intros seen; simpl.
  - split; [prop|]. intros (g1 & g3 & H & _). destruct g1; discriminate.
  - rewrite IH. split.
    + intros [H|(g1 & g3 & -> & ->)].
      * injection H as -> <-. exists [], t. split; reflexivity.
      * exists (r :: g1), g3. split; [reflexivity|]. simpl.
        now rewrite <- app_assoc.
    + intros (g1 & g3 & H & ->). destruct g1 as [|b g1]; simpl in H.
      * injection H as -> ->. now left.
      * injection H as -> ->. right. exists g1, g3. split; [reflexivity|].
        simpl. now rewrite <- app_assoc.
Qed.

(** [groupby('id').shift(1)] pairs every point with the one just before it
    in its trip. *)
Lemma with_previous_consecutive (grid : list Route) (prev cur : Route) :
  In (cur, Some prev) (with_previous [] grid) <-> consecutive grid prev cur.
Proof.
  rewrite with_previous_In. unfold consecutive. split.
  - intros (g1 & g3 & -> & H). symmetry in H. rewrite app_nil_r in H.
    apply find_first in H. destruct H as (a & b & E & Hp & Ha).
    apply (f_equal (@rev Route)) in E. rewrite rev_involutive, rev_app_distr in E.
    simpl in E. rewrite <- app_assoc in E. simpl in E. subst g1.
    exists (rev b), (rev a), g3. rewrite <- app_assoc. simpl.
    split; [reflexivity|]. apply Nat.eqb_eq in Hp. split; [assumption|].
    intros x Hx. apply in_rev in Hx. apply Ha in Hx. now apply Nat.eqb_neq in Hx.
  - intros (l1 & l2 & l3 & -> & E & Hl2).
    exists (l1 ++ prev :: l2), l3. rewrite <- app_assoc. simpl.
    split; [reflexivity|]. symmetry. rewrite app_nil_r. apply find_first.
    exists (rev l2), (rev l1). rewrite rev_app_distr. simpl. rewrite <- app_assoc.
    split; [reflexivity|]. split; [now apply Nat.eqb_eq|].
    intros y Hy. apply in_rev in Hy. apply Nat.eqb_neq. now apply Hl2.
Qed.

Lemma dropna_In (frame : list (Route * option Route)) (cur prev : Route) :
  In (cur, prev) (dropna frame) <->
  In (cur, Some prev) frame /\ pair_complete prev cur = true.
Proof.
  unfold dropna, pair_complete. rewrite in_flat_map. split.
  - intros ([c [p|]] & Hin & H); simpl in H; [|contradiction].
    destruct (ping_complete (ping c) && info_complete (info c)
              && negb (PrimFloat.is_nan (lat (ping p)))
              && negb (PrimFloat.is_nan (long (ping p)))) eqn:E;
      simpl in H; [|contradiction].
    destruct H as [H|[]]. injection H as -> ->. prop.
  - intros [Hin E]. exists (cur, Some prev). split; [assumption|].
    simpl. rewrite E. now left.
Qed.

Lemma stationary_ids_spec (threshold : float) (grid : list Route) (i : nat) :
  In i (stationary_ids threshold grid) <-> close_pair threshold grid i.
Proof.
  unfold stationary_ids, close_pair. rewrite unique_nat_In, in_map_iff. split.
  - intros ([cur prev] & E & H). apply filter_In in H. destruct H as [H D].
    apply dropna_In in H. destruct H as [H C].
    apply with_previous_consecutive in H.
    exists prev, cur. simpl in E. unfold distance in D. simpl in D. prop.
  - intros (prev & cur & H & E & C & D). exists (cur, prev). split; [assumption|].
    apply filter_In. split; [|exact D].
    apply dropna_In. split; [|assumption]. now apply with_previous_consecutive.
Qed.

(** X29: What the first pass of [clean_data] does, as it is written: when
    the resampling at [interval_s] gives [grid], the pass returns, and a row
    of the raw routes and a row of the interpolated routes is kept exactly
    when its trip has no two successive grid points, complete for [dropna],
    closer than [threshold].  A pair that [dropna] drops is not measured. *)
Theorem distance_pass_filter (threshold : float) (interval_s : Z)
  (routes interpolated grid : list Route) :
  interpolate interval_s interpolated = Return grid ->
  exists out,
    distance_pass threshold interval_s (routes, interpolated) = Return out /\
    forall r,
      (In r (fst out) <-> In r routes /\ ~ close_pair threshold grid (id r)) /\
      (In r (snd out) <-> In r interpolated /\ ~ close_pair threshold grid (id r)).
Proof.
  intros H. unfold distance_pass. simpl. rewrite H. simpl.
  eexists. split; [reflexivity|]. intros r. simpl.
  rewrite !without_ids_In, stationary_ids_spec. prop.
Qed.

(** ** Overlapping port polygons *)

Lemma opt_eqb_eq (a b : option Z) : opt_eqb a b = true <-> a = b.
Proof.
  destruct a, b; simpl; try (split; congruence).
  rewrite Z.eqb_eq. split; congruence.
Qed.

Lemma explode_In (masks : list (list Z * Z)) (i j : Z) :
  In (Some i, j) (explode masks) <-> exists idxs, In (idxs, j) masks /\ In i idxs.
Proof.
  unfold explode. rewrite in_flat_map. split.
  - intros ([idxs j'] & Hin & H). simpl in H. destruct idxs as [|a t].
    + destruct H as [H|[]]. discriminate.
    + apply in_map_iff in H. destruct H as (x & E & Hx).
      injection E as -> ->. eauto.
  - intros (idxs & Hin & Hi). exists (idxs, j). split; [assumption|]. simpl.
    destruct idxs as [|a t]; [contradiction|].
    apply in_map_iff. eauto.
Qed.

Lemma StronglySorted_app {A : Type} (R : A -> A -> Prop) (l1 l2 : list A) :
  StronglySorted R l1 -> StronglySorted R l2 ->
  (forall a b, In a l1 -> In b l2 -> R a b) ->
  StronglySorted R (l1 ++ l2).
Proof.
  induction l1 as [|x t IH]; simpl; intros H1 H2 H; [assumption|].
  inversion H1; subst. constructor.
  - apply IH; auto.
  - apply Forall_app. split; [assumption|].
    apply Forall_forall. intros b Hb. apply H; auto.
Qed.

Lemma StronglySorted_split {A : Type} (R : A -> A -> Prop) (l1 l2 : list A) (a : A) :
  StronglySorted R (l1 ++ a :: l2) -> forall b, In b l2 -> R a b.
Proof.
  induction l1 as [|x t IH]; simpl; intros H b Hb.
  - inversion H; subst. rewrite Forall_forall in H3. auto.
  - inversion H; subst. auto.
Qed.

(** The engine lists the polygons in input order, so the exploded rows come
    by polygon index. *)
Lemma explode_by_polygon {P : Type} (h : Z * P -> list Z) (polygons : list P) (k : Z) :
  let E := explode (map (fun jp => (h jp, fst jp)) (index_from k polygons)) in
  StronglySorted (fun a b => snd a <= snd b)%Z E /\ Forall (fun e => k <= snd e)%Z E.
Proof.
  revert k. induction polygons as [|p t IH]; intros k; simpl.
  - split; constructor.
  - destruct (IH (k + 1)%Z) as [S F]. simpl in S, F.
    set (blk := match h (k, p) with
                | [] => [(@None Z, k)]
                | _ :: _ => map (fun i => (Some i, k)) (h (k, p))
                end).
    assert (B : Forall (fun e => snd e = k) blk).
    { unfold blk. destruct (h (k, p)) as [|a l].
      - repeat constructor.
      - apply Forall_forall. intros e He. apply in_map_iff in He.
        destruct He as (x & <- & _). reflexivity. }
    rewrite Forall_forall in B, F. split.
    + apply StronglySorted_app; [|assumption|].
      * clear -B. induction blk as [|e l IHl]; constructor.
        -- apply IHl. intros x Hx. apply B. now right.
        -- apply Forall_forall. intros x Hx.
           rewrite (B e), (B x); [lia|now right|now left].
      * intros a b Ha Hb. rewrite (B a Ha). specialize (F b Hb). simpl in F. lia.
    + apply Forall_app. split; apply Forall_forall; intros e He.
      * rewrite (B e He). lia.
      * specialize (F e He). simpl in F. lia.
Qed.

Lemma in_split_first (i : Z) (l : list Z) :
  In i l -> exists a b, l = a ++ i :: b /\ ~ In i a.
Proof.
  induction l as [|x t IH]; simpl; [contradiction|].
  destruct (Z.eq_dec x i) as [->|N].
  - intros _. exists [], t. split; [reflexivity|]. intros [].
  - intros [E|H]; [contradiction|]. destruct (IH H) as (a & b & -> & Ha).
    exists (x :: a), b. split; [reflexivity|]. intros [E|H']; auto.
Qed.

(** The exploded rows of one row of [masks]. *)
Lemma explode_cons (idxs : list Z) (j : Z) (masks : list (list Z * Z)) :
  explode ((idxs, j) :: masks)
  = match idxs with
    | [] => [(None, j)]
    | _ :: _ => map (fun i => (Some i, j)) idxs
    end ++ explode masks.
Proof. reflexivity. Qed.

Lemma explode_block_key (idxs : list Z) (j i : Z) (e : option Z * Z) :
  In e match idxs with
       | [] => [(None, j)]
       | _ :: _ => map (fun k => (Some k, j)) idxs
       end ->
  fst e = Some i -> In i idxs /\ snd e = j.
Proof.
  destruct idxs as [|a t].
  - intros [<-|[]]. discriminate.
  - intros H E. apply in_map_iff in H. destruct H as (k & <- & Hk).
    simpl in E. injection E as ->. auto.
Qed.

(** Whatever rows the engine returns and in whatever order, the row that
    [drop_duplicates] keeps for a ping is the one of the first row of
    [masks] that lists the ping. *)
Lemma drop_duplicates_first_report (masks : list (list Z * Z)) (i j : Z) :
  In (Some i, j) (drop_duplicates opt_eqb fst (explode masks)) <-> first_report masks i j.
Proof.
  rewrite drop_duplicates_first.
  assert (K : forall (l : list (option Z * Z)),
             (forall b, In b l -> opt_eqb (fst b) (fst (Some i, j)) = false) <->
             (forall b, In b l -> fst b <> Some i)).
  { intros l. split; intros H b Hb; specialize (H b Hb); simpl in *.
    - intros E. rewrite E in H. simpl in H. rewrite Z.eqb_refl in H. discriminate.
    - destruct (opt_eqb (fst b) (Some i)) eqn:E; [|reflexivity].
      apply opt_eqb_eq in E. contradiction. }
  induction masks as [|[idxs j0] t IH].
  - split.
    + intros (l1 & l2 & H & _). destruct l1; discriminate.
    + intros (m1 & ix & m2 & H & _). destruct m1; discriminate.
  - rewrite explode_cons.
    set (blk := match idxs with
                | [] => [(@None Z, j0)]
                | _ :: _ => map (fun k => (Some k, j0)) idxs
                end) in *.
    pose proof (explode_block_key idxs j0 i) as B. fold blk in B.
    destruct (in_dec Z.eq_dec i idxs) as [Hi|Hi].
    + (* the first row lists the ping *)
      split.
      * intros (l1 & l2 & H & N). assert (N0 := proj1 (K _) N); clear N; rename N0 into N. apply app_eq_app in H.
        assert (Hb : In (Some i, j0) blk).
        { unfold blk. destruct idxs as [|a u]; [contradiction|].
          apply in_map_iff. eauto. }
        destruct H as (l & [[H1 H2]|[H1 H2]]).
        -- destruct l as [|x l].
           ++ rewrite app_nil_r in H1. subst l1. exfalso. now apply (N _ Hb).
           ++ injection H2 as <- _.
              assert (Hx : In (Some i, j) blk).
              { rewrite H1. apply in_or_app. right. now left. }
              destruct (B _ Hx eq_refl) as [_ E]. simpl in E. subst j0.
              exists [], idxs, t. split; [reflexivity|]. split; [assumption|].
              intros row [].
        -- exfalso. apply (N (Some i, j0)); [|reflexivity].
           rewrite H1. apply in_or_app. now left.
      * intros (m1 & ix & m2 & H & Hix & N). destruct m1 as [|r m1]; simpl in H.
        -- injection H as <- <- <-.
           destruct (in_split_first i idxs Hi) as (a & b & E & Na).
           exists (map (fun k => (Some k, j0)) a), (map (fun k => (Some k, j0)) b ++ explode t).
           split.
           ++ subst blk. destruct idxs as [|x u]; [destruct a; discriminate|].
              rewrite E, map_app. simpl. now rewrite <- app_assoc.
           ++ apply (proj2 (K _)). intros e He. apply in_map_iff in He.
              destruct He as (k & <- & Hk). simpl. intros [= ->]. contradiction.
        -- injection H as <- _. exfalso. apply (N (idxs, j0)); [now left|assumption].
    + (* the first row does not list the ping *)
      assert (NB : forall e, In e blk -> fst e <> Some i).
      { intros e He E. destruct (B e He E). contradiction. }
      split.
      * intros (l1 & l2 & H & N). assert (N0 := proj1 (K _) N); clear N; rename N0 into N. apply app_eq_app in H.
        assert (P : exists l1' l2', explode t = l1' ++ (Some i, j) :: l2' /\
                                   forall b, In b l1' -> fst b <> Some i).
        { destruct H as (l & [[H1 H2]|[H1 H2]]).
          - destruct l as [|x l].
            + simpl in H2. exists [], l2. split; [now symmetry|]. intros b [].
            + injection H2 as <- _. exfalso. apply (NB (Some i, j)); [|reflexivity].
              rewrite H1. apply in_or_app. right. now left.
          - exists l, l2. split; [assumption|]. intros b Hb. apply N.
            rewrite H1. apply in_or_app. now right. }
        destruct P as (l1' & l2' & E & N'').
        assert (N' := proj2 (K _) N'').
        destruct (proj1 IH (ex_intro _ l1' (ex_intro _ l2' (conj E N'))))
          as (m1 & ix & m2 & -> & Hix & Nm).
        exists ((idxs, j0) :: m1), ix, m2. split; [reflexivity|]. split; [assumption|].
        intros row [<-|Hr]; [assumption|now apply Nm].
      * intros (m1 & ix & m2 & H & Hix & N). destruct m1 as [|r m1]; simpl in H.
        -- injection H as -> _ _. contradiction.
        -- injection H as <- ->.
           destruct (proj2 IH) as (l1 & l2 & E & N').
           { exists m1, ix, m2. split; [reflexivity|]. split; [assumption|].
             intros row Hr. apply N. now right. }
           assert (N0 := proj1 (K _) N'); clear N'; rename N0 into N'. exists (blk ++ l1), l2. split.
           ++ rewrite E. now rewrite <- app_assoc.
           ++ apply (proj2 (K _)). intros b Hb. apply in_app_or in Hb.
              destruct Hb as [Hb|Hb]; [now apply NB|now apply N'].
Qed.

Section FirstMatch.

Variables (ais_data : list Ping) (ports : list Port).

Local Abbreviation reported' := (reported ais_data ports).

Lemma exploded_sorted :
  StronglySorted (fun a b => snd a <= snd b)%Z (explode (masks ais_data ports)).
Proof.
  unfold masks, mask_from_polygons, reset_index.
  apply (explode_by_polygon
           (fun jp => map fst (filter (fun ip => inside (snd jp) (fst (snd ip)) (snd (snd ip)))
                                      (index_from 0 (combine _ _))))).
Qed.

Lemma exploded_first (i j : Z) :
  In (Some i, j) (exploded_masks ais_data ports) ->
  reported' i j /\ forall j', reported' i j' -> (j <= j')%Z.
Proof.
  intros H. unfold exploded_masks in H.
  assert (Hin := drop_duplicates_incl _ _ _ _ _ _ H).
  apply drop_duplicates_first in H. destruct H as (l1 & l2 & E & Hl1).
  split; [now apply explode_In|].
  intros j' Hj'. apply explode_In in Hj'. rewrite E in Hj'.
  apply in_app_or in Hj'. destruct Hj' as [Hj'|[Hj'|Hj']].
  - apply Hl1 in Hj'. simpl in Hj'. rewrite Z.eqb_refl in Hj'. discriminate.
  - injection Hj' as ->. lia.
  - pose proof exploded_sorted as S. rewrite E in S.
    apply (StronglySorted_split _ _ _ _ S) in Hj'. exact Hj'.
Qed.

(** C9: a ping that the engine reports inside several port polygons keeps
    one row after [drop_duplicates]: whatever rows the engine returns, the
    row of the first of them that lists the ping, and, as the engine lists
    the polygons in the order of the port input, the row of the first of
    these polygons in that order; the rows of the later polygons are dropped,
    and the port columns of the ping are those of that polygon. *)
Theorem first_match_wins (i j : Z) :
  (forall engine_rows,
     In (Some i, j) (drop_duplicates opt_eqb fst (explode engine_rows))
     <-> first_report engine_rows i j) /\
  (In (Some i, j) (exploded_masks ais_data ports) <->
   reported ais_data ports i j /\ forall j', reported ais_data ports i j' -> (j <= j')%Z) /\
  (forall r, In r (in_port ais_data ports) -> ip_index r = i ->
             In (Some i, j) (exploded_masks ais_data ports) ->
             row_at ports j = Some (ip_port r)).
Proof.
  split; [intros; apply drop_duplicates_first_report|].
  split.
  - split; [apply exploded_first|].
    intros [R L]. apply explode_In in R.
    destruct (drop_duplicates_keeps (option Z * Z) (option Z) opt_eqb fst)
      with (l := explode (masks ais_data ports)) (a := (Some i, j))
      as ([o j0] & Hb & E); auto.
    + intros k. now apply opt_eqb_eq.
    + intros a b c Hab Hbc. apply opt_eqb_eq in Hab, Hbc. apply opt_eqb_eq. congruence.
    + simpl in E. apply opt_eqb_eq in E. subst o.
      fold (exploded_masks ais_data ports) in Hb.
      destruct (exploded_first _ _ Hb) as [R0 L0].
      assert (j0 = j).
      { apply Z.le_antisymm; [apply L0; now apply explode_In|apply L; assumption]. }
      now subst.
  - intros r Hr Hi Hj. unfold in_port, ships_in_port in Hr.
    apply in_flat_map in Hr. destruct Hr as (row & _ & Hr).
    destruct (inside_any _ _); [|contradiction].
    apply in_map_iff in Hr. destruct Hr as ([o p] & <- & He).
    apply filter_In in He. destruct He as [He Ho]. simpl in *.
    apply opt_eqb_eq in Ho. subst o. subst i.
    unfold locode_in_polygon, merge_ports in He. apply in_flat_map in He.
    destruct He as ([o j1] & Hin & Hp). simpl in Hp.
    destruct (row_at ports j1) eqn:Ep; [|contradiction].
    destruct Hp as [Hp|[]]. injection Hp as -> ->.
    destruct (exploded_first _ _ Hin) as [R1 L1].
    destruct (exploded_first _ _ Hj) as [R2 L2].
    assert (j1 = j) by (apply Z.le_antisymm; auto).
    now subst.
Qed.

End FirstMatch.

(** ** Sorting *)

Lemma insert_sorted_Permutation {A : Type} (leb : A -> A -> bool) (a : A) (l : list A) :
  Permutation (insert_sorted leb a l) (a :: l).
Proof.
  induction l as [|b t IH]; simpl; [reflexivity|].
  destruct (leb a b); [reflexivity|].
  rewrite IH. apply perm_swap.
Qed.

Lemma sort_by_Permutation {A : Type} (leb : A -> A -> bool) (l : list A) :
  Permutation (sort_by leb l) l.
Proof.
  induction l as [|a t IH]; simpl; [reflexivity|].
  rewrite insert_sorted_Permutation. now constructor.
Qed.

Lemma sort_by_In {A : Type} (leb : A -> A -> bool) (l : list A) (a : A) :
  In a (sort_by leb l) <-> In a l.
Proof.
  split; apply Permutation_in;
    [apply sort_by_Permutation|apply Permutation_sym, sort_by_Permutation].
Qed.

Section SortBy.

Variables (A : Type) (leb : A -> A -> bool).
Hypothesis leb_total : forall a b, leb a b = true \/ leb b a = true.
Hypothesis leb_trans : forall a b c, leb a b = true -> leb b c = true -> leb a c = true.

Lemma insert_sorted_Sorted (a : A) (l : list A) :
  StronglySorted (fun x y => leb x y = true) l ->
  StronglySorted (fun x y => leb x y = true) (insert_sorted leb a l).
Proof using leb_total leb_trans.
  induction l as [|b t IH]; simpl; intros H.
  - repeat constructor.
  - inversion H as [|? ? Ht Hb]; subst. destruct (leb a b) eqn:E.
    + constructor; [assumption|]. constructor; [assumption|].
      revert Hb. apply Forall_impl. intros c. now apply leb_trans.
    + constructor; [now apply IH|].
      assert (Hba : leb b a = true) by (destruct (leb_total a b); congruence).
      apply Forall_forall. intros c Hc.
      apply (Permutation_in _ (insert_sorted_Permutation leb a t)) in Hc.
      destruct Hc as [<-|Hc]; [assumption|].
      rewrite Forall_forall in Hb. now apply Hb.
Qed.

Lemma sort_by_Sorted (l : list A) :
  StronglySorted (fun x y => leb x y = true) (sort_by leb l).
Proof using leb_total leb_trans.
  induction l as [|a t IH]; simpl; [constructor|].
  now apply insert_sorted_Sorted.
Qed.

End SortBy.

(** ** The waypoint buckets *)

Lemma fold_min_le (l : list Z) (x : Z) :
  (fold_left Z.min l x <= x)%Z /\ forall y, In y l -> (fold_left Z.min l x <= y)%Z.
Proof.
  revert x. induction l as [|a t IH]; intros x; simpl.
  - split; [lia|prop].
  - destruct (IH (Z.min x a)) as [H1 H2]. split; [lia|].
    intros y [<-|Hy]; [lia|auto].
Qed.

Lemma fold_max_ge (l : list Z) (x : Z) :
  (x <= fold_left Z.max l x)%Z /\ forall y, In y l -> (y <= fold_left Z.max l x)%Z.
Proof.
  revert x. induction l as [|a t IH]; intros x; simpl.
  - split; [lia|prop].
  - destruct (IH (Z.max x a)) as [H1 H2]. split; [lia|].
    intros y [<-|Hy]; [lia|auto].
Qed.

Lemma minimum_le (l : list Z) (y : Z) : In y l -> (minimum l <= y)%Z.
Proof.
  destruct l as [|x t]; simpl; [prop|].
  destruct (fold_min_le t x) as [H1 H2]. intros [<-|H]; auto.
Qed.

Lemma maximum_ge (l : list Z) (y : Z) : In y l -> (y <= maximum l)%Z.
Proof.
  destruct l as [|x t]; simpl; [prop|].
  destruct (fold_max_ge t x) as [H1 H2]. intros [<-|H]; auto.
Qed.

Lemma minimum_In (l : list Z) : l <> [] -> In (minimum l) l.
Proof.
  destruct l as [|x t]; [congruence|]. intros _. simpl.
  revert x. induction t as [|a t IH]; intros x; simpl; [now left|].
  destruct (IH (Z.min x a)) as [H|H].
  - rewrite <- H. destruct (Z.min_spec x a) as [[_ E]|[_ E]]; rewrite E; auto.
  - auto.
Qed.

Lemma times_of_In (frame : list Route) (r : Route) :
  In r frame -> In (time (ping r)) (times_of (id r) frame).
Proof.
  intros H. unfold times_of. apply in_map_iff. exists r. split; [reflexivity|].
  apply filter_In. split; [assumption|apply Nat.eqb_refl].
Qed.

Lemma duration_bounds (frame : list Route) (r : Route) :
  In r frame ->
  (minimum (times_of (id r) frame) <= time (ping r) <= maximum (times_of (id r) frame))%Z.
Proof.
  intros H. apply times_of_In in H. split; [now apply minimum_le|now apply maximum_ge].
Qed.

Lemma keyed_rows_In (points : Z) (frame : list Route) (k : WKey) (r : Route) :
  In (k, r) (keyed_rows points frame) <->
  In r frame /\ fst k = id r /\ s_group points frame r = Some (snd k).
Proof.
  unfold keyed_rows. rewrite in_flat_map. split.
  - intros (x & Hx & H). destruct (s_group points frame x) eqn:E; [|contradiction].
    destruct H as [H|[]]. injection H as <- <-. simpl. auto.
  - intros (H & Hi & Hg). exists r. split; [assumption|]. rewrite Hg.
    left. destruct k. simpl in *. now subst.
Qed.

Lemma wkey_eqb_eq (a b : WKey) : wkey_eqb a b = true <-> a = b.
Proof.
  unfold wkey_eqb. rewrite andb_true_iff, Nat.eqb_eq, Z.eqb_eq.
  destruct a, b; simpl. split; [intros []; congruence|intros [=]; auto].
Qed.

(** Every row of the final frame is the mean of a group of rows of its
    trip. *)
Lemma waypoints_frame_In (route : list Route) (points : Z) (w : Route) :
  In w (waypoints_frame route points) ->
  exists r, In r route /\ id r = id w /\ s_group points route r = Some (time (ping w)).
Proof.
  unfold waypoints_frame. intros H. apply in_flat_map in H.
  destruct H as ([k [[[la lo] sg] cg]] & Hk & H).
  apply in_map_iff in H. destruct H as (e & <- & _). simpl.
  unfold bucket_means in Hk. apply in_map_iff in Hk.
  destruct Hk as (k' & E & Hk). injection E as -> _ _ _ _.
  apply sort_by_In, (unique_In _ _ wkey_eqb_eq), in_map_iff in Hk.
  destruct Hk as ([k' r] & <- & Hr). apply keyed_rows_In in Hr. simpl in *.
  exists r. prop_split.
Qed.

(** C10: for a voyage whose length in seconds is under [points - 1] (a
    voyage whose points share one timestamp, for one) the width [f] is [0];
    the floor division of the offsets by [f] is a division by zero, no row of
    the voyage gets a [time_group], and the voyage has no waypoint in the
    result. *)
Theorem short_voyage_divides_by_zero (points : Z) (frame : list Route) (r : Route) :
  In r frame ->
  (duration (id r) frame < points - 1)%Z ->
  bucket_width points (id r) frame = Some 0%Z /\
  floordiv (time (ping r) - day_floor (id r) frame) (bucket_width points (id r) frame)
    = None /\
  s_group points frame r = None /\
  forall w, In w (waypoints_frame frame points) -> id w <> id r.
Proof.
  intros Hr Hd.
  assert (D0 : (0 <= duration (id r) frame)%Z).
  { unfold duration. pose proof (duration_bounds frame r Hr). lia. }
  assert (W : forall r', id r' = id r -> bucket_width points (id r') frame = Some 0%Z).
  { intros r' E. rewrite E. unfold bucket_width.
    destruct (points - 1 =? 0)%Z eqn:Z0; [apply Z.eqb_eq in Z0; lia|].
    f_equal. apply Z.div_small. lia. }
  assert (G : forall r', id r' = id r -> s_group points frame r' = None).
  { intros r' E. unfold s_group. rewrite (W r' E). reflexivity. }
  split; [now apply W|]. split; [now rewrite W|]. split; [now apply G|].
  intros w Hw E. apply waypoints_frame_In in Hw. destruct Hw as (r' & _ & Hi & Hg).
  rewrite G in Hg; [discriminate|congruence].
Qed.

Lemma NoDup_map_on {A B : Type} (f : A -> B) (l : list A) :
  (forall x y, In x l -> In y l -> f x = f y -> x = y) ->
  NoDup l -> NoDup (map f l).
Proof.
  induction l as [|a t IH]; simpl; intros Hinj Hnd; [constructor|].
  inversion Hnd; subst. constructor.
  - intros Hin. apply in_map_iff in Hin. destruct Hin as (x & E & Hx).
    assert (x = a) by (apply Hinj; auto). now subst.
  - apply IH; auto.
Qed.

(** Distinct integers between [lo] and [hi] are at most [hi - lo + 1]. *)
Lemma NoDup_range (l : list Z) (lo hi : Z) :
  NoDup l -> (forall x, In x l -> lo <= x <= hi)%Z ->
  (Z.of_nat (List.length l) <= Z.max 0 (hi - lo + 1))%Z.
Proof.
  intros Hnd Hr.
  assert (H : (List.length (map (fun x => Z.to_nat (x - lo)) l)
               <= List.length (seq 0 (Z.to_nat (hi - lo + 1))))%nat).
  { apply NoDup_incl_length.
    - apply NoDup_map_on; [|assumption].
      intros x y Hx Hy E. apply Hr in Hx, Hy. lia.
    - intros n Hn. apply in_map_iff in Hn. destruct Hn as (x & <- & Hx).
      apply Hr in Hx. apply in_seq. lia. }
  rewrite length_map, length_seq in H. lia.
Qed.

Lemma bucket_rows_bucket (points : Z) (frame : list Route) (k : WKey) :
  bucket_rows (keyed_rows points frame) k = bucket points frame k.
Proof.
  unfold bucket, in_bucket, keyed_rows, bucket_rows.
  generalize (s_group points frame). intros sg.
  induction frame as [|r t IH]; simpl; [reflexivity|].
  destruct (sg r) as [g|]; simpl; [|assumption].
  destruct (wkey_eqb (id r, g) k); simpl; now rewrite IH.
Qed.

Lemma length_filter_map {A B : Type} (p : B -> bool) (g : A -> B) (l : list A) :
  List.length (filter p (map g l)) = List.length (filter (fun a => p (g a)) l).
Proof.
  induction l as [|a t IH]; simpl; [reflexivity|].
  destruct (p (g a)); simpl; now rewrite IH.
Qed.

Lemma div_sum_bound (a d f : Z) : (0 < f)%Z -> ((a + d) / f <= a / f + d / f + 1)%Z.
Proof.
  intros Hf.
  pose proof (Z.div_mod a f ltac:(lia)). pose proof (Z.mod_pos_bound a f Hf).
  pose proof (Z.div_mod d f ltac:(lia)). pose proof (Z.mod_pos_bound d f Hf).
  apply Z.lt_succ_r. apply Z.div_lt_upper_bound; [assumption|]. nia.
Qed.

Section Buckets.

Variables (points : Z) (frame : list Route) (i : nat) (f : Z).
Hypothesis width : bucket_width points i frame = Some f.
Hypothesis positive : (0 < f)%Z.

Lemma width_quotient : (points - 1 <> 0)%Z /\ f = (duration i frame / (points - 1))%Z.
Proof using width positive.
  unfold bucket_width in width. destruct (points - 1 =? 0)%Z eqn:E; [discriminate|].
  apply Z.eqb_neq in E. injection width as <-. auto.
Qed.

Lemma s_group_bucket (r : Route) :
  id r = i ->
  s_group points frame r
  = Some (day_floor i frame + (time (ping r) - day_floor i frame) / f * f)%Z.
Proof using width positive.
  intros <-. unfold s_group. rewrite width. simpl.
  destruct (f =? 0)%Z eqn:E; [apply Z.eqb_eq in E; lia|reflexivity].
Qed.

Lemma buckets_of_bound :
  (Z.of_nat (List.length (buckets_of points frame i)) <= duration i frame / f + 2)%Z.
Proof using width positive.
  unfold buckets_of, bucket_means. rewrite length_filter_map. simpl.
  set (keys := filter (fun k : WKey => Nat.eqb (fst k) i)
                 (sort_by wkey_leb (unique wkey_eqb (map fst (keyed_rows points frame))))).
  set (t0 := day_floor i frame).
  set (lo := ((minimum (times_of i frame) - t0) / f)%Z).
  set (hi := ((maximum (times_of i frame) - t0) / f)%Z).
  assert (K : forall k, In k keys ->
              fst k = i /\ exists r, In r frame /\ id r = i /\
                                     snd k = (t0 + (time (ping r) - t0) / f * f)%Z).
  { intros k Hk. apply filter_In in Hk. destruct Hk as [Hk E].
    apply Nat.eqb_eq in E. split; [assumption|].
    apply sort_by_In, (unique_In _ _ wkey_eqb_eq), in_map_iff in Hk.
    destruct Hk as ([k' r] & <- & Hr). apply keyed_rows_In in Hr. simpl in *.
    destruct Hr as (Hr & Hi & Hg). exists r. split; [assumption|].
    split; [congruence|]. rewrite s_group_bucket in Hg by congruence.
    injection Hg as <-. reflexivity. }
  assert (Hnd : NoDup keys).
  { apply NoDup_filter.
    eapply Permutation_NoDup; [apply Permutation_sym, sort_by_Permutation|].
    apply unique_NoDup, wkey_eqb_eq. }
  assert (Hq : forall k, In k keys -> (lo <= (snd k - t0) / f <= hi)%Z).
  { intros k Hk. destruct (K k Hk) as (_ & r & Hr & Hi & ->).
    replace (t0 + (time (ping r) - t0) / f * f - t0)%Z
      with ((time (ping r) - t0) / f * f)%Z by lia.
    rewrite Z.div_mul by lia.
    pose proof (duration_bounds frame r Hr) as B. rewrite Hi in B.
    unfold lo, hi. split; apply Z.div_le_mono; lia. }
  assert (L : (Z.of_nat (List.length (map (fun k : WKey => (snd k - t0) / f)%Z keys))
               <= Z.max 0 (hi - lo + 1))%Z).
  { apply NoDup_range.
    - apply NoDup_map_on; [|assumption].
      intros x y Hx Hy E.
      destruct (K x Hx) as (Fx & rx & _ & _ & Sx).
      destruct (K y Hy) as (Fy & ry & _ & _ & Sy).
      rewrite Sx, Sy in E.
      replace (t0 + (time (ping rx) - t0) / f * f - t0)%Z
        with ((time (ping rx) - t0) / f * f)%Z in E by lia.
      replace (t0 + (time (ping ry) - t0) / f * f - t0)%Z
        with ((time (ping ry) - t0) / f * f)%Z in E by lia.
      rewrite !Z.div_mul in E by lia.
      destruct x, y; simpl in *. f_equal; [congruence|]. rewrite Sx, Sy, E. reflexivity.
    - intros q Hq'. apply in_map_iff in Hq'. destruct Hq' as (k & <- & Hk). auto. }
  rewrite length_map in L. fold keys.
  assert (D : (0 <= duration i frame / f)%Z).
  { destruct keys as [|k ?] eqn:Ek.
    - unfold duration. destruct (times_of i frame) as [|x t] eqn:Et.
      + simpl. rewrite Z.div_0_l; lia.
      + apply Z.div_pos; [|assumption].
        assert (In x (times_of i frame)) by (rewrite Et; now left).
        pose proof (minimum_le _ _ H). pose proof (maximum_ge _ _ H).
        rewrite <- Et. lia.
    - destruct (K k) as (_ & r & Hr & Hi & _); [now left|].
      pose proof (duration_bounds frame r Hr) as B. rewrite Hi in B.
      apply Z.div_pos; [unfold duration; lia|assumption]. }
  pose proof (div_sum_bound (minimum (times_of i frame) - t0) (duration i frame) f positive)
    as S.
  unfold duration in S at 1.
  replace (minimum (times_of i frame) - t0
           + (maximum (times_of i frame) - minimum (times_of i frame)))%Z
    with (maximum (times_of i frame) - t0)%Z in S by lia.
  fold hi lo in S. lia.
Qed.

End Buckets.

(** C6, amended: with [1 < points] and a voyage of at least [points - 1]
    seconds, the width is [f = duration / (points - 1)] in whole seconds, a
    row at time [t] is put in the bucket that starts at
    [t0 + floor((t - t0) / f) * f] with [t0] the day floor of the first
    timestamp, every group carries the means of its rows, and the voyage has
    at most [duration / f + 2] groups: at most [points + 1] when
    [duration mod (points - 1) < f]. *)
Theorem waypoint_buckets (points : Z) (frame : list Route) (i : nat) :
  (1 < points)%Z ->
  (points - 1 <= duration i frame)%Z ->
  let f := (duration i frame / (points - 1))%Z in
  let t0 := (minimum (times_of i frame) / 86400 * 86400)%Z in
  bucket_width points i frame = Some f /\
  (forall r, In r frame -> id r = i ->
             s_group points frame r = Some (t0 + (time (ping r) - t0) / f * f)%Z) /\
  (forall k vals, In (k, vals) (bucket_means (keyed_rows points frame)) ->
                  vals = (mean (map (fun r => lat (ping r)) (bucket points frame k)),
                          mean (map (fun r => long (ping r)) (bucket points frame k)),
                          mean (map (fun r => sog (ping r)) (bucket points frame k)),
                          mean (map (fun r => cog (ping r)) (bucket points frame k)))) /\
  (Z.of_nat (List.length (buckets_of points frame i)) <= duration i frame / f + 2)%Z /\
  ((duration i frame mod (points - 1) < f)%Z ->
   (Z.of_nat (List.length (buckets_of points frame i)) <= points + 1)%Z).
Proof.
  intros Hp Hd f t0.
  assert (W : bucket_width points i frame = Some f).
  { unfold bucket_width. destruct (points - 1 =? 0)%Z eqn:E; [|reflexivity].
    apply Z.eqb_eq in E. lia. }
  assert (F : (0 < f)%Z).
  { unfold f. apply Z.div_str_pos. lia. }
  split; [exact W|]. split.
  { intros r _ Hi. now apply s_group_bucket. }
  split.
  { intros k vals H. unfold bucket_means in H. apply in_map_iff in H.
    destruct H as (k' & E & _). injection E as -> <-.
    now rewrite bucket_rows_bucket. }
  pose proof (buckets_of_bound points frame i f W F) as B.
  split; [exact B|].
  intros Hm.
  assert (Q : (duration i frame / f = points - 1)%Z).
  { pose proof (Z.div_mod (duration i frame) (points - 1) ltac:(lia)) as E.
    fold f in E. pose proof (Z.mod_pos_bound (duration i frame) (points - 1) ltac:(lia)).
    rewrite E at 1. rewrite Z.div_add_l by lia.
    rewrite Z.div_small; lia. }
  lia.
Qed.

(** ** The short trips of [create_waypoints] *)

Lemma times_of_filter (q : Route -> bool) (i : nat) (frame : list Route) :
  (forall r, In r frame -> id r = i -> q r = true) ->
  times_of i (filter q frame) = times_of i frame.
Proof.
  unfold times_of. induction frame as [|r t IH]; simpl; intros H; [reflexivity|].
  destruct (Nat.eqb (id r) i) eqn:E.
  - rewrite (H r) by (auto; now apply Nat.eqb_eq). simpl. rewrite E. simpl.
    f_equal. apply IH. intros; apply H; auto.
  - destruct (q r); simpl; [rewrite E|]; apply IH; intros; apply H; auto.
Qed.

Lemma missing_ids_In (waypoint_amount : Z) (interpolated : list Route) (i : nat) :
  In i (missing_ids waypoint_amount interpolated) <->
  (exists r, In r interpolated /\ id r = i) /\
  (Z.of_nat (count_points interpolated i) < waypoint_amount)%Z.
Proof.
  unfold missing_ids. rewrite filter_In, unique_nat_In, in_map_iff, Z.ltb_lt.
  split; intros [(r & A & B) C]; (split; [exists r|]; auto).
Qed.

(** The rows of [port_route_copy] before the cut at thirty minutes: the
    interpolated rows of the trips that have fewer points than the target
    and raw pings in [routes], with the length of the trip. *)
Lemma short_routes_In (waypoint_amount : Z) (routes interpolated : list Route)
  (r : Route) (len : Z) :
  In (r, len) (short_routes waypoint_amount routes interpolated) <->
  In r interpolated /\
  (Z.of_nat (count_points interpolated (id r)) < waypoint_amount)%Z /\
  (exists p, In p routes /\ id p = id r) /\
  len = minutes (id r) routes.
Proof.
  unfold short_routes, merge_length, delta_time, minutes.
  set (missing := missing_ids waypoint_amount interpolated).
  set (mpd := filter (fun r0 => mem_nat (id r0) missing) routes).
  assert (T : forall i, In i missing -> times_of i mpd = times_of i routes).
  { intros i Hi. apply times_of_filter. intros p _ <-. now apply mem_nat_In. }
  rewrite in_flat_map. split.
  - intros (x & Hx & H). apply in_map_iff in H. destruct H as ([i l] & E & H).
    simpl in E. injection E as -> ->. simpl in *. apply filter_In in H. destruct H as [H Ei].
    simpl in Ei. apply Nat.eqb_eq in Ei. subst i.
    apply in_map_iff in H. destruct H as (i & E & Hi). injection E as -> <-.
    apply unique_nat_In, in_map_iff in Hi. destruct Hi as (p & Ep & Hp).
    apply filter_In in Hp. destruct Hp as [Hp Hm]. rewrite Ep in Hm.
    apply mem_nat_In in Hm. pose proof (proj1 (missing_ids_In _ _ _) Hm) as [_ C].
    rewrite (T _ Hm). split; [assumption|]. split; [assumption|].
    split; [exists p; auto|reflexivity].
  - intros (Hr & C & (p & Hp & Ep) & ->).
    assert (Hm : In (id r) missing).
    { apply missing_ids_In. split; [exists r; auto|assumption]. }
    exists r. split; [assumption|]. apply in_map_iff.
    exists (id r, minutes (id r) routes). split; [reflexivity|].
    apply filter_In. split; [|simpl; apply Nat.eqb_refl].
    apply in_map_iff. exists (id r). unfold minutes. rewrite (T _ Hm).
    split; [reflexivity|]. apply unique_nat_In, in_map_iff. exists p.
    split; [assumption|]. apply filter_In. split; [assumption|].
    apply mem_nat_In. now rewrite Ep.
Qed.

(** A smallest length is the length of a short trip, and a short trip has
    fewer resampled points than the target: the target is then not [0]. *)
Lemma smallest_time_target (waypoint_amount : Z) (routes interpolated : list Route) (m : Z) :
  smallest (map snd (at_least_30 (short_routes waypoint_amount routes interpolated))) = Some m ->
  (waypoint_amount =? 0)%Z = false.
Proof.
  intros H.
  destruct (at_least_30 (short_routes waypoint_amount routes interpolated))
    as [|[r len] t] eqn:E; [discriminate|].
  assert (Hr : In (r, len) (at_least_30 (short_routes waypoint_amount routes interpolated))).
  { rewrite E. now left. }
  apply filter_In in Hr. destruct Hr as [Hr _]. apply short_routes_In in Hr.
  apply Z.eqb_neq. lia.
Qed.

(** C4, amended: when [create_waypoints] gets its frame [local], the short
    trips (fewer resampled points than the target, raw pings in [routes])
    under thirty minutes are dropped, the other short trips are resampled at
    one interval, [int(m * 60 / waypoint_amount)] seconds with [m] the
    smallest length in minutes among them (the divisor is the target, not the
    target less one), and the result is put in front of the untouched rows of
    the other trips, among them every trip that has the target number of
    points. *)
Theorem short_trips_resampled (waypoint_amount : Z) (routes interpolated local : list Route) :
  interpolated_local waypoint_amount routes interpolated = Return local ->
  let short := short_routes waypoint_amount routes interpolated in
  let kept := at_least_30 short in
  exists m new_inter,
    (exists r, In (r, m) kept) /\
    (forall r len, In (r, len) kept ->
                   (m <= len)%Z /\ (30 <= len)%Z /\ len = minutes (id r) routes /\
                   (Z.of_nat (count_points interpolated (id r)) < waypoint_amount)%Z) /\
    (forall r len, In (r, len) short -> (len < 30)%Z ->
                   ~ In (r, len) kept /\ forall w, In w local -> id w = id r -> In w new_inter) /\
    resampling_interval waypoint_amount routes interpolated
      = Return (Z.quot (m * 60) waypoint_amount) /\
    interpolate (Z.quot (m * 60) waypoint_amount) (map fst kept) = Return new_inter /\
    local = new_inter
            ++ without_ids (unique Nat.eqb (map (fun rl => id (fst rl)) short)) interpolated /\
    (forall r, In r interpolated ->
               (waypoint_amount <= Z.of_nat (count_points interpolated (id r)))%Z ->
               In r local).
Proof.
  intros H short kept. unfold interpolated_local in H. fold short kept in H.
  unfold resampling_interval. fold short kept.
  assert (Hpos := smallest_time_target waypoint_amount routes interpolated).
  fold short kept in Hpos.
  destruct (map snd kept) as [|x t] eqn:Ek; cbn [smallest new_interval bind] in H |- *.
  { destruct (waypoint_amount =? 0)%Z; cbn [bind] in H; discriminate. }
  rewrite (Hpos _ eq_refl) in H |- *. cbn [bind] in H.
  set (m := minimum (x :: t)) in *.
  destruct (interpolate (Z.quot (m * 60) waypoint_amount) (map fst kept))
    as [new_inter|e] eqn:Ei; cbn [bind] in H; [|discriminate].
  injection H as <-. exists m, new_inter.
  assert (Hm : In m (map snd kept)).
  { rewrite Ek. apply minimum_In. discriminate. }
  split.
  { apply in_map_iff in Hm. destruct Hm as ([r l] & E & Hr). simpl in E. subst l.
    now exists r. }
  split.
  { intros r len Hr. split.
    - unfold m. rewrite <- Ek. apply minimum_le. apply in_map_iff.
      now exists (r, len).
    - unfold kept, at_least_30 in Hr. apply filter_In in Hr. destruct Hr as [Hr L].
      simpl in L. apply Z.leb_le in L. apply short_routes_In in Hr. prop. }
  split.
  { intros r len Hr L. split.
    - unfold kept, at_least_30. rewrite filter_In. simpl. rewrite Z.leb_le. lia.
    - intros w Hw E. apply in_app_or in Hw. destruct Hw as [Hw|Hw]; [assumption|].
      apply without_ids_In in Hw. destruct Hw as [_ Hw]. exfalso. apply Hw.
      apply unique_nat_In, in_map_iff. exists (r, len). split; [now rewrite E|assumption]. }
  split; [reflexivity|]. split; [exact Ei|]. split; [reflexivity|].
  intros r Hr C. apply in_or_app. right. apply without_ids_In. split; [assumption|].
  intros Hi. apply unique_nat_In, in_map_iff in Hi. destruct Hi as ([r' l] & E & Hs).
  apply short_routes_In in Hs. simpl in E. rewrite E in Hs. lia.
Qed.

(** ** The frames of [create_routes] *)

Lemma index_from_In {A : Type} (l : list A) (k i : Z) (a : A) :
  In (i, a) (index_from k l) -> (k <= i < k + Z.of_nat (List.length l))%Z.
Proof.
  revert k. induction l as [|b t IH]; simpl; intros k; [prop|].
  intros [H|H].
  - injection H as <- _. lia.
  - apply IH in H. lia.
Qed.

Lemma index_from_labels {A : Type} (l : list A) (k i : Z) :
  (k <= i < k + Z.of_nat (List.length l))%Z -> exists a, In (i, a) (index_from k l).
Proof.
  revert k. induction l as [|b t IH]; simpl; intros k H; [lia|].
  destruct (Z.eq_dec i k) as [->|N].
  - exists b. now left.
  - destruct (IH (k + 1)%Z) as (a & Ha); [lia|]. exists a. now right.
Qed.

Lemma index_from_sorted {A : Type} (R : A -> A -> Prop) (l : list A) (k : Z) :
  StronglySorted R l ->
  StronglySorted (fun a b => (fst a < fst b)%Z /\ R (snd a) (snd b)) (index_from k l).
Proof.
  revert k. induction l as [|b t IH]; simpl; intros k H; [constructor|].
  inversion H as [|? ? Ht Hb]; subst. constructor; [now apply IH|].
  apply Forall_forall. intros [i a] Hi. simpl. split.
  - apply index_from_In in Hi. lia.
  - rewrite Forall_forall in Hb. apply Hb.
    clear -Hi. revert Hi. generalize (k + 1)%Z. induction t as [|c t IH]; simpl; intros z.
    + prop.
    + intros [H|H]; [injection H as _ <-; now left|right; eauto].
Qed.

(** In a frame with increasing labels the labels tell the order of the
    rows. *)
Lemma sorted_by_label {A : Type} (R : A -> A -> Prop) (l : list (Z * A)) (a b : Z * A) :
  StronglySorted (fun x y => (fst x < fst y)%Z /\ R (snd x) (snd y)) l ->
  In a l -> In b l -> (fst a < fst b)%Z -> R (snd a) (snd b).
Proof.
  induction l as [|c t IH]; simpl; intros S Ha Hb L; [contradiction|].
  inversion S as [|? ? St Hc]; subst. rewrite Forall_forall in Hc.
  destruct Ha as [<-|Ha], Hb as [<-|Hb].
  - lia.
  - now apply Hc.
  - apply Hc in Ha. lia.
  - now apply IH.
Qed.

Lemma sorted_label_unique {A : Type} (R : A -> A -> Prop) (l : list (Z * A)) (a b : Z * A) :
  StronglySorted (fun x y => (fst x < fst y)%Z /\ R (snd x) (snd y)) l ->
  In a l -> In b l -> fst a = fst b -> a = b.
Proof.
  induction l as [|c t IH]; simpl; intros S Ha Hb L; [contradiction|].
  inversion S as [|? ? St Hc]; subst. rewrite Forall_forall in Hc.
  destruct Ha as [<-|Ha], Hb as [<-|Hb].
  - reflexivity.
  - apply Hc in Hb. lia.
  - apply Hc in Ha. lia.
  - now apply IH.
Qed.

(** ** The order of a text column *)

Lemma ascii_compare_trans (a b c : Ascii.ascii) :
  Ascii.compare a b = Lt -> Ascii.compare b c = Lt -> Ascii.compare a c = Lt.
Proof. unfold Ascii.compare. rewrite !N.compare_lt_iff. lia. Qed.

Lemma text_compare_trans (a b c : string) :
  String.compare a b = Lt -> String.compare b c = Lt -> String.compare a c = Lt.
Proof.
  revert b c. induction a as [|x a IH]; intros [|y b] [|z c]; simpl;
    try discriminate; auto.
  destruct (Ascii.compare x y) eqn:Exy; try discriminate.
  - apply Ascii.compare_eq_iff in Exy. subst y.
    destruct (Ascii.compare x z); auto. apply IH.
  - destruct (Ascii.compare y z) eqn:Eyz; try discriminate.
    + apply Ascii.compare_eq_iff in Eyz. subst z. now rewrite Exy.
    + now rewrite (ascii_compare_trans _ _ _ Exy Eyz).
Qed.

Lemma text_compare_refl (a : string) : String.compare a a = Eq.
Proof.
  pose proof (String.compare_antisym a a) as H.
  destruct (String.compare a a); simpl in H; congruence.
Qed.

Lemma text_ltb_lt (a b : string) : String.ltb a b = true <-> String.compare a b = Lt.
Proof. unfold String.ltb. destruct (String.compare a b); split; congruence. Qed.

Lemma text_le_spec (a b : string) : text_le a b <-> String.ltb a b = true \/ a = b.
Proof.
  unfold text_le, String.leb, String.ltb.
  destruct (String.compare a b) eqn:E; split; auto; try discriminate.
  - intros _. right. now apply String.compare_eq_iff.
  - intros [H | ->]; [discriminate|]. rewrite text_compare_refl in E. discriminate.
Qed.

Lemma text_ltb_irrefl (a : string) : String.ltb a a = false.
Proof. unfold String.ltb. now rewrite text_compare_refl. Qed.

Lemma text_ltb_trans (a b c : string) :
  String.ltb a b = true -> String.ltb b c = true -> String.ltb a c = true.
Proof. rewrite !text_ltb_lt. apply text_compare_trans. Qed.

Lemma text_trichotomy (a b : string) :
  String.ltb a b = true \/ a = b \/ String.ltb b a = true.
Proof.
  rewrite !text_ltb_lt. rewrite (String.compare_antisym b a).
  destruct (String.compare a b) eqn:E; simpl; auto.
  right. left. now apply String.compare_eq_iff.
Qed.

Lemma text_ltb_asym (a b : string) :
  String.ltb a b = true -> String.ltb b a = true -> False.
Proof.
  intros H G. pose proof (text_ltb_trans _ _ _ H G) as X.
  rewrite text_ltb_irrefl in X. discriminate.
Qed.

Lemma text_le_refl (a : string) : text_le a a.
Proof. apply text_le_spec. now right. Qed.

Lemma text_le_trans (a b c : string) : text_le a b -> text_le b c -> text_le a c.
Proof.
  rewrite !text_le_spec. intros [H | ->] [G | ->]; auto.
  left. eapply text_ltb_trans; eassumption.
Qed.

Lemma text_le_antisym (a b : string) : text_le a b -> text_le b a -> a = b.
Proof. apply String.leb_antisym. Qed.

(** A value between two equal values is equal to them. *)
Lemma text_le_between (a b c : string) : text_le a b -> text_le b c -> a = c -> b = a.
Proof. intros H G <-. now apply text_le_antisym. Qed.

Lemma ping_leb_spec (p q : Ping) :
  ping_leb p q = true <->
  String.ltb (mmsi p) (mmsi q) = true \/ (mmsi p = mmsi q /\ (time p <= time q)%Z).
Proof.
  unfold ping_leb. now rewrite orb_true_iff, andb_true_iff, String.eqb_eq, Z.leb_le.
Qed.

Lemma ping_leb_total (p q : Ping) : ping_leb p q = true \/ ping_leb q p = true.
Proof.
  rewrite !ping_leb_spec.
  destruct (text_trichotomy (mmsi p) (mmsi q)) as [H|[H|H]]; auto.
  destruct (Z.le_ge_cases (time p) (time q)); auto.
Qed.

Lemma ping_leb_trans (p q r : Ping) :
  ping_leb p q = true -> ping_leb q r = true -> ping_leb p r = true.
Proof.
  rewrite !ping_leb_spec. intros [H | [E T]] [G | [F U]].
  - left. eapply text_ltb_trans; eassumption.
  - left. now rewrite <- F.
  - left. now rewrite E.
  - right. split; [congruence|lia].
Qed.

Lemma ping_leb_mmsi (p q : Ping) : ping_leb p q = true -> text_le (mmsi p) (mmsi q).
Proof. rewrite ping_leb_spec, text_le_spec. intros [H | [E _]]; auto. Qed.

Lemma StronglySorted_impl {A : Type} (R S : A -> A -> Prop) (l : list A) :
  (forall a b, R a b -> S a b) -> StronglySorted R l -> StronglySorted S l.
Proof.
  intros H. induction 1; constructor; [assumption|].
  eapply Forall_impl; [|eassumption]. intros; now apply H.
Qed.

Lemma StronglySorted_filter {A : Type} (R : A -> A -> Prop) (p : A -> bool) (l : list A) :
  StronglySorted R l -> StronglySorted R (filter p l).
Proof.
  induction 1 as [|a l S IH F]; simpl; [constructor|].
  destruct (p a); [|assumption]. constructor; [assumption|].
  rewrite Forall_forall in *. intros x Hx. apply filter_In in Hx. now apply F.
Qed.

Lemma ships_sorted (ais_data : list Ping) :
  StronglySorted (fun a b => (fst a < fst b)%Z /\ text_le (mmsi (snd a)) (mmsi (snd b)))
                 (ships ais_data).
Proof.
  unfold ships, reset_index.
  pose proof (sort_by_Sorted Ping ping_leb ping_leb_total ping_leb_trans ais_data) as S.
  apply (StronglySorted_impl _ (fun p q => text_le (mmsi p) (mmsi q))) in S.
  - exact (index_from_sorted (fun p q => text_le (mmsi p) (mmsi q)) _ 0%Z S).
  - intros a b. apply ping_leb_mmsi.
Qed.

Lemma run_labels_length {A : Type} (brk : A -> A -> bool) (prev : option A) (acc : nat)
  (l : list A) : List.length (run_labels brk prev acc l) = List.length l.
Proof.
  revert prev acc. induction l as [|a t IH]; simpl; intros; [reflexivity|].
  now rewrite IH.
Qed.

Lemma combine_In_r {A B : Type} (l1 : list A) (l2 : list B) (b : B) :
  List.length l1 = List.length l2 -> In b l2 -> exists a, In (a, b) (combine l1 l2).
Proof.
  revert l2. induction l1 as [|x t IH]; intros [|y u]; simpl; intros L H;
    try discriminate; try contradiction.
  destruct H as [<-|H].
  - exists x. now left.
  - destruct (IH u) as (a & Ha); [lia|assumption|]. exists a. now right.
Qed.

Lemma key_eqb_eq (a b : Key) : key_eqb a b = true <-> a = b.
Proof.
  unfold key_eqb. rewrite andb_true_iff, String.eqb_eq, Nat.eqb_eq.
  destruct a, b; simpl. split; [intros []; congruence|intros [=]; auto].
Qed.

Lemma StronglySorted_strengthen {A : Type} (R : A -> A -> Prop) (l : list A) :
  StronglySorted R l -> NoDup l ->
  StronglySorted (fun a b => R a b /\ a <> b /\ In a l /\ In b l) l.
Proof.
  induction 1 as [|x t S IH F]; intros N; [constructor|].
  inversion N as [|? ? Nx Nt]; subst. constructor.
  - apply (StronglySorted_impl (fun a b => R a b /\ a <> b /\ In a t /\ In b t)).
    + intros a b (H1 & H2 & H3 & H4). simpl. prop.
    + now apply IH.
  - rewrite Forall_forall in *. intros b Hb. repeat split.
    + now apply F.
    + intros ->. contradiction.
    + now left.
    + now right.
Qed.

Lemma index_leb_total (a b : Z * Ping) : index_leb a b = true \/ index_leb b a = true.
Proof. unfold index_leb. rewrite !Z.leb_le. lia. Qed.

Lemma index_leb_trans (a b c : Z * Ping) :
  index_leb a b = true -> index_leb b c = true -> index_leb a c = true.
Proof. unfold index_leb. rewrite !Z.leb_le. lia. Qed.

Section RoutesFacts.

Variables (ais_data : list Ping) (ports : list Port) (speed_limit : float).

Local Abbreviation ships' := (ships ais_data).
Local Abbreviation in_port' := (in_port ais_data ports).
Local Abbreviation constraint' := (constraint ais_data ports).
Local Abbreviation idx' := (time_out_port_idx ais_data ports speed_limit).
Local Abbreviation routes_index' := (routes_index ais_data ports speed_limit).
Local Abbreviation moving' := (moving ais_data ports speed_limit).

Lemma ships_NoDup : NoDup ships'.
Proof.
  pose proof (ships_sorted ais_data) as S.
  induction S as [|a l S IH F]; constructor; [|assumption].
  intros H. rewrite Forall_forall in F. apply F in H. lia.
Qed.

(** A row of [in_port] is a ping that some port polygon contains. *)
Lemma in_port_ships (r : InPort) :
  In r in_port' -> In (ip_index r, ip_ping r) ships' /\ constraint' (ip_index r) = true.
Proof.
  unfold in_port, ships_in_port. intros H. apply in_flat_map in H.
  destruct H as ([i p] & Hs & H). simpl in H.
  destruct (inside_any (exploded_masks ais_data ports) i) eqn:C; [|contradiction].
  apply in_map_iff in H. destruct H as (e & <- & _). simpl. auto.
Qed.

(** Every ping that some port polygon contains has a row in [in_port]. *)
Lemma ships_in_port_row (row : Z * Ping) :
  In row ships' -> constraint' (fst row) = true ->
  exists r, In r in_port' /\ ip_index r = fst row /\ ip_ping r = snd row.
Proof.
  intros Hs C. unfold constraint, inside_any in C.
  apply existsb_exists in C. destruct C as ([o j] & He & Ho). simpl in Ho.
  apply opt_eqb_eq in Ho. subst o.
  assert (Hp : exists p, row_at ports j = Some p).
  { unfold exploded_masks in He. apply drop_duplicates_incl, explode_In in He.
    destruct He as (idxs & Hm & _). unfold masks, mask_from_polygons, reset_index in Hm.
    apply in_map_iff in Hm. destruct Hm as ([j' poly] & E & Hj). injection E as _ ->.
    apply index_from_In in Hj. rewrite length_map in Hj. unfold row_at.
    destruct (j <? 0)%Z eqn:N; [apply Z.ltb_lt in N; lia|].
    destruct (nth_error ports (Z.to_nat j)) eqn:E; [eauto|].
    apply nth_error_None in E. lia. }
  destruct Hp as (p & Hp).
  exists (mkInPort (fst row) (snd row) p). split; [|auto].
  unfold in_port, ships_in_port. apply in_flat_map. exists row. split; [assumption|].
  replace (inside_any (exploded_masks ais_data ports) (fst row)) with true.
  - apply in_map_iff. exists (Some (fst row), p). split; [reflexivity|].
    apply filter_In. split; [|simpl; apply Z.eqb_refl].
    unfold locode_in_polygon, merge_ports. apply in_flat_map.
    exists (Some (fst row), j). split; [assumption|]. simpl. rewrite Hp. now left.
  - symmetry. unfold inside_any. apply existsb_exists.
    exists (Some (fst row), j). split; [assumption|]. simpl. apply Z.eqb_refl.
Qed.

Lemma dwell_keys_length : List.length (dwell_keys ais_data ports) = List.length in_port'.
Proof.
  unfold dwell_keys, cumsum_breaks, Key.
  rewrite length_combine, length_map, run_labels_length. lia.
Qed.

(** The rows of a stay are rows of [in_port]. *)
Lemma times_index (d : Dwell) (l : Z) :
  In d (times ais_data ports) -> In l (index_list d) ->
  exists r, In r in_port' /\ ip_index r = l.
Proof.
  unfold times, dwell_groups. intros Hd Hl. apply in_map_iff in Hd.
  destruct Hd as (k & <- & _). simpl in Hl. apply in_map_iff in Hl.
  destruct Hl as (r & <- & Hr). exists r. split; [|reflexivity].
  unfold group_rows in Hr. apply in_map_iff in Hr. destruct Hr as ([k' r'] & <- & H).
  apply filter_In in H. destruct H as [H _]. now apply in_combine_r in H.
Qed.

(** Every row of [in_port] belongs to a stay. *)
Lemma in_port_times (r : InPort) :
  In r in_port' -> exists d, In d (times ais_data ports) /\ In (ip_index r) (index_list d).
Proof.
  intros Hr.
  destruct (combine_In_r (dwell_keys ais_data ports) in_port' r dwell_keys_length Hr)
    as (k & Hk).
  exists (agg_dwell (group_rows (dwell_keys ais_data ports) in_port' k)). split.
  - unfold times, dwell_groups. apply in_map_iff. exists k. split; [reflexivity|].
    apply sort_by_In, (unique_In _ _ key_eqb_eq). now apply in_combine_l in Hk.
  - simpl. apply in_map_iff. exists r. split; [reflexivity|].
    unfold group_rows. apply in_map_iff. exists (k, r). split; [reflexivity|].
    apply filter_In. split; [assumption|]. simpl. now apply key_eqb_eq.
Qed.

(** The labels of the pings that pass through a port belong to [in_port]. *)
Lemma time_out_port_idx_in_port (l : Z) :
  In l idx' -> exists r, In r in_port' /\ ip_index r = l.
Proof.
  unfold time_out_port_idx, time_out_port. intros H. apply in_flat_map in H.
  destruct H as (d & Hd & Hl). apply filter_In in Hd. destruct Hd as [Hd _].
  eapply times_index; eassumption.
Qed.

Lemma routes_index_In (row : Z * Ping) :
  In row routes_index' <-> In row ships' /\ moving' (fst row) = true.
Proof.
  unfold routes_index, out_port, ships_out_port, time_out_port_values, moving.
  rewrite sort_by_In, in_app_iff, !filter_In, orb_true_iff.
  unfold constraint. prop.
Qed.

Lemma routes_index_NoDup : NoDup routes_index'.
Proof.
  eapply Permutation_NoDup; [apply Permutation_sym, sort_by_Permutation|].
  apply NoDup_app.
  - apply NoDup_filter, ships_NoDup.
  - apply NoDup_filter, ships_NoDup.
  - intros row Ho Ht. unfold out_port, ships_out_port in Ho.
    unfold time_out_port_values in Ht. apply filter_In in Ho, Ht.
    destruct Ho as [_ Ho], Ht as [_ Ht]. apply memZ_In in Ht.
    apply time_out_port_idx_in_port in Ht. destruct Ht as (r & Hr & E).
    apply in_port_ships in Hr. destruct Hr as [_ C]. rewrite E in C.
    unfold constraint in C. rewrite C in Ho. discriminate.
Qed.

(** [routes], before the ids: the labels go up, and so does the MMSI. *)
Lemma routes_index_sorted :
  StronglySorted (fun a b => (fst a < fst b)%Z /\ text_le (mmsi (snd a)) (mmsi (snd b)))
                 routes_index'.
Proof.
  pose proof (sort_by_Sorted _ _ index_leb_total index_leb_trans
                (out_port ais_data ports ++ time_out_port_values ais_data ports speed_limit))
    as S.
  fold routes_index' in S.
  apply StronglySorted_strengthen in S; [|apply routes_index_NoDup].
  revert S. apply StronglySorted_impl. intros a b (L & N & Ha & Hb).
  apply routes_index_In in Ha, Hb. destruct Ha as [Ha _], Hb as [Hb _].
  unfold index_leb in L. apply Z.leb_le in L.
  assert (fst a < fst b)%Z.
  { destruct (Z.eq_dec (fst a) (fst b)) as [E|E]; [|lia].
    exfalso. apply N.
    apply (sorted_label_unique (fun p q => text_le (mmsi p) (mmsi q)) ships');
      auto using ships_sorted. }
  split; [assumption|].
  apply (sorted_by_label (fun p q => text_le (mmsi p) (mmsi q)) ships' a b);
    auto using ships_sorted.
Qed.

End RoutesFacts.

(** ** Run numbers and group numbers *)

Lemma run_labels_ge {A : Type} (brk : A -> A -> bool) (prev : option A) (acc : nat)
  (l : list A) : Forall (fun c => acc <= c)%nat (run_labels brk prev acc l).
Proof.
  revert prev acc. induction l as [|a t IH]; simpl; intros; constructor.
  - destruct prev as [p|]; [destruct (brk p a)|]; lia.
  - eapply Forall_impl; [|apply IH]. simpl. intros c.
    destruct prev as [p|]; [destruct (brk p a)|]; lia.
Qed.

(** The run numbers go up with the rows. *)
Lemma run_labels_sorted {A : Type} (R : A -> A -> Prop) (brk : A -> A -> bool)
  (prev : option A) (acc : nat) (l : list A) :
  StronglySorted R l ->
  StronglySorted (fun x y => (fst x <= fst y)%nat /\ R (snd x) (snd y))
                 (combine (run_labels brk prev acc l) l).
Proof.
  intros HS. revert prev acc. induction HS as [|a t HS IH F]; simpl; intros; constructor.
  - apply IH.
  - apply Forall_forall. intros [c b] H. simpl.
    pose proof (in_combine_l _ _ _ _ H) as Hc. pose proof (in_combine_r _ _ _ _ H) as Hb.
    rewrite Forall_forall in F. split; [|now apply F].
    pose proof (run_labels_ge brk (Some a)
                  match prev with
                  | Some p => if brk p a then S acc else acc
                  | None => S acc
                  end t) as G.
    rewrite Forall_forall in G. now apply G.
Qed.

(** Two neighbouring rows are in one run unless [brk] holds between them. *)
Lemma run_labels_adjacent {A : Type} (brk : A -> A -> bool) (prev : option A) (acc : nat)
  (l : list A) (z1 z2 : list (nat * A)) (x y : nat * A) :
  combine (run_labels brk prev acc l) l = z1 ++ x :: y :: z2 ->
  fst y = if brk (snd x) (snd y) then S (fst x) else fst x.
Proof.
  revert prev acc z1. induction l as [|a t IH]; simpl; intros prev acc z1 H.
  - destruct z1; discriminate.
  - destruct z1 as [|z z1]; simpl in H.
    + injection H as <- H. destruct t as [|b t]; simpl in H; [discriminate|].
      injection H as <- _. reflexivity.
    + injection H as _ H. eapply IH. eassumption.
Qed.

Lemma combine_keys {A K : Type} (f : A -> K) (cs : list nat) (l : list A) :
  combine (combine (map f l) cs) l
  = map (fun cr => ((f (snd cr), fst cr), snd cr)) (combine cs l).
Proof.
  revert cs. induction l as [|a t IH]; intros [|c cs]; simpl; try reflexivity.
  now rewrite IH.
Qed.

Lemma combine_keys_fst {A K : Type} (f : A -> K) (cs : list nat) (l : list A) :
  List.length cs = List.length l ->
  combine (map f l) cs = map (fun cr => (f (snd cr), fst cr)) (combine cs l).
Proof.
  revert cs. induction l as [|a t IH]; intros [|c cs]; simpl; intros H;
    try reflexivity; try discriminate.
  rewrite IH by lia. reflexivity.
Qed.

Lemma key_ltb_spec (a b : Key) :
  key_ltb a b = true <->
  String.ltb (fst a) (fst b) = true \/ (fst a = fst b /\ (snd a < snd b)%nat).
Proof.
  unfold key_ltb. now rewrite orb_true_iff, andb_true_iff, String.eqb_eq, Nat.ltb_lt.
Qed.

Lemma key_ltb_trans (a b c : Key) :
  key_ltb a b = true -> key_ltb b c = true -> key_ltb a c = true.
Proof.
  rewrite !key_ltb_spec. intros [H | [E T]] [G | [F U]].
  - left. eapply text_ltb_trans; eassumption.
  - left. now rewrite <- F.
  - left. now rewrite E.
  - right. split; [congruence|lia].
Qed.

Lemma key_ltb_irrefl (a : Key) : key_ltb a a = false.
Proof.
  unfold key_ltb. rewrite text_ltb_irrefl, Nat.ltb_irrefl, andb_false_r. reflexivity.
Qed.

Lemma key_trichotomy (a b : Key) : key_ltb a b = true \/ a = b \/ key_ltb b a = true.
Proof.
  rewrite !key_ltb_spec. destruct a as [a1 a2], b as [b1 b2]. simpl.
  destruct (text_trichotomy a1 b1) as [H|[H|H]]; auto.
  destruct (Nat.lt_trichotomy a2 b2) as [G|[G|G]]; auto.
  right. left. congruence.
Qed.

Lemma filter_length_le {A : Type} (p q : A -> bool) (l : list A) :
  (forall x, In x l -> p x = true -> q x = true) ->
  (List.length (filter p l) <= List.length (filter q l))%nat.
Proof.
  induction l as [|a t IH]; simpl; intros H; [lia|].
  assert (IH' : (List.length (filter p t) <= List.length (filter q t))%nat).
  { apply IH. intros; apply H; auto. }
  destruct (p a) eqn:P.
  - rewrite (H a) by auto. simpl. lia.
  - destruct (q a); simpl; lia.
Qed.

Lemma filter_length_lt {A : Type} (p q : A -> bool) (l : list A) (a : A) :
  (forall x, In x l -> p x = true -> q x = true) ->
  In a l -> p a = false -> q a = true ->
  (List.length (filter p l) < List.length (filter q l))%nat.
Proof.
  induction l as [|b t IH]; simpl; intros H Ha P Q; [contradiction|].
  assert (Le : (List.length (filter p t) <= List.length (filter q t))%nat).
  { apply filter_length_le. intros; apply H; auto. }
  destruct Ha as [->|Ha].
  - rewrite P, Q. simpl. lia.
  - assert (Lt : (List.length (filter p t) < List.length (filter q t))%nat).
    { apply IH; auto. }
    destruct (p b) eqn:Pb.
    + rewrite (H b) by auto. simpl. lia.
    + destruct (q b); simpl; lia.
Qed.

(** The group number follows the order of the keys. *)
Lemma rank_lt (keys : list Key) (a b : Key) :
  In a keys -> key_ltb a b = true ->
  (rank (unique key_eqb keys) a < rank (unique key_eqb keys) b)%nat.
Proof.
  intros Ha L. unfold rank. apply filter_length_lt with (a := a).
  - intros x _ Hx. eapply key_ltb_trans; eassumption.
  - now apply (unique_In _ _ key_eqb_eq).
  - apply key_ltb_irrefl.
  - assumption.
Qed.

Lemma rank_inj (keys : list Key) (a b : Key) :
  In a keys -> In b keys ->
  rank (unique key_eqb keys) a = rank (unique key_eqb keys) b -> a = b.
Proof.
  intros Ha Hb E. destruct (key_trichotomy a b) as [L|[L|L]]; [|assumption|].
  - pose proof (rank_lt keys a b Ha L). lia.
  - pose proof (rank_lt keys b a Hb L). lia.
Qed.

Lemma rank_le (keys : list Key) (a b : Key) :
  In a keys -> key_ltb a b = true \/ a = b ->
  (rank (unique key_eqb keys) a <= rank (unique key_eqb keys) b)%nat.
Proof.
  intros Ha [L | ->]; [|lia]. pose proof (rank_lt keys a b Ha L). lia.
Qed.

Lemma StronglySorted_In {A : Type} (R : A -> A -> Prop) (l : list A) :
  StronglySorted R l -> StronglySorted (fun a b => R a b /\ In a l /\ In b l) l.
Proof.
  induction 1 as [|x t HS IH F]; [constructor|]. constructor.
  - apply (StronglySorted_impl (fun a b => R a b /\ In a t /\ In b t)).
    + intros a b (H1 & H2 & H3). simpl. prop.
    + assumption.
  - rewrite Forall_forall in *. intros b Hb. repeat split.
    + now apply F.
    + now left.
    + now right.
Qed.

Lemma StronglySorted_map {A B : Type} (R : B -> B -> Prop) (f : A -> B) (l : list A) :
  StronglySorted (fun x y => R (f x) (f y)) l -> StronglySorted R (map f l).
Proof.
  induction 1 as [|x t HS IH F]; simpl; constructor; [assumption|].
  rewrite Forall_forall in *. intros b Hb. apply in_map_iff in Hb.
  destruct Hb as (a & <- & Ha). now apply F.
Qed.

Lemma StronglySorted_before {A : Type} (R : A -> A -> Prop) (l1 l2 : list A) (a : A) :
  StronglySorted R (l1 ++ a :: l2) -> forall b, In b l1 -> R b a.
Proof.
  induction l1 as [|x t IH]; simpl; intros H b Hb; [contradiction|].
  inversion H as [|? ? Ht Hx]; subst. destruct Hb as [<-|Hb].
  - rewrite Forall_forall in Hx. apply Hx. apply in_or_app. right. now left.
  - now apply IH.
Qed.

(** Two rows of a frame whose labels go up, the one with the smaller label
    first, and what lies between them. *)
Lemma sorted_between {A : Type} (lab : A -> Z) (l : list A) (a b : A) :
  StronglySorted (fun x y => (lab x < lab y)%Z) l ->
  In a l -> In b l -> (lab a < lab b)%Z ->
  exists l1 l2 l3, l = l1 ++ a :: l2 ++ b :: l3 /\
                   forall c, In c l2 -> (lab a < lab c < lab b)%Z.
Proof.
  intros S Ha Hb L. apply in_split in Ha. destruct Ha as (l1 & r & ->).
  apply in_app_or in Hb. destruct Hb as [Hb|[Hb|Hb]].
  - pose proof (StronglySorted_before _ _ _ _ S b Hb) as H. simpl in H. lia.
  - subst. lia.
  - apply in_split in Hb. destruct Hb as (l2 & l3 & ->).
    exists l1, l2, l3. split; [reflexivity|]. intros c Hc. split.
    + apply (StronglySorted_split (fun x y => (lab x < lab y)%Z) _ _ _ S).
      apply in_or_app. now left.
    + assert (S' : StronglySorted (fun x y => (lab x < lab y)%Z) (l2 ++ b :: l3)).
      { clear -S. induction l1; simpl in S.
        - now inversion S.
        - inversion S; auto. }
      apply (StronglySorted_before (fun x y => (lab x < lab y)%Z) _ _ _ S' c Hc).
Qed.

Lemma of_id_filter (q : Track -> bool) (t : Track) (l : list Track) :
  (forall a, t_id a = t_id t -> q a = true) ->
  of_id (t_id t) (filter q l) = of_id (t_id t) l.
Proof.
  intros H. unfold of_id. induction l as [|a l IH]; simpl; [reflexivity|].
  destruct (Nat.eqb (t_id a) (t_id t)) eqn:E.
  - rewrite (H a) by now apply Nat.eqb_eq. simpl. rewrite E. now f_equal.
  - destruct (q a); simpl; [rewrite E|]; assumption.
Qed.

Lemma last_cons {A : Type} (g : list A) (a x : A) : last (a :: g) x = last g a.
Proof.
  revert a x. induction g as [|b g IH]; intros a x; [reflexivity|].
  change (last (b :: g) x = last (b :: g) a). now rewrite (IH b x), (IH b a).
Qed.

Lemma last_In {A : Type} (g : list A) (x : A) : In (last g x) (x :: g).
Proof.
  revert x. induction g as [|a g IH]; intros x; [now left|].
  rewrite last_cons. right. apply IH.
Qed.

(** In a sorted frame every row lies between the first and the last. *)
Lemma sorted_head_last {A : Type} (R : A -> A -> Prop) (x : A) (g : list A) :
  StronglySorted R (x :: g) ->
  forall y, In y (x :: g) -> (y = x \/ R x y) /\ (y = last g x \/ R y (last g x)).
Proof.
  revert x. induction g as [|a g IH]; intros x S y Hy.
  - destruct Hy as [<-|[]]. simpl. auto.
  - inversion S as [|? ? Sg Fx]; subst. rewrite Forall_forall in Fx.
    rewrite last_cons. destruct Hy as [<-|Hy].
    + split; [now left|]. right. apply Fx, last_In.
    + split; [right; now apply Fx|]. now destruct (IH a Sg y Hy).
Qed.

Section Voyages.

Variables (ais_data : list Ping) (ports : list Port) (speed_limit : float).

Local Abbreviation ships' := (ships ais_data).
Local Abbreviation in_port' := (in_port ais_data ports).
Local Abbreviation rows := (routes_index ais_data ports speed_limit).
Local Abbreviation keys := (route_keys ais_data ports speed_limit).
Local Abbreviation rs := (routes ais_data ports speed_limit).
Local Abbreviation rpc := (route_port_counted ais_data ports speed_limit).
Local Abbreviation rp := (route_port ais_data ports speed_limit).
Local Abbreviation tagged' := (tagged ais_data ports speed_limit).
Local Abbreviation track_of' := (track_of ais_data ports speed_limit).

Lemma route_keys_tagged : keys = map key_of tagged'.
Proof.
  unfold route_keys, tagged.
  apply (combine_keys_fst (fun r : Z * Ping => mmsi (snd r))).
  unfold cumsum_breaks. apply run_labels_length.
Qed.

Lemma routes_tagged : rs = map track_of' tagged'.
Proof.
  unfold routes, with_ids. unfold route_keys at 2.
  rewrite (combine_keys (fun r : Z * Ping => mmsi (snd r))), map_map. reflexivity.
Qed.

Lemma tagged_sorted :
  StronglySorted
    (fun x y => (fst x <= fst y)%nat /\ (fst (snd x) < fst (snd y))%Z
                /\ text_le (mmsi (snd (snd x))) (mmsi (snd (snd y))))
    tagged'.
Proof.
  unfold tagged, cumsum_breaks.
  apply (run_labels_sorted
           (fun a b : Z * Ping => (fst a < fst b)%Z /\ text_le (mmsi (snd a)) (mmsi (snd b)))).
  apply routes_index_sorted.
Qed.

Lemma tagged_key_In (x : nat * (Z * Ping)) : In x tagged' -> In (key_of x) keys.
Proof. intros H. rewrite route_keys_tagged. now apply in_map. Qed.

(** Two rows have one id exactly when they are of one ship and one run. *)
Lemma same_id (x y : nat * (Z * Ping)) :
  In x tagged' -> In y tagged' ->
  (t_id (track_of' x) = t_id (track_of' y) <-> key_of x = key_of y).
Proof.
  intros Hx Hy. simpl. split.
  - apply rank_inj; now apply tagged_key_In.
  - now intros ->.
Qed.

(** In [routes] the labels go up, and with them the MMSI and the ids. *)
Lemma routes_sorted :
  StronglySorted
    (fun a b => (t_index a < t_index b)%Z /\ text_le (mmsi (t_ping a)) (mmsi (t_ping b))
                /\ (t_id a <= t_id b)%nat)
    rs.
Proof.
  rewrite routes_tagged. apply StronglySorted_map.
  pose proof (StronglySorted_In _ _ tagged_sorted) as S.
  revert S. apply StronglySorted_impl. intros x y ((C & L & M) & Hx & Hy). simpl.
  split; [assumption|]. split; [assumption|].
  apply rank_le; [now apply tagged_key_In|].
  rewrite key_ltb_spec. unfold key_of. simpl.
  apply text_le_spec in M. destruct M as [M|E]; [auto|].
  destruct (Nat.eq_dec (fst x) (fst y)) as [E'|E'].
  - right. now rewrite E, E'.
  - left. right. split; [assumption|lia].
Qed.

Lemma routes_label_sorted : StronglySorted (fun a b => (t_index a < t_index b)%Z) rs.
Proof.
  generalize routes_sorted. apply StronglySorted_impl. prop.
Qed.

(** One id, one ship. *)
Lemma same_id_same_ship (a b : Track) :
  In a rs -> In b rs -> t_id a = t_id b -> mmsi (t_ping a) = mmsi (t_ping b).
Proof.
  rewrite routes_tagged, !in_map_iff. intros (x & <- & Hx) (y & <- & Hy) E.
  apply same_id in E; auto. unfold key_of in E. simpl. congruence.
Qed.

Lemma rpc_In (t : Track) : In t rpc <-> In t rs /\ (10 <= count_id rs (t_id t))%nat.
Proof.
  unfold route_port_counted, at_least. rewrite filter_In, Nat.leb_le. prop.
Qed.

Lemma rp_In (t : Track) :
  In t rp <-> In t rpc /\ ~ In (t_id t) (remove_idx ais_data ports speed_limit).
Proof.
  unfold route_port, drop_ids. rewrite filter_In, negb_true_iff, <- mem_nat_In.
  destruct (mem_nat _ _); prop_cong.
Qed.

(** A voyage is kept or dropped as a whole. *)
Lemma of_id_route_port (t : Track) : In t rp -> of_id (t_id t) rp = of_id (t_id t) rs.
Proof.
  intros H. apply rp_In in H. destruct H as [Hc Hr]. apply rpc_In in Hc.
  destruct Hc as [_ Hc].
  unfold route_port, drop_ids, route_port_counted, at_least.
  rewrite of_id_filter, of_id_filter; [reflexivity| |].
  - intros a ->. now apply Nat.leb_le.
  - intros a ->. apply negb_true_iff. rewrite <- mem_nat_In in Hr.
    now destruct (mem_nat _ _).
Qed.

End Voyages.

Section Attribution.

Variables (ais_data : list Ping) (ports : list Port) (speed_limit : float).

Local Abbreviation ships' := (ships ais_data).
Local Abbreviation in_port' := (in_port ais_data ports).
Local Abbreviation rows := (routes_index ais_data ports speed_limit).
Local Abbreviation rs := (routes ais_data ports speed_limit).
Local Abbreviation rpc := (route_port_counted ais_data ports speed_limit).
Local Abbreviation rp := (route_port ais_data ports speed_limit).
Local Abbreviation tagged' := (tagged ais_data ports speed_limit).
Local Abbreviation track_of' := (track_of ais_data ports speed_limit).
Local Abbreviation moving' := (moving ais_data ports speed_limit).

Lemma routes_rows (a : Track) :
  In a rs -> exists x, In x tagged' /\ track_of' x = a /\ snd x = (t_index a, t_ping a).
Proof.
  rewrite routes_tagged, in_map_iff. intros (x & <- & Hx). exists x.
  split; [assumption|]. split; [reflexivity|]. simpl. now destruct (snd x).
Qed.

Lemma routes_ships (a : Track) :
  In a rs -> In (t_index a, t_ping a) ships' /\ moving' (t_index a) = true.
Proof.
  intros H. apply routes_rows in H. destruct H as (x & Hx & _ & E).
  unfold tagged in Hx. destruct x as [c row]. apply in_combine_r in Hx.
  simpl in E. subst row. now apply routes_index_In in Hx.
Qed.

Lemma moving_tagged (l : Z) (p : Ping) :
  In (l, p) ships' -> moving' l = true -> exists c, In (c, (l, p)) tagged'.
Proof.
  intros Hs Hm. apply combine_In_r.
  - unfold cumsum_breaks. apply run_labels_length.
  - apply routes_index_In. auto.
Qed.

Lemma tagged_label_sorted :
  StronglySorted (fun x y => (fst (snd x) < fst (snd y))%Z) tagged'.
Proof.
  generalize (tagged_sorted ais_data ports speed_limit). apply StronglySorted_impl. prop.
Qed.

(** Two pings of one ship that follow each other in [ships] and are both
    part of a route have one id. *)
Lemma neighbours_same_id (x y : nat * (Z * Ping)) :
  In x tagged' -> In y tagged' ->
  fst (snd y) = (fst (snd x) + 1)%Z ->
  mmsi (snd (snd x)) = mmsi (snd (snd y)) ->
  t_id (track_of' x) = t_id (track_of' y).
Proof.
  intros Hx Hy L M.
  destruct (sorted_between (fun z : nat * (Z * Ping) => fst (snd z)) tagged' x y)
    as (l1 & l2 & l3 & E & B); auto using tagged_label_sorted; [lia|].
  destruct l2 as [|c l2]; [|specialize (B c (or_introl eq_refl)); lia].
  simpl in E. unfold tagged, cumsum_breaks in E.
  apply run_labels_adjacent in E. unfold index_gap in E.
  rewrite L, Z.eqb_refl in E. simpl in E.
  apply same_id; auto. unfold key_of. congruence.
Qed.

Lemma of_ship_sorted (m : string) :
  StronglySorted (fun a b => (t_index a < t_index b)%Z) (of_ship m rpc).
Proof.
  unfold of_ship, route_port_counted, at_least.
  apply StronglySorted_filter, StronglySorted_filter, routes_label_sorted.
Qed.

Lemma of_id_sorted (v : nat) :
  StronglySorted (fun a b => (t_index a < t_index b)%Z) (of_id v rs).
Proof. unfold of_id. apply StronglySorted_filter, routes_label_sorted. Qed.

Lemma of_ship_In (m : string) (a : Track) :
  In a (of_ship m rpc) <-> In a rpc /\ mmsi (t_ping a) = m.
Proof. unfold of_ship. now rewrite filter_In, String.eqb_eq. Qed.

Lemma of_id_In (v : nat) (l : list Track) (a : Track) :
  In a (of_id v l) <-> In a l /\ t_id a = v.
Proof. unfold of_id. now rewrite filter_In, Nat.eqb_eq. Qed.

(** The first and the last trip of a ship are in [remove_idx]. *)
Lemma remove_idx_first_last (m : string) (r : Track) (g : list Track) :
  of_ship m rpc = r :: g ->
  In (t_id r) (remove_idx ais_data ports speed_limit) /\
  In (t_id (last g r)) (remove_idx ais_data ports speed_limit).
Proof.
  intros E. assert (Hr : In r (of_ship m rpc)) by (rewrite E; now left).
  apply of_ship_In in Hr. destruct Hr as [Hr Hm].
  assert (H : In m (unique String.eqb (map (fun r => mmsi (t_ping r)) rpc))).
  { apply (unique_In _ _ String.eqb_eq), in_map_iff. now exists r. }
  unfold remove_idx, first_last_ids.
  split; apply in_flat_map; exists m; (split; [assumption|]); rewrite E; simpl; auto.
Qed.

Lemma remove_idx_inv (i : nat) :
  In i (remove_idx ais_data ports speed_limit) ->
  exists m r g, of_ship m rpc = r :: g /\ (i = t_id r \/ i = t_id (last g r)).
Proof.
  unfold remove_idx, first_last_ids. intros H. apply in_flat_map in H.
  destruct H as (m & _ & H). destruct (of_ship m rpc) as [|r g] eqn:E; [contradiction|].
  exists m, r, g. split; [exact E|]. simpl in H. prop_split.
Qed.

Section OneVoyage.

Variables (t x : Track) (g : list Track).
Hypothesis kept : In t rp.
Hypothesis voyage : of_id (t_id t) rs = x :: g.

Lemma voyage_rows (a : Track) :
  In a (x :: g) ->
  In a rs /\ In a rpc /\ t_id a = t_id t /\ mmsi (t_ping a) = mmsi (t_ping t).
Proof using kept voyage.
  intros H. rewrite <- voyage in H. apply of_id_In in H. destruct H as [Ha Hi].
  apply rp_In in kept. destruct kept as [Hc _]. apply rpc_In in Hc.
  destruct Hc as [Ht Hc]. split; [assumption|]. split.
  - apply rpc_In. rewrite Hi. auto.
  - split; [assumption|].
    now apply (same_id_same_ship ais_data ports speed_limit).
Qed.

Lemma voyage_labels (a : Track) :
  In a rs -> t_id a = t_id t -> (t_index x <= t_index a <= t_index (last g x))%Z.
Proof using voyage.
  intros Ha Hi.
  assert (H : In a (x :: g)) by (rewrite <- voyage; now apply of_id_In).
  pose proof (of_id_sorted (t_id t)) as S. rewrite voyage in S.
  destruct (sorted_head_last _ x g S a H) as [H1 H2]. simpl in H1, H2. split.
  - destruct H1 as [E1|H1]; [rewrite E1|]; lia.
  - destruct H2 as [E2|H2]; [rewrite <- E2|]; lia.
Qed.

(** The ping just before the voyage is a ping of the same ship that is in
    no route. *)
Lemma ping_before :
  exists p, In (t_index x - 1, p)%Z ships' /\ mmsi p = mmsi (t_ping t)
            /\ moving' (t_index x - 1)%Z = false.
Proof using kept voyage.
  destruct (voyage_rows x (or_introl eq_refl)) as (Hx & Hxc & Hxi & Hxm).
  destruct (of_ship (mmsi (t_ping t)) rpc) as [|r g'] eqn:E.
  { assert (H : In x (of_ship (mmsi (t_ping t)) rpc)) by now apply of_ship_In.
    rewrite E in H. contradiction. }
  destruct (remove_idx_first_last _ _ _ E) as [Hr _].
  assert (Hro : In r (of_ship (mmsi (t_ping t)) rpc)) by (rewrite E; now left).
  apply of_ship_In in Hro. destruct Hro as [Hrc Hrm].
  assert (Hrs : In r rs) by now apply rpc_In in Hrc.
  assert (Hlt : (t_index r < t_index x)%Z).
  { pose proof (of_ship_sorted (mmsi (t_ping t))) as S. rewrite E in S.
    assert (H : In x (r :: g')) by (rewrite <- E; now apply of_ship_In).
    destruct (sorted_head_last _ r g' S x H) as [[->|H1] _]; [|assumption].
    apply rp_In in kept. destruct kept as [_ N]. rewrite <- Hxi in N. contradiction. }
  destruct (routes_ships r Hrs) as [Sr _]. destruct (routes_ships x Hx) as [Sx _].
  pose proof (index_from_In _ _ _ _ Sr) as Br. pose proof (index_from_In _ _ _ _ Sx) as Bx.
  destruct (index_from_labels (sort_by ping_leb ais_data) 0 (t_index x - 1)) as (p & Hp);
    [lia|].
  fold (reset_index (sort_by ping_leb ais_data)) in Hp. fold ships' in Hp.
  assert (Mp : mmsi p = mmsi (t_ping t)).
  { pose proof (sorted_by_label (fun a b => text_le (mmsi a) (mmsi b)) ships'
                  (t_index x - 1, p)%Z (t_index x, t_ping x)
                  (ships_sorted ais_data) Hp Sx) as U.
    simpl in U. specialize (U ltac:(lia)).
    destruct (Z.eq_dec (t_index r) (t_index x - 1)) as [Q|Q].
    - assert ((t_index r, t_ping r) = (t_index x - 1, p)%Z).
      { apply (sorted_label_unique (fun a b => text_le (mmsi a) (mmsi b)) ships');
          auto using ships_sorted. }
      congruence.
    - pose proof (sorted_by_label (fun a b => text_le (mmsi a) (mmsi b)) ships'
                    (t_index r, t_ping r) (t_index x - 1, p)%Z
                    (ships_sorted ais_data) Sr Hp) as L.
      simpl in L. specialize (L ltac:(lia)).
      rewrite Hrm in L. rewrite Hxm in U. now apply text_le_antisym. }
  exists p. split; [assumption|]. split; [assumption|].
  destruct (moving' (t_index x - 1)%Z) eqn:Mv; [exfalso|reflexivity].
  destruct (moving_tagged _ _ Hp Mv) as (c & Hy).
  destruct (routes_rows x Hx) as (x' & Hx' & Tx & Ex).
  assert (I : t_id (track_of' (c, (t_index x - 1, p)%Z)) = t_id (track_of' x')).
  { apply neighbours_same_id; auto; rewrite Ex; simpl; [lia|congruence]. }
  rewrite Tx in I.
  assert (Hin : In (track_of' (c, (t_index x - 1, p)%Z)) rs).
  { rewrite routes_tagged. now apply in_map. }
  pose proof (voyage_labels _ Hin ltac:(congruence)) as B. simpl in B. lia.
Qed.

(** The ping just after the voyage, likewise. *)
Lemma ping_after :
  exists p, In (t_index (last g x) + 1, p)%Z ships' /\ mmsi p = mmsi (t_ping t)
            /\ moving' (t_index (last g x) + 1)%Z = false.
Proof using kept voyage.
  set (z := last g x).
  destruct (voyage_rows z (last_In g x)) as (Hz & Hzc & Hzi & Hzm).
  destruct (of_ship (mmsi (t_ping t)) rpc) as [|r g'] eqn:E.
  { assert (H : In z (of_ship (mmsi (t_ping t)) rpc)) by now apply of_ship_In.
    rewrite E in H. contradiction. }
  destruct (remove_idx_first_last _ _ _ E) as [_ Hr].
  set (w := last g' r) in *.
  assert (Hwo : In w (of_ship (mmsi (t_ping t)) rpc)) by (rewrite E; apply last_In).
  apply of_ship_In in Hwo. destruct Hwo as [Hwc Hwm].
  assert (Hws : In w rs) by now apply rpc_In in Hwc.
  assert (Hlt : (t_index z < t_index w)%Z).
  { pose proof (of_ship_sorted (mmsi (t_ping t))) as S. rewrite E in S.
    assert (H : In z (r :: g')) by (rewrite <- E; now apply of_ship_In).
    destruct (sorted_head_last _ r g' S z H) as [_ [H1|H1]]; [|assumption].
    apply rp_In in kept. destruct kept as [_ N]. rewrite <- Hzi in N.
    fold w in H1. rewrite H1 in N. contradiction. }
  destruct (routes_ships w Hws) as [Sw _]. destruct (routes_ships z Hz) as [Sz _].
  pose proof (index_from_In _ _ _ _ Sw) as Bw. pose proof (index_from_In _ _ _ _ Sz) as Bz.
  destruct (index_from_labels (sort_by ping_leb ais_data) 0 (t_index z + 1)) as (p & Hp);
    [lia|].
  fold (reset_index (sort_by ping_leb ais_data)) in Hp. fold ships' in Hp.
  assert (Mp : mmsi p = mmsi (t_ping t)).
  { pose proof (sorted_by_label (fun a b => text_le (mmsi a) (mmsi b)) ships'
                  (t_index z, t_ping z) (t_index z + 1, p)%Z
                  (ships_sorted ais_data) Sz Hp) as U.
    simpl in U. specialize (U ltac:(lia)).
    destruct (Z.eq_dec (t_index w) (t_index z + 1)) as [Q|Q].
    - assert ((t_index w, t_ping w) = (t_index z + 1, p)%Z).
      { apply (sorted_label_unique (fun a b => text_le (mmsi a) (mmsi b)) ships');
          auto using ships_sorted. }
      congruence.
    - pose proof (sorted_by_label (fun a b => text_le (mmsi a) (mmsi b)) ships'
                    (t_index z + 1, p)%Z (t_index w, t_ping w)
                    (ships_sorted ais_data) Hp Sw) as L.
      simpl in L. specialize (L ltac:(lia)).
      rewrite Hzm in U. rewrite Hwm in L. now apply text_le_antisym. }
  exists p. split; [assumption|]. split; [assumption|].
  destruct (moving' (t_index z + 1)%Z) eqn:Mv; [exfalso|reflexivity].
  destruct (moving_tagged _ _ Hp Mv) as (c & Hy).
  destruct (routes_rows z Hz) as (z' & Hz' & Tz & Ez).
  assert (I : t_id (track_of' z') = t_id (track_of' (c, (t_index z + 1, p)%Z))).
  { apply neighbours_same_id; auto; rewrite Ez; simpl; [lia|congruence]. }
  rewrite Tz in I.
  assert (Hin : In (track_of' (c, (t_index z + 1, p)%Z)) rs).
  { rewrite routes_tagged. now apply in_map. }
  pose proof (voyage_labels _ Hin ltac:(congruence)) as B. simpl in B. fold z in B. lia.
Qed.

End OneVoyage.

End Attribution.

(** ** Origin and destination *)

Lemma mapM_Return {A B : Type} (f : A -> Result B) (l : list A) (bs : list B) :
  mapM f l = Return bs -> Forall2 (fun a b => f a = Return b) l bs.
Proof.
  revert bs. induction l as [|a t IH]; simpl; intros bs H.
  - injection H as <-. constructor.
  - destruct (f a) as [b|e] eqn:E; simpl in H; [|discriminate].
    destruct (mapM f t) as [bs'|e]; simpl in H; [|discriminate].
    injection H as <-. constructor; auto.
Qed.

Lemma mapM_total {A B : Type} (f : A -> Result B) (l : list A) :
  (forall a, In a l -> exists b, f a = Return b) -> exists bs, mapM f l = Return bs.
Proof.
  induction l as [|a t IH]; simpl; intros H; [eauto|].
  destruct (H a) as (b & ->); [now left|].
  destruct IH as (bs & ->); [intros; apply H; now right|].
  simpl. eauto.
Qed.

Lemma mapM_Raise {A B : Type} (f : A -> Result B) (l : list A) (e : Exc) :
  mapM f l = Raise e -> exists a, In a l /\ f a = Raise e.
Proof.
  induction l as [|a t IH]; simpl; intros H; [discriminate|].
  destruct (f a) as [b|e'] eqn:E; simpl in H.
  - destruct (mapM f t) as [bs|e'']; simpl in H; [discriminate|].
    injection H as ->. destruct IH as (x & Hx & Ex); [reflexivity|]. eauto.
  - injection H as ->. eauto.
Qed.

Lemma last_map {A B : Type} (f : A -> B) (x : A) (g : list A) (d : B) :
  last (map f (x :: g)) d = f (last g x).
Proof.
  revert x. induction g as [|a g IH]; intros x; [reflexivity|].
  rewrite last_cons. change (last (map f (a :: g)) d = f (last g a)). apply IH.
Qed.

(** The port columns of the rows of [in_port] once the centroids are
    there. *)
Lemma with_centroid_rows (frame : list InPort) (out : list PortPing) :
  with_centroid frame = Return out ->
  (forall r, In r frame -> exists pp, In pp out /\ pp_index pp = ip_index r) /\
  (forall pp, In pp out ->
              exists r, In r frame /\ pp_index pp = ip_index r /\ pp_ping pp = ip_ping r
                        /\ pp_locode pp = locode (ip_port r)
                        /\ Centroid.find_centroid (polygon (ip_port r))
                           = Return (port_lat pp, port_long pp)).
Proof.
  intros H. apply mapM_Return in H. induction H as [|r pp t out H F IH].
  - split; intros ? [].
  - destruct IH as [IH1 IH2].
    destruct (Centroid.find_centroid (polygon (ip_port r))) as [c|e] eqn:E;
      simpl in H; [|discriminate].
    injection H as <-. split.
    + intros r' [<-|Hr].
      * eexists. split; [now left|reflexivity].
      * destruct (IH1 r' Hr) as (pp & Hp & Ep). exists pp. split; [now right|assumption].
    + intros pp [<-|Hp].
      * exists r. simpl. destruct c. repeat split; auto; now left.
      * destruct (IH2 pp Hp) as (r' & Hr & Hrest). exists r'. split; [now right|assumption].
Qed.

Lemma with_centroid_Raise (frame : list InPort) (e : Exc) :
  with_centroid frame = Raise e -> e = ZeroDivisionError.
Proof.
  intros H. apply mapM_Raise in H. destruct H as (r & _ & H).
  unfold Centroid.find_centroid in H.
  destruct (Centroid.accumulate (polygon (ip_port r))) as [[x y] a].
  destruct (polygon (ip_port r)); simpl in H; [congruence|discriminate].
Qed.

Lemma loc_found (frame : list PortPing) (label : Z) :
  (exists pp, In pp frame /\ pp_index pp = label) ->
  exists pp, loc frame label = Return pp.
Proof.
  intros (pp & Hp & E). unfold loc.
  destruct (find (fun r => Z.eqb (pp_index r) label) frame) eqn:F; [eauto|].
  apply (find_none _ _ F) in Hp. rewrite E, Z.eqb_refl in Hp. discriminate.
Qed.

Lemma loc_Return (frame : list PortPing) (label : Z) (pp : PortPing) :
  loc frame label = Return pp -> In pp frame /\ pp_index pp = label.
Proof.
  unfold loc. destruct (find _ frame) eqn:F; [|discriminate].
  intros [= <-]. apply find_some in F. now rewrite Z.eqb_eq in F.
Qed.

(** The port columns that [attach_ports] gives to a voyage come from the
    two lookups for that voyage. *)
Lemma infos_In {X P : Type} (bounds : list (nat * X)) (froms tos : list P)
  (F T : nat * X -> P -> Prop) (h : P * P -> PortInfo) (v : nat) (inf : PortInfo) :
  Forall2 F bounds froms -> Forall2 T bounds tos ->
  In (v, inf) (combine (map fst bounds) (map h (combine froms tos))) ->
  exists b pf pt, In b bounds /\ fst b = v /\ F b pf /\ T b pt /\ inf = h (pf, pt).
Proof.
  intros HF. revert tos. induction HF as [|b pf bounds froms Hb HF IH]; intros tos HT H.
  - contradiction.
  - inversion HT as [|? pt ? tos' Hb' HT']; subst. simpl in H. destruct H as [H|H].
    + injection H as <- <-. exists b, pf, pt. repeat split; auto. now left.
    + destruct (IH _ HT' H) as (b' & pf' & pt' & Hin & Hrest).
      exists b', pf', pt'. split; [now right|assumption].
Qed.

Section Ports.

Variables (ais_data : list Ping) (ports : list Port) (speed_limit : float).

Local Abbreviation ships' := (ships ais_data).
Local Abbreviation in_port' := (in_port ais_data ports).
Local Abbreviation times' := (times ais_data ports).
Local Abbreviation rs := (routes ais_data ports speed_limit).
Local Abbreviation rp := (route_port ais_data ports speed_limit).
Local Abbreviation from_to' := (from_to ais_data ports speed_limit).
Local Abbreviation docked_ping' := (docked_ping ais_data ports speed_limit).

Lemma not_moving_docked (l : Z) (p : Ping) :
  In (l, p) ships' -> moving ais_data ports speed_limit l = false ->
  docked_ping' (mmsi p) l.
Proof.
  intros Hs Hm. unfold moving in Hm. apply orb_false_iff in Hm.
  destruct Hm as [C I]. apply negb_false_iff in C.
  destruct (ships_in_port_row ais_data ports (l, p) Hs C) as (r & Hr & Ei & Ep).
  simpl in Ei, Ep. destruct (in_port_times ais_data ports r Hr) as (d & Hd & Hl).
  exists r, d. rewrite Ei in Hl. repeat split; auto; [congruence|].
  destruct (docked speed_limit d) eqn:D; [reflexivity|]. exfalso.
  assert (In l (time_out_port_idx ais_data ports speed_limit)).
  { unfold time_out_port_idx, time_out_port. apply in_flat_map. exists d.
    split; [|assumption]. apply filter_In. now rewrite D. }
  apply memZ_In in H. congruence.
Qed.

(** The bounds of a voyage are the labels of its first and last row. *)
Lemma from_to_In (v : nat) (first last' : Z) :
  In (v, (first, last')) from_to' ->
  exists t x g, In t rp /\ t_id t = v /\ of_id v rs = x :: g /\
                first = t_index x /\ last' = t_index (last g x).
Proof.
  unfold from_to, first_last_index. intros H. apply in_map_iff in H.
  destruct H as (i & E & Hi). injection E as -> <- <-.
  apply unique_nat_In, in_map_iff in Hi. destruct Hi as (t & <- & Ht).
  rewrite (of_id_route_port ais_data ports speed_limit t Ht).
  destruct (of_id (t_id t) rs) as [|x g] eqn:E.
  - assert (H : In t (of_id (t_id t) rs)).
    { apply of_id_In. split; [|reflexivity].
      apply rp_In in Ht. destruct Ht as [Ht _]. now apply rpc_In in Ht. }
    rewrite E in H. contradiction.
  - exists t, x, g. repeat split; auto. apply last_map.
Qed.

Lemma voyage_docked (v : nat) (first last' : Z) :
  In (v, (first, last')) from_to' ->
  exists m, (forall t, In t rp -> t_id t = v -> mmsi (t_ping t) = m) /\
            docked_ping' m (first - 1) /\ docked_ping' m (last' + 1).
Proof.
  intros H. apply from_to_In in H. destruct H as (t & x & g & Ht & <- & E & -> & ->).
  exists (mmsi (t_ping t)). split.
  - intros t' Ht' Ei. apply (same_id_same_ship ais_data ports speed_limit); auto.
    + apply rp_In in Ht'. destruct Ht' as [Ht' _]. now apply rpc_In in Ht'.
    + apply rp_In in Ht. destruct Ht as [Ht _]. now apply rpc_In in Ht.
  - destruct (ping_before ais_data ports speed_limit t x g Ht E) as (p & Hp & Mp & Np).
    destruct (ping_after ais_data ports speed_limit t x g Ht E) as (q & Hq & Mq & Nq).
    rewrite <- Mp at 1. rewrite <- Mq. split; now apply not_moving_docked.
Qed.

(** X28: The lookups of the ports by label never fail.  Every voyage that
    [create_routes] keeps has, at the label before its first ping and at the
    label after its last ping, a ping of its own ship inside a port polygon,
    in a row of [times] that the code takes for a dock event (the voyages
    without one are the first and the last trip of a ship, and these are
    dropped); so [in_port.loc] never raises [KeyError], and the origin and
    destination columns of a voyage are those of the ports of these two
    pings.  A row of [times] is a stay as the code groups them, over the
    pings inside ports only: it can hold more than one visit. *)
Theorem voyage_ports_found :
  create_routes_frame ais_data ports speed_limit <> Raise KeyError /\
  (forall v first last', In (v, (first, last')) (from_to ais_data ports speed_limit) ->
     exists m,
       (forall t, In t (route_port ais_data ports speed_limit) ->
                  t_id t = v -> mmsi (t_ping t) = m) /\
       docked_ping ais_data ports speed_limit m (first - 1) /\
       docked_ping ais_data ports speed_limit m (last' + 1)) /\
  (forall frame row,
     create_routes_frame ais_data ports speed_limit = Return frame -> In row frame ->
     exists first last' p q,
       In (id row, (first, last')) (from_to ais_data ports speed_limit) /\
       In p (in_port ais_data ports) /\ ip_index p = (first - 1)%Z /\
       from_locode (info row) = locode (ip_port p) /\
       Centroid.find_centroid (polygon (ip_port p))
         = Return (from_lat (info row), from_long (info row)) /\
       In q (in_port ais_data ports) /\ ip_index q = (last' + 1)%Z /\
       to_locode (info row) = locode (ip_port q) /\
       Centroid.find_centroid (polygon (ip_port q))
         = Return (to_lat (info row), to_long (info row)) /\
       to_time (info row) = time (ip_ping q)).
Proof.
  split; [|split].
  - intros H. enough (E : KeyError = ZeroDivisionError) by discriminate.
    revert H. generalize KeyError. intros e H.
    unfold create_routes_frame, in_port_centroid in H.
    destruct (with_centroid in_port') as [frame|e'] eqn:C; simpl in H.
    + exfalso. destruct (with_centroid_rows _ _ C) as [R1 _].
      assert (L : forall l m, docked_ping' m l -> exists pp, loc frame l = Return pp).
      { intros l m (r & d & Hr & Ei & _). apply loc_found.
        destruct (R1 r Hr) as (pp & Hp & Ep). exists pp. split; [assumption|congruence]. }
      unfold attach_ports in H.
      destruct (mapM_total (fun ft : nat * (Z * Z) => loc frame (fst (snd ft) - 1)) from_to')
        as (froms & Ef).
      { intros [v [f l]] Hb. destruct (voyage_docked v f l Hb) as (m & _ & D & _).
        simpl. eauto. }
      destruct (mapM_total (fun ft : nat * (Z * Z) => loc frame (snd (snd ft) + 1)) from_to')
        as (tos & Et).
      { intros [v [f l]] Hb. destruct (voyage_docked v f l Hb) as (m & _ & _ & D).
        simpl. eauto. }
      rewrite Ef, Et in H. discriminate.
    + injection H as <-. eapply with_centroid_Raise. eassumption.
  - apply voyage_docked.
  - intros frame row H Hrow. unfold create_routes_frame, in_port_centroid in H.
    destruct (with_centroid in_port') as [pports|e'] eqn:C; simpl in H; [|discriminate].
    destruct (with_centroid_rows _ _ C) as [_ R2].
    unfold attach_ports in H.
    destruct (mapM _ from_to') as [froms|] eqn:Ef; simpl in H; [|discriminate].
    destruct (mapM (fun ft : nat * (Z * Z) => loc pports (snd (snd ft) + 1)) from_to')
      as [tos|] eqn:Et; simpl in H; [|discriminate].
    injection H as <-. unfold merge_info in Hrow. apply in_flat_map in Hrow.
    destruct Hrow as (t & Ht & Hrow). apply in_map_iff in Hrow.
    destruct Hrow as ([v inf] & <- & He). apply filter_In in He.
    destruct He as [He Ev]. simpl in Ev. apply Nat.eqb_eq in Ev. subst v. simpl.
    apply mapM_Return in Ef, Et.
    destruct (infos_In _ _ _ _ _ _ _ _ Ef Et He)
      as ([v [f l]] & pf & pt & Hb & Ev & Lf & Lt & ->).
    simpl in Ev, Lf, Lt. subst v.
    apply loc_Return in Lf, Lt. destruct Lf as [Hf If], Lt as [Hl Il].
    destruct (R2 pf Hf) as (p & Hp & Ip & Pp & Cp & Gp).
    destruct (R2 pt Hl) as (q & Hq & Iq & Pq & Cq & Gq).
    exists f, l, p, q. simpl. rewrite Pq. repeat split; auto; congruence.
Qed.

End Ports.

(** ** Short voyages, first and last voyages *)

Section Dropped.

Variables (ais_data : list Ping) (ports : list Port) (speed_limit : float).

Local Abbreviation rs := (routes ais_data ports speed_limit).
Local Abbreviation rpc := (route_port_counted ais_data ports speed_limit).
Local Abbreviation rp := (route_port ais_data ports speed_limit).
Local Abbreviation earliest_id' := (earliest_id ais_data ports speed_limit).
Local Abbreviation latest_id' := (latest_id ais_data ports speed_limit).

Lemma of_ship_id_sorted (m : string) :
  StronglySorted (fun a b => (t_id a <= t_id b)%nat) (of_ship m rpc).
Proof.
  unfold of_ship, route_port_counted, at_least.
  apply StronglySorted_filter, StronglySorted_filter.
  generalize (routes_sorted ais_data ports speed_limit). apply StronglySorted_impl. prop.
Qed.

Lemma of_ship_bounds (m : string) (r : Track) (g : list Track) (a : Track) :
  of_ship m rpc = r :: g -> In a rpc -> mmsi (t_ping a) = m ->
  (t_id r <= t_id a <= t_id (last g r))%nat.
Proof.
  intros E Ha Hm. pose proof (of_ship_id_sorted m) as S. rewrite E in S.
  assert (H : In a (r :: g)).
  { rewrite <- E. apply of_ship_In. auto. }
  destruct (sorted_head_last _ r g S a H) as [H1 H2]. simpl in H1, H2. split.
  - destruct H1 as [E1|H1]; [rewrite E1|]; lia.
  - destruct H2 as [E2|H2]; [rewrite <- E2|]; lia.
Qed.

(** The voyages that [create_routes] keeps: those with at least ten points
    that have neither the earliest nor the latest id of their ship. *)
Lemma route_port_spec (t : Track) :
  In t rp <->
  In t rs /\ (10 <= count_id rs (t_id t))%nat /\ ~ earliest_id' t /\ ~ latest_id' t.
Proof.
  split.
  - intros H. pose proof H as H0. apply rp_In in H. destruct H as [Hc N].
    pose proof Hc as Hc0. apply rpc_In in Hc. destruct Hc as [Hs C].
    split; [assumption|]. split; [assumption|].
    destruct (of_ship (mmsi (t_ping t)) rpc) as [|r g] eqn:E.
    { assert (Ht : In t (of_ship (mmsi (t_ping t)) rpc)) by now apply of_ship_In.
      rewrite E in Ht. contradiction. }
    destruct (remove_idx_first_last _ _ _ _ _ _ E) as [Rf Rl].
    pose proof (of_ship_bounds _ _ _ t E Hc0 eq_refl) as B.
    assert (Hr : In r rpc /\ mmsi (t_ping r) = mmsi (t_ping t)).
    { apply of_ship_In. rewrite E. now left. }
    assert (Hl : In (last g r) rpc /\ mmsi (t_ping (last g r)) = mmsi (t_ping t)).
    { apply of_ship_In. rewrite E. apply last_In. }
    split; intros X.
    + apply N. replace (t_id t) with (t_id r); [assumption|].
      specialize (X r (proj1 Hr) (proj2 Hr)). lia.
    + apply N. replace (t_id t) with (t_id (last g r)); [assumption|].
      specialize (X _ (proj1 Hl) (proj2 Hl)). lia.
  - intros (Hs & C & NE & NL). apply rp_In.
    assert (Hc : In t rpc) by (apply rpc_In; auto).
    split; [assumption|]. intros R. apply remove_idx_inv in R.
    destruct R as (m & r & g & E & R).
    assert (Hr : In r rpc /\ mmsi (t_ping r) = m).
    { apply of_ship_In. rewrite E. now left. }
    assert (Hl : In (last g r) rpc /\ mmsi (t_ping (last g r)) = m).
    { apply of_ship_In. rewrite E. apply last_In. }
    assert (M : mmsi (t_ping t) = m).
    { destruct R as [R|R].
      - rewrite <- (proj2 Hr). apply (same_id_same_ship ais_data ports speed_limit); auto.
        destruct Hr as [Hr _]. now apply rpc_In in Hr.
      - rewrite <- (proj2 Hl). apply (same_id_same_ship ais_data ports speed_limit); auto.
        destruct Hl as [Hl _]. now apply rpc_In in Hl. }
    destruct R as [R|R].
    + apply NE. intros a Ha Ma. rewrite R.
      apply (of_ship_bounds m r g a E Ha). congruence.
    + apply NL. intros a Ha Ma. rewrite R.
      apply (of_ship_bounds m r g a E Ha). congruence.
Qed.

(** A ship with three voyages of ten points keeps the middle one. *)
Lemma middle_voyage_kept (m : string) (a b c : nat) :
  (a < b < c)%nat ->
  (exists ta tb tc,
     (In ta rpc /\ mmsi (t_ping ta) = m /\ t_id ta = a) /\
     (In tb rpc /\ mmsi (t_ping tb) = m /\ t_id tb = b) /\
     (In tc rpc /\ mmsi (t_ping tc) = m /\ t_id tc = c)) ->
  (forall t, In t rpc -> mmsi (t_ping t) = m -> t_id t = a \/ t_id t = b \/ t_id t = c) ->
  forall t, In t rpc -> mmsi (t_ping t) = m -> (In t rp <-> t_id t = b).
Proof.
  intros L (ta & tb & tc & (Ha & Ma & Ia) & (Hb & Mb & Ib) & (Hc & Mc & Ic)) All t Ht Mt.
  rewrite route_port_spec. pose proof (proj1 (rpc_In _ _ _ t) Ht) as [Hs C].
  split.
  - intros (_ & _ & NE & NL). destruct (All t Ht Mt) as [E|[E|E]]; [exfalso| |exfalso].
    + apply NE. intros x Hx Mx. rewrite Mt in Mx.
      destruct (All x Hx Mx) as [F|[F|F]]; lia.
    + assumption.
    + apply NL. intros x Hx Mx. rewrite Mt in Mx.
      destruct (All x Hx Mx) as [F|[F|F]]; lia.
  - intros E. split; [assumption|]. split; [assumption|]. split; intros X.
    + specialize (X ta Ha ltac:(congruence)). lia.
    + specialize (X tc Hc ltac:(congruence)). lia.
Qed.

End Dropped.

(** ** The object across the stages *)

Ltac stage_cases self :=
  destruct self; cbv zeta; simpl;
  unfold create_routes, remove_routes_outside_polygon, interpolate_routes,
    clean_data, create_waypoints, save_routes, save_interpolated, save_waypoints,
    save_pickle, set_routes, set_interpolated_routes, set_waypoints,
    set_waypoint_amount; simpl.

(** X1: No stage, whether it returns or raises, writes to the imported frames;
    [routes] is written by [create_routes], [remove_routes_outside_polygon]
    and [clean_data] only, [interpolated_routes] by [interpolate_routes] and
    [clean_data] only, [waypoints] and [waypoint_amount] by
    [create_waypoints] only. *)
Theorem stages_write_their_own (stage : Stage) (self : clean_ais) :
  let self' := fst (run stage self) in
  self_ais_data self' = self_ais_data self /\
  self_ports self' = self_ports self /\
  self_polygon self' = self_polygon self /\
  (match stage with
   | CreateRoutes _ | RemoveRoutesOutsidePolygon | CleanData _ _ _ => True
   | _ => self_routes self' = self_routes self
   end) /\
  (match stage with
   | InterpolateRoutes _ | CleanData _ _ _ => True
   | _ => self_interpolated_routes self' = self_interpolated_routes self
   end) /\
  (match stage with
   | CreateWaypoints _ => True
   | _ => self_waypoints self' = self_waypoints self
          /\ self_waypoint_amount self' = self_waypoint_amount self
   end).
Proof.
  destruct stage; stage_cases self;
    repeat match goal with
           | |- context [match ?x with _ => _ end] => destruct x
           end; simpl; repeat split; reflexivity.
Qed.

(** X2: A stage that raises leaves every frame as it was. *)
Theorem failed_stage_keeps_frames (stage : Stage) (self self' : clean_ais) (e : Exc) :
  run stage self = raises self' e ->
  self_ais_data self' = self_ais_data self /\
  self_ports self' = self_ports self /\
  self_polygon self' = self_polygon self /\
  self_routes self' = self_routes self /\
  self_interpolated_routes self' = self_interpolated_routes self /\
  self_waypoints self' = self_waypoints self.
Proof.
  unfold raises. destruct stage; stage_cases self;
    repeat match goal with
           | |- context [match ?x with _ => _ end] => destruct x
           end; simpl; unfold returns, raises; intros [= <- <-] || intros [= <-] || intros [=];
    simpl; repeat split; reflexivity.
Qed.

Lemma artifact_eqb_eq (a b : Artifact) : artifact_eqb a b = true <-> a = b.
Proof. destruct a, b; simpl; split; congruence. Qed.

Lemma have_In (have : list Artifact) (a : Artifact) :
  existsb (artifact_eqb a) have = true <-> In a have.
Proof.
  rewrite existsb_exists. split.
  - intros (b & H & E). apply artifact_eqb_eq in E. now subst.
  - intros H. exists a. split; [assumption|now apply artifact_eqb_eq].
Qed.

(** A stage that returns takes no frame away, and has stored what it
    provides. *)
Lemma returned_stage_provides (stage : Stage) (self self' : clean_ais) (a : Artifact) :
  run stage self = returns self' ->
  absent a self' = true -> absent a self = true /\ ~ In a (provides stage).
Proof.
  unfold returns. destruct stage; stage_cases self;
    repeat match goal with
           | |- context [match ?x with _ => _ end] => destruct x
           end; simpl; unfold returns, raises; intros [= <-] || intros [=];
    destruct a; simpl; intros H; try discriminate; (split; [exact H|]);
    intros F; repeat (destruct F as [F|F]; [discriminate|]); contradiction.
Qed.

Lemma loc_Raise (frame : list PortPing) (label : Z) (e : Exc) :
  loc frame label = Raise e -> e = KeyError.
Proof.
  unfold loc. destruct (find _ frame); [discriminate|]. now intros [= <-].
Qed.

(** What [create_routes] itself can raise. *)
Lemma create_routes_frame_Raise (ais_data : list Ping) (ports : list Port)
  (speed_limit : float) (e : Exc) :
  create_routes_frame ais_data ports speed_limit = Raise e ->
  e = ZeroDivisionError \/ e = KeyError.
Proof.
  unfold create_routes_frame, in_port_centroid.
  destruct (with_centroid _) as [frame|e'] eqn:C; simpl.
  - unfold attach_ports.
    destruct (mapM _ _) as [froms|e1] eqn:F; simpl.
    + destruct (mapM (fun ft : nat * (Z * Z) => loc frame (snd (snd ft) + 1)) _)
        as [tos|e2] eqn:T; simpl; [discriminate|].
      intros [= <-]. apply mapM_Raise in T. destruct T as (a & _ & T).
      right. eapply loc_Raise. eassumption.
    + intros [= <-]. apply mapM_Raise in F. destruct F as (a & _ & F).
      right. eapply loc_Raise. eassumption.
  - intros [= <-]. left. eapply with_centroid_Raise. eassumption.
Qed.

Section Script.

(** pandas raises errors of its own, never the error class of this
    repository. *)
Hypothesis resample_foreign :
  forall interval_s frame v, resample interval_s frame <> Raise (NotdefinedError v).

Lemma interpolate_foreign (interval_s : Z) (frame : list Route) (v : string) :
  interpolate interval_s frame <> Raise (NotdefinedError v).
Proof using resample_foreign.
  unfold interpolate. destruct (resample interval_s _) as [l|e] eqn:R; simpl.
  - discriminate.
  - intros [= ->]. now apply (resample_foreign _ _ _ R).
Qed.

Lemma clean_data_frames_foreign (threshold : float) (interval_s : Z) (speed : float)
  (frames : list Route * list Route) (v : string) :
  clean_data_frames threshold interval_s speed frames <> Raise (NotdefinedError v).
Proof using resample_foreign.
  unfold clean_data_frames, distance_pass.
  destruct (interpolate interval_s (snd frames)) eqn:E; simpl; [discriminate|].
  intros [= ->]. eapply interpolate_foreign. eassumption.
Qed.

Lemma create_waypoints_frame_foreign (waypoint_amount : Z) (routes interpolated : list Route)
  (v : string) :
  create_waypoints_frame waypoint_amount routes interpolated <> Raise (NotdefinedError v).
Proof using resample_foreign.
  unfold create_waypoints_frame, interpolated_local.
  destruct (new_interval _ _) as [iv|e'] eqn:E6; simpl.
  - destruct (interpolate iv _) eqn:E7; simpl; [discriminate|].
    intros [= ->]. eapply interpolate_foreign. eassumption.
  - intros [= ->]. unfold new_interval in E6.
    destruct (smallest _) as [m|]; destruct (waypoint_amount =? 0)%Z;
      try destruct (m =? 0)%Z; discriminate.
Qed.

(** A stage raises [NotdefinedError] only when a frame it needs is
    [None]. *)
Lemma Notdefined_only_when_missing (stage : Stage) (self : clean_ais) :
  is_Notdefined (snd (run stage self)) = true ->
  exists a, In a (required stage) /\ absent a self = true.
Proof using resample_foreign.
  destruct stage; simpl.
  - unfold create_routes.
    destruct (self_ais_data self) eqn:A; [|exists AisData; simpl; rewrite A; auto].
    destruct (self_ports self) eqn:P; [|exists Ports; simpl; rewrite P; auto].
    destruct (create_routes_frame _ _ _) eqn:E; simpl; [discriminate|].
    destruct (create_routes_frame_Raise _ _ _ _ E) as [-> | ->]; discriminate.
  - unfold remove_routes_outside_polygon.
    destruct (self_polygon self) eqn:A; [|exists Polygon; simpl; rewrite A; auto].
    destruct (self_routes self) eqn:P; [|exists Routes; simpl; rewrite P; auto].
    discriminate.
  - unfold interpolate_routes.
    destruct (self_routes self) eqn:P; [|exists Routes; simpl; rewrite P; auto].
    destruct (interpolate _ _) eqn:E; simpl; [discriminate|].
    destruct e; try discriminate. exfalso. eapply interpolate_foreign. eassumption.
  - unfold clean_data.
    destruct (self_routes self) eqn:P; [|exists Routes; simpl; rewrite P; auto].
    destruct (self_interpolated_routes self) eqn:A;
      [|exists InterpolatedRoutes; simpl; rewrite A; auto].
    destruct (clean_data_frames _ _ _ _) eqn:E; simpl; [discriminate|].
    destruct e; try discriminate. exfalso. eapply clean_data_frames_foreign. eassumption.
  - unfold create_waypoints.
    destruct (self_interpolated_routes self) eqn:A;
      [|exists InterpolatedRoutes; simpl; rewrite A; auto].
    destruct (self_routes self) eqn:P; [|exists Routes; simpl; rewrite P; auto].
    destruct (create_waypoints_frame _ _ _) eqn:E; simpl; [discriminate|].
    destruct e; try discriminate. exfalso. eapply create_waypoints_frame_foreign. eassumption.
  - unfold save_routes, save_pickle.
    destruct (self_routes self) eqn:P; [discriminate|exists Routes; simpl; rewrite P; auto].
  - unfold save_interpolated, save_pickle.
    destruct (self_interpolated_routes self) eqn:P;
      [discriminate|exists InterpolatedRoutes; simpl; rewrite P; auto].
  - unfold save_waypoints, save_pickle.
    destruct (self_waypoints self) eqn:P;
      [discriminate|exists Waypoints; simpl; rewrite P; auto].
Qed.

(** X3: A stage raises [NotdefinedError] only for a frame that is [None]: a
    script in which every stage comes after the stages that store what it
    needs never raises [NotdefinedError], whatever else goes wrong on the
    way; [clean_example.py] after its three imports is such a script. *)
Theorem ordered_script_finds_its_frames (script : list Stage) (have : list Artifact)
  (self : clean_ais) :
  ordered have script = true ->
  (forall a, In a have -> absent a self = false) ->
  is_Notdefined (snd (run_all script self)) = false.
Proof using resample_foreign.
  revert have self. induction script as [|stage rest IH]; intros have self O H.
  - reflexivity.
  - simpl in O. apply andb_true_iff in O. destruct O as [R O].
    rewrite forallb_forall in R. simpl.
    destruct (run stage self) as [self' [e|]] eqn:E.
    + change (is_Notdefined (Some e) = false).
      destruct (is_Notdefined (Some e)) eqn:N; [|reflexivity]. exfalso.
      destruct (Notdefined_only_when_missing stage self) as (a & Ha & Hn).
      { rewrite E. exact N. }
      apply R, have_In, H in Ha. congruence.
    + apply (IH (provides stage ++ have)); [assumption|].
      intros a Ha. destruct (absent a self') eqn:A; [|reflexivity]. exfalso.
      destruct (returned_stage_provides stage self self' a E A) as [A0 N].
      apply in_app_or in Ha. destruct Ha as [Ha|Ha]; [auto|].
      apply H in Ha. congruence.
Qed.

End Script.

(** ** Voyages that leave the area *)

Lemma index_from_map {A B : Type} (h : A -> B) (l : list A) (k : Z) :
  index_from k (map h l) = map (fun e => (fst e, h (snd e))) (index_from k l).
Proof.
  revert k. induction l as [|a t IH]; simpl; intros k; [reflexivity|].
  now rewrite IH.
Qed.

Lemma combine_map_same {A B C : Type} (f : A -> B) (g : A -> C) (l : list A) :
  combine (map f l) (map g l) = map (fun a => (f a, g a)) l.
Proof. induction l as [|a t IH]; simpl; [reflexivity|now rewrite IH]. Qed.

Lemma index_from_fun {A : Type} (l : list A) (k i : Z) (a b : A) :
  In (i, a) (index_from k l) -> In (i, b) (index_from k l) -> a = b.
Proof.
  revert k. induction l as [|c t IH]; simpl; intros k; [prop|].
  intros [Ha|Ha] [Hb|Hb].
  - congruence.
  - injection Ha as <- _. apply index_from_In in Hb. lia.
  - injection Hb as <- _. apply index_from_In in Ha. lia.
  - eapply IH; eassumption.
Qed.

Lemma index_from_row {A : Type} (l : list A) (k : Z) (a : A) :
  In a l <-> exists i, In (i, a) (index_from k l).
Proof.
  revert k. induction l as [|c t IH]; simpl; intros k.
  - split; [prop|intros [? []]].
  - split.
    + intros [->|H]; [exists k; now left|].
      apply (IH (k + 1)%Z) in H. destruct H as (i & H). exists i. now right.
    + intros (i & [H|H]); [injection H as _ ->; now left|].
      right. apply (IH (k + 1)%Z). now exists i.
Qed.

Lemma filter_all {A : Type} (p : A -> bool) (l : list A) :
  (forall a, In a l -> p a = true) -> filter p l = l.
Proof.
  induction l as [|a t IH]; simpl; intros H; [reflexivity|].
  rewrite (H a) by now left. f_equal. apply IH. intros; apply H; now right.
Qed.

Lemma filter_none {A : Type} (p : A -> bool) (l : list A) :
  (forall a, In a l -> p a = false) -> filter p l = [].
Proof.
  induction l as [|a t IH]; simpl; intros H; [reflexivity|].
  rewrite (H a) by now left. apply IH. intros; apply H; now right.
Qed.

(** The labels the engine returns for the area are those of the rows that
    lie inside it. *)
Lemma inside_rows_In (area : list Point) (frame : list Route) (i : Z) :
  In i (fst (hd ([], 0%Z)
               (mask_from_polygons (map (fun r => lat (ping r)) frame)
                                   (map (fun r => long (ping r)) frame) [area]))) <->
  exists r, In (i, r) (reset_index frame)
            /\ inside area (lat (ping r)) (long (ping r)) = true.
Proof.
  unfold mask_from_polygons, reset_index. simpl.
  rewrite combine_map_same, index_from_map, in_map_iff. split.
  - intros ([j [la lo]] & E & H). simpl in E. subst j.
    apply filter_In in H. destruct H as [H I]. simpl in I.
    apply in_map_iff in H. destruct H as ([j r] & E & H). simpl in E.
    injection E as -> <- <-. now exists r.
  - intros (r & H & I). exists (i, (lat (ping r), long (ping r))).
    split; [reflexivity|]. apply filter_In. split; [|exact I].
    apply in_map_iff. now exists (i, r).
Qed.

(** The voyages that are removed: those with a row outside the area. *)
Lemma ids_outside_In (area : list Point) (frame : list Route) (v : nat) :
  In v (ids_outside area frame) <->
  exists q, In q frame /\ id q = v
            /\ inside area (lat (ping q)) (long (ping q)) = false.
Proof.
  unfold ids_outside. rewrite unique_nat_In, in_map_iff. split.
  - intros ([i q] & E & H). simpl in E. apply filter_In in H. destruct H as [H M].
    cbv beta zeta in M. cbn [fst] in M. apply negb_true_iff in M. exists q.
    split; [apply (index_from_row frame 0%Z); now exists i|].
    split; [assumption|].
    destruct (inside area (lat (ping q)) (long (ping q))) eqn:I; [|reflexivity].
    assert (X : memZ i (fst (hd ([], 0%Z)
               (mask_from_polygons (map (fun r => lat (ping r)) frame)
                                   (map (fun r => long (ping r)) frame) [area]))) = true).
    { apply memZ_In, inside_rows_In. now exists q. }
    congruence.
  - intros (q & H & E & I). apply (index_from_row frame 0%Z) in H. destruct H as (i & H).
    exists (i, q). split; [exact E|]. apply filter_In. split; [exact H|].
    cbv beta zeta. cbn [fst]. apply negb_true_iff.
    destruct (memZ i _) eqn:M; [|reflexivity]. exfalso.
    apply memZ_In, inside_rows_In in M. destruct M as (r & Hr & Ir).
    assert (r = q) by (eapply index_from_fun; eassumption). subst r. congruence.
Qed.

(** X4: [remove_routes_outside_polygon] keeps a row exactly when every row of
    its voyage lies inside the area: one ping outside removes the whole
    voyage. *)
Theorem remove_outside_whole_voyages (area : list Point) (frame : list Route) (r : Route) :
  In r (remove_outside area frame) <->
  In r frame /\ all_inside area frame (id r).
Proof.
  unfold remove_outside, all_inside. rewrite without_ids_In, ids_outside_In. split.
  - intros [H N]. split; [assumption|]. intros q Hq E.
    destruct (inside area (lat (ping q)) (long (ping q))) eqn:I; [reflexivity|].
    exfalso. apply N. now exists q.
  - intros [H A]. split; [assumption|]. intros (q & Hq & E & I).
    rewrite (A q Hq E) in I. discriminate.
Qed.

(** X5: A second call of [remove_routes_outside_polygon] changes nothing. *)
Theorem remove_outside_idempotent (area : list Point) (frame : list Route) :
  remove_outside area (remove_outside area frame) = remove_outside area frame.
Proof.
  unfold remove_outside at 1. unfold without_ids. apply filter_all.
  intros r Hr. apply negb_true_iff.
  destruct (mem_nat (id r) _) eqn:M; [|reflexivity]. exfalso.
  apply mem_nat_In, ids_outside_In in M. destruct M as (q & Hq & E & I).
  apply without_ids_In in Hq. destruct Hq as [Hq N]. apply N.
  apply ids_outside_In. now exists q.
Qed.

(** ** The rows of a resampled frame *)

Lemma id_locode_In (frame : list Route) (e : nat * PortInfo) :
  In e (id_locode frame) ->
  exists r, In r frame /\ id r = fst e /\ info r = snd e
            /\ info_complete (info r) = true.
Proof.
  unfold id_locode. intros H. apply drop_duplicates_incl, in_map_iff in H.
  destruct H as (r & <- & H). apply filter_In in H. exists r. simpl. prop_split.
Qed.

(** Every id of a list of pairs keeps a pair under [unique], whatever the
    comparison of the second components does. *)
Lemma unique_keeps_id {B : Type} (eqb : B -> B -> bool) (l : list (nat * B)) (e : nat * B) :
  In e l ->
  exists e', In e' (unique (fun a b => Nat.eqb (fst a) (fst b) && eqb (snd a) (snd b)) l)
             /\ fst e' = fst e.
Proof.
  unfold unique. induction l as [|b t IH]; simpl; [prop|].
  intros [->|H]; [exists e; auto|].
  destruct (IH H) as (c & Hc & E).
  destruct (Nat.eqb (fst b) (fst c)) eqn:N.
  - apply Nat.eqb_eq in N. exists b. split; [now left|congruence].
  - exists c. split; [|assumption]. right. apply filter_In. split; [assumption|].
    now rewrite N.
Qed.

Lemma id_locode_keeps (frame : list Route) (r : Route) :
  In r frame -> info_complete (info r) = true ->
  exists e, In e (id_locode frame) /\ fst e = id r.
Proof.
  intros H C. unfold id_locode, id_info_eqb.
  apply (unique_keeps_id info_eqb _ (id r, info r)).
  apply in_map_iff. exists r. split; [reflexivity|]. apply filter_In. auto.
Qed.

(** X6: [__interpolate], once pandas has resampled the frame: the result has
    the resampled points of the voyages that have a row with all four port
    coordinates, each with port columns of its voyage; a voyage whose port
    coordinates are missing in every row has no row in the result. *)
Theorem interpolate_rows (interval_s : Z) (frame : list Route) (samples : list Sample) :
  resample interval_s (map (fun r => mkSample (id r) (ping r)) frame) = Return samples ->
  exists out,
    interpolate interval_s frame = Return out /\
    (forall g, In g out ->
       In (mkSample (id g) (ping g)) samples /\
       info_complete (info g) = true /\
       exists r, In r frame /\ id r = id g /\ info r = info g) /\
    (forall s r, In s samples -> In r frame -> id r = s_id s ->
                 info_complete (info r) = true ->
                 exists g, In g out /\ id g = s_id s /\ ping g = s_ping s) /\
    (forall i, (forall r, In r frame -> id r = i -> info_complete (info r) = false) ->
               forall g, In g out -> id g <> i).
Proof.
  intros R. unfold interpolate. rewrite R. simpl. eexists. split; [reflexivity|].
  assert (P : forall g, In g (merge_locode (id_locode frame) samples) ->
       In (mkSample (id g) (ping g)) samples /\
       info_complete (info g) = true /\
       exists r, In r frame /\ id r = id g /\ info r = info g).
  { intros g H. unfold merge_locode in H. apply in_flat_map in H.
    destruct H as (s & Hs & H). apply in_map_iff in H. destruct H as (e & <- & H).
    apply filter_In in H. destruct H as [H E]. apply Nat.eqb_eq in E. simpl.
    apply id_locode_In in H. destruct H as (r & Hr & Ei & Ef & C).
    split; [now destruct s|]. split; [congruence|].
    exists r. split; [assumption|]. split; congruence. }
  split; [exact P|]. split.
  - intros s r Hs Hr E C. destruct (id_locode_keeps frame r Hr C) as (e & He & Ee).
    exists (mkRoute (s_ping s) (s_id s) (snd e)). split; [|auto].
    unfold merge_locode. apply in_flat_map. exists s. split; [assumption|].
    apply in_map_iff. exists e. split; [reflexivity|]. apply filter_In.
    split; [assumption|]. apply Nat.eqb_eq. congruence.
  - intros i N g Hg E. destruct (P g Hg) as (_ & C & r & Hr & Ei & Ef).
    rewrite <- Ef, (N r Hr) in C; [discriminate|congruence].
Qed.

(** ** The frames after [clean_data] *)

Lemma without_ids_nil (frame : list Route) : without_ids [] frame = frame.
Proof. unfold without_ids. apply filter_all. intros; reflexivity. Qed.

(** X7: After [clean_data] no resampled point is at or under [speed] knots, so
    a second speed pass removes nothing. *)
Theorem clean_data_leaves_no_slow_point (threshold : float) (interval_s : Z) (speed : float)
  (frames out : list Route * list Route) :
  clean_data_frames threshold interval_s speed frames = Return out ->
  (forall g, In g (snd out) -> PrimFloat.leb (sog (ping g)) speed = false) /\
  speed_pass speed out = out.
Proof.
  unfold clean_data_frames. destruct (distance_pass _ _ _) as [f1|e]; simpl; [|discriminate].
  intros [= <-].
  assert (S : forall g, In g (snd (speed_pass speed f1)) ->
                        PrimFloat.leb (sog (ping g)) speed = false).
  { intros g H. unfold speed_pass in H. simpl in H. apply without_ids_In in H.
    destruct H as [H N]. destruct (PrimFloat.leb (sog (ping g)) speed) eqn:L; [|reflexivity].
    exfalso. apply N, slow_ids_spec. now exists g. }
  split; [exact S|].
  assert (E : slow_ids speed (snd (speed_pass speed f1)) = []).
  { unfold slow_ids. rewrite (filter_none _ _ S). reflexivity. }
  unfold speed_pass at 1. rewrite E, !without_ids_nil.
  now destruct (speed_pass speed f1).
Qed.

Lemma without_ids_twice (a b : list nat) (frame : list Route) :
  without_ids a (without_ids b frame)
  = filter (fun r => negb (mem_nat (id r) b) && negb (mem_nat (id r) a)) frame.
Proof.
  unfold without_ids. induction frame as [|r t IH]; simpl; [reflexivity|].
  destruct (mem_nat (id r) b); simpl; [assumption|].
  destruct (mem_nat (id r) a); simpl; [assumption|]. now rewrite IH.
Qed.

(** X8: [clean_data] selects voyages: one test on the id decides for the raw
    and for the resampled frame, so a voyage leaves both frames or neither,
    and the rows that stay keep their order. *)
Theorem clean_data_selects_voyages (threshold : float) (interval_s : Z) (speed : float)
  (frames out : list Route * list Route) :
  clean_data_frames threshold interval_s speed frames = Return out ->
  exists keep : nat -> bool,
    fst out = filter (fun r => keep (id r)) (fst frames) /\
    snd out = filter (fun r => keep (id r)) (snd frames).
Proof.
  unfold clean_data_frames, distance_pass.
  destruct (interpolate _ _) as [grid|e]; simpl; [|discriminate].
  intros [= <-]. unfold speed_pass. simpl.
  set (a := slow_ids speed _). set (b := stationary_ids threshold grid).
  exists (fun i => negb (mem_nat i b) && negb (mem_nat i a)).
  split; apply without_ids_twice.
Qed.

(** ** [create_waypoints] without a short trip *)

(** X9: When no trip has fewer resampled points than the target and lasts
    thirty minutes, there is no smallest trip length, and
    [int(smallest_time * 60 / waypoint_amount)] is taken of the missing
    value: [create_waypoints] raises after it has stored [waypoint_amount],
    and stores no waypoints.  What it raises is [ZeroDivisionError] when the
    target is [0] (the division comes first), and [ValueError] otherwise. *)
Theorem create_waypoints_needs_short_trip (waypoint_amount : Z) (self : clean_ais)
  (routes interpolated : list Route) :
  self_routes self = Some routes ->
  self_interpolated_routes self = Some interpolated ->
  (forall r, In r interpolated ->
             (Z.of_nat (count_points interpolated (id r)) < waypoint_amount)%Z ->
             (exists p, In p routes /\ id p = id r) ->
             (minutes (id r) routes < 30)%Z) ->
  run (CreateWaypoints waypoint_amount) self
  = raises (set_waypoint_amount self waypoint_amount)
           (if (waypoint_amount =? 0)%Z then ZeroDivisionError else ValueError).
Proof.
  intros Hr Hi H. simpl. unfold create_waypoints. rewrite Hr, Hi.
  unfold create_waypoints_frame, interpolated_local.
  assert (E : at_least_30 (short_routes waypoint_amount routes interpolated) = []).
  { unfold at_least_30. apply filter_none. intros [r len] Hs. simpl.
    apply short_routes_In in Hs. destruct Hs as (A & B & C & ->).
    apply Z.leb_gt. now apply H. }
  rewrite E. cbn [map smallest new_interval].
  destruct (waypoint_amount =? 0)%Z; reflexivity.
Qed.

(** ** The frame that [create_routes] stores *)

Lemma map_fst_combine {A B : Type} (l1 : list A) (l2 : list B) :
  List.length l1 = List.length l2 -> map fst (combine l1 l2) = l1.
Proof.
  revert l2. induction l1 as [|a t IH]; intros [|b l2]; simpl; intros H;
    try reflexivity; try discriminate.
  f_equal. apply IH. lia.
Qed.

Lemma filter_key_single {B : Type} (l : list (nat * B)) (e : nat * B) :
  NoDup (map fst l) -> In e l -> filter (fun x => Nat.eqb (fst x) (fst e)) l = [e].
Proof.
  induction l as [|a t IH]; simpl; intros N H; [contradiction|].
  inversion N as [|? ? Na Nt]; subst. destruct H as [->|H].
  - rewrite Nat.eqb_refl. f_equal. apply filter_none. intros x Hx.
    apply Nat.eqb_neq. intros E. apply Na. rewrite <- E. now apply in_map.
  - replace (Nat.eqb (fst a) (fst e)) with false; [now apply IH|].
    symmetry. apply Nat.eqb_neq. intros E. apply Na. rewrite E. now apply in_map.
Qed.

(** A merge on a key that every row finds once keeps the rows, one for
    one. *)
Lemma merge_info_rows (infos : list (nat * PortInfo)) (frame : list Track) :
  NoDup (map fst infos) ->
  (forall t, In t frame -> In (t_id t) (map fst infos)) ->
  exists info_of : nat -> PortInfo,
    (forall e, In e infos -> info_of (fst e) = snd e) /\
    merge_info infos frame
    = map (fun t => mkRoute (t_ping t) (t_id t) (info_of (t_id t))) frame.
Proof.
  intros N C.
  set (info_of := fun v => match filter (fun x : nat * PortInfo => Nat.eqb (fst x) v) infos with
                           | e :: _ => snd e
                           | [] => mkPortInfo EmptyString 0 0 EmptyString 0 0 0
                           end).
  assert (I : forall e, In e infos -> info_of (fst e) = snd e).
  { intros e He. unfold info_of. now rewrite (filter_key_single infos e N He). }
  exists info_of. split; [exact I|].
  unfold merge_info. induction frame as [|t rest IH]; simpl; [reflexivity|].
  rewrite IH by (intros; apply C; now right). 
  destruct (proj1 (in_map_iff _ _ _) (C t (or_introl eq_refl))) as (e & E & He).
  rewrite <- E, (filter_key_single infos e N He). simpl. now rewrite (I e He).
Qed.

Lemma infos_of_bound {X P : Type} (bounds : list (nat * X)) (froms tos : list P)
  (F T : nat * X -> P -> Prop) (h : P * P -> PortInfo) (b : nat * X) :
  Forall2 F bounds froms -> Forall2 T bounds tos -> In b bounds ->
  exists pf pt, F b pf /\ T b pt /\
                In (fst b, h (pf, pt)) (combine (map fst bounds) (map h (combine froms tos))).
Proof.
  intros HF. revert tos. induction HF as [|c pf bounds froms Hc HF IH]; intros tos HT H.
  - contradiction.
  - inversion HT as [|? pt ? tos' Hc' HT']; subst. destruct H as [->|H].
    + exists pf, pt. simpl. auto.
    + destruct (IH _ HT' H) as (pf' & pt' & A & B & C).
      exists pf', pt'. simpl. auto.
Qed.

Lemma ships_ping_sorted (ais_data : list Ping) :
  StronglySorted (fun a b => (fst a < fst b)%Z /\ ping_leb (snd a) (snd b) = true)
                 (ships ais_data).
Proof.
  unfold ships, reset_index.
  pose proof (sort_by_Sorted Ping ping_leb ping_leb_total ping_leb_trans ais_data) as S.
  exact (index_from_sorted (fun p q => ping_leb p q = true) _ 0%Z S).
Qed.

Lemma ships_pings (ais_data : list Ping) (l : Z) (p : Ping) :
  In (l, p) (ships ais_data) -> In p ais_data.
Proof.
  intros H. apply (sort_by_In ping_leb). unfold ships, reset_index in H.
  apply (index_from_row _ 0%Z). now exists l.
Qed.

Section Stored.

Variables (ais_data : list Ping) (ports : list Port) (speed_limit : float).

Local Abbreviation ships' := (ships ais_data).
Local Abbreviation in_port' := (in_port ais_data ports).
Local Abbreviation rs := (routes ais_data ports speed_limit).
Local Abbreviation rp := (route_port ais_data ports speed_limit).
Local Abbreviation from_to' := (from_to ais_data ports speed_limit).

Lemma route_port_routes (t : Track) : In t rp -> In t rs.
Proof.
  intros H. apply rp_In in H. destruct H as [H _]. now apply rpc_In in H.
Qed.

Lemma from_to_ids : map fst from_to' = unique Nat.eqb (map t_id rp).
Proof.
  unfold from_to, first_last_index. rewrite map_map. simpl. apply map_id.
Qed.

(** The bounds of the voyage of a row that is kept. *)
Lemma from_to_row (t : Track) :
  In t rp ->
  exists x g, of_id (t_id t) rs = x :: g /\
              In (t_id t, (t_index x, t_index (last g x))) from_to'.
Proof.
  intros H. pose proof (of_id_route_port ais_data ports speed_limit t H) as E.
  destruct (of_id (t_id t) rs) as [|x g] eqn:V.
  - assert (X : In t (of_id (t_id t) rs)).
    { apply of_id_In. split; [now apply route_port_routes|reflexivity]. }
    rewrite V in X. contradiction.
  - exists x, g. split; [reflexivity|].
    unfold from_to, first_last_index. apply in_map_iff. exists (t_id t).
    split.
    + rewrite E. cbv zeta. f_equal. f_equal. apply last_map.
    + apply unique_nat_In, in_map_iff. now exists t.
Qed.

(** The stored frame has one row for every row of [route_port], in the
    same order, and the port columns depend on the id only. *)
Lemma stored_rows (frame : list Route) :
  create_routes_frame ais_data ports speed_limit = Return frame ->
  exists (pports : list PortPing) (info_of : nat -> PortInfo),
    with_centroid in_port' = Return pports /\
    frame = map (fun t => mkRoute (t_ping t) (t_id t) (info_of (t_id t))) rp /\
    forall v first last', In (v, (first, last')) from_to' ->
      exists pf pt, loc pports (first - 1) = Return pf /\
                    loc pports (last' + 1) = Return pt /\
                    info_of v = port_info pf pt.
Proof.
  unfold create_routes_frame, in_port_centroid. intros H.
  destruct (with_centroid in_port') as [pports|e'] eqn:C; simpl in H; [|discriminate].
  unfold attach_ports in H.
  destruct (mapM _ from_to') as [froms|] eqn:Ef; simpl in H; [|discriminate].
  destruct (mapM (fun ft : nat * (Z * Z) => loc pports (snd (snd ft) + 1)) from_to')
    as [tos|] eqn:Et; simpl in H; [|discriminate].
  injection H as <-. apply mapM_Return in Ef, Et.
  set (infos := combine (map fst from_to')
                  (map (fun ft : PortPing * PortPing => port_info (fst ft) (snd ft))
                       (combine froms tos))).
  assert (K : map fst infos = map fst from_to').
  { unfold infos. apply map_fst_combine.
    rewrite !length_map, length_combine.
    apply Forall2_length in Ef, Et. lia. }
  destruct (merge_info_rows infos rp) as (info_of & I & M).
  { rewrite K, from_to_ids. apply unique_NoDup. apply Nat.eqb_eq. }
  { intros t Ht. rewrite K, from_to_ids. apply unique_nat_In, in_map_iff. now exists t. }
  exists pports, info_of. split; [reflexivity|]. split; [exact M|].
  intros v first last' Hb.
  destruct (infos_of_bound from_to' froms tos _ _
              (fun ft : PortPing * PortPing => port_info (fst ft) (snd ft))
              (v, (first, last')) Ef Et Hb) as (pf & pt & Lf & Lt & Hi).
  exists pf, pt. simpl in Lf, Lt. split; [exact Lf|]. split; [exact Lt|].
  exact (I _ Hi).
Qed.

(** X10: Rows of one voyage are pings of one ship and carry one set of port
    columns. *)
Theorem voyage_of_one_ship (frame : list Route) (a b : Route) :
  create_routes_frame ais_data ports speed_limit = Return frame ->
  In a frame -> In b frame -> id a = id b ->
  mmsi (ping a) = mmsi (ping b) /\ info a = info b.
Proof.
  intros H Ha Hb E. destruct (stored_rows frame H) as (pports & info_of & _ & -> & _).
  apply in_map_iff in Ha, Hb. destruct Ha as (ta & <- & Ha), Hb as (tb & <- & Hb).
  simpl in *. split; [|now rewrite E].
  apply (same_id_same_ship ais_data ports speed_limit); auto using route_port_routes.
Qed.

(** X11: Every voyage of the stored frame has at least ten rows. *)
Theorem voyages_have_ten_points (frame : list Route) (row : Route) :
  create_routes_frame ais_data ports speed_limit = Return frame ->
  In row frame -> (10 <= List.length (voyage (id row) frame))%nat.
Proof.
  intros H Hr. destruct (stored_rows frame H) as (pports & info_of & _ & -> & _).
  apply in_map_iff in Hr. destruct Hr as (t & <- & Ht). simpl.
  unfold voyage. rewrite length_filter_map. simpl.
  change (filter (fun a : Track => Nat.eqb (t_id a) (t_id t)) rp) with (of_id (t_id t) rp).
  rewrite (of_id_route_port ais_data ports speed_limit t Ht).
  apply rp_In in Ht. destruct Ht as [Ht _]. apply rpc_In in Ht. apply Ht.
Qed.

(** X12: The stored frame is ordered by ship, the MMSI compared as text (the
    ship ["100"] comes before the ship ["99"]), and then by time, the merge
    keeping the order of the rows, and the voyage ids go up along it. *)
Theorem stored_frame_sorted (frame : list Route) :
  create_routes_frame ais_data ports speed_limit = Return frame ->
  StronglySorted (fun a b => ping_leb (ping a) (ping b) = true /\ (id a <= id b)%nat)
                 frame.
Proof.
  intros H. destruct (stored_rows frame H) as (pports & info_of & _ & -> & _).
  apply StronglySorted_map. simpl.
  unfold route_port, drop_ids, route_port_counted, at_least.
  apply StronglySorted_filter, StronglySorted_filter.
  pose proof (StronglySorted_In _ _ (routes_sorted ais_data ports speed_limit)) as S.
  revert S. apply StronglySorted_impl. intros a b ((L & _ & I) & Ha & Hb).
  split; [|exact I].
  apply (routes_ships ais_data ports speed_limit) in Ha, Hb.
  destruct Ha as [Ha _], Hb as [Hb _].
  exact (sorted_by_label (fun p q => ping_leb p q = true) ships' _ _
           (ships_ping_sorted ais_data) Ha Hb L).
Qed.

(** X13: The arrival time that a row carries is not before the time of the row:
    it is the time of a later ping of the same ship. *)
Theorem arrival_after_the_voyage (frame : list Route) (row : Route) :
  create_routes_frame ais_data ports speed_limit = Return frame ->
  In row frame -> (time (ping row) <= to_time (info row))%Z.
Proof.
  intros H Hr. destruct (stored_rows frame H) as (pports & info_of & C & -> & B).
  apply in_map_iff in Hr. destruct Hr as (t & <- & Ht). simpl.
  destruct (from_to_row t Ht) as (x & g & V & Hb).
  destruct (B _ _ _ Hb) as (pf & pt & _ & Lt & ->). simpl.
  apply loc_Return in Lt. destruct Lt as [Hpt Ipt].
  destruct (with_centroid_rows _ _ C) as [_ R2].
  destruct (R2 pt Hpt) as (r & Hr & Ir & Pr & _). rewrite Pr.
  destruct (in_port_ships ais_data ports r Hr) as [Sr _].
  destruct (ping_after ais_data ports speed_limit t x g Ht V) as (p & Sp & Mp & _).
  assert (E : (t_index (last g x) + 1, p)%Z = (ip_index r, ip_ping r)).
  { apply (sorted_label_unique (fun p q => ping_leb p q = true) ships');
      auto using ships_ping_sorted. simpl. congruence. }
  injection E as El ->.
  pose proof (route_port_routes t Ht) as Hs.
  pose proof (voyage_labels ais_data ports speed_limit t x g V t Hs eq_refl) as [_ L].
  destruct (routes_ships ais_data ports speed_limit t Hs) as [St _].
  assert (P : ping_leb (t_ping t) (ip_ping r) = true).
  { apply (sorted_by_label (fun p q => ping_leb p q = true) ships' (t_index t, t_ping t)
             (ip_index r, ip_ping r) (ships_ping_sorted ais_data) St Sr).
    simpl. lia. }
  apply ping_leb_spec in P. rewrite Mp in P. destruct P as [P|[_ P]]; [|exact P].
  rewrite text_ltb_irrefl in P. discriminate.
Qed.


End Stored.

(** ** A voyage is an unbroken run of pings *)

Lemma sorted_segment {A : Type} (R : A -> A -> Prop) (l1 l2 l3 : list A) (x y w : A) :
  StronglySorted R (l1 ++ x :: l2 ++ y :: l3) -> In w (x :: l2 ++ [y]) ->
  (w = x \/ R x w) /\ (w = y \/ R w y).
Proof.
  intros S H.
  assert (Rxy : R x y).
  { apply (StronglySorted_split R l1 _ x S). apply in_or_app. right. now left. }
  destruct H as [<-|H]; [auto|]. apply in_app_or in H. destruct H as [H|[<-|[]]]; [|auto].
  split; right.
  - apply (StronglySorted_split R l1 _ x S). apply in_or_app. now left.
  - apply in_split in H. destruct H as (m1 & m2 & ->).
    apply (StronglySorted_split R (l1 ++ x :: m1) (m2 ++ y :: l3) w).
    + rewrite <- app_assoc. simpl. rewrite <- app_assoc in S. exact S.
    + apply in_or_app. right. now left.
Qed.

(** Between two rows of one run every label is taken, by a row of that
    run. *)
Lemma run_block (rows : list (Z * Ping)) (prev : option (Z * Ping)) (acc : nat)
  (z2 z1 z3 : list (nat * (Z * Ping))) (x y : nat * (Z * Ping)) :
  combine (run_labels index_gap prev acc rows) rows = z1 ++ x :: z2 ++ y :: z3 ->
  StronglySorted (fun u v => (fst u <= fst v)%nat) (z1 ++ x :: z2 ++ y :: z3) ->
  fst x = fst y ->
  forall l, (fst (snd x) <= l <= fst (snd y))%Z ->
  exists w, In w (x :: z2 ++ [y]) /\ fst (snd w) = l /\ fst w = fst x.
Proof.
  revert z1 x. induction z2 as [|w z2 IH]; intros z1 x E S F l L.
  - simpl in *. pose proof (run_labels_adjacent _ _ _ _ _ _ _ _ E) as A.
    unfold index_gap in A. rewrite <- F in A.
    destruct (Z.eqb (fst (snd y)) (fst (snd x) + 1)) eqn:G; simpl in A; [|lia].
    apply Z.eqb_eq in G.
    destruct (Z.eq_dec l (fst (snd x))) as [->|N].
    + exists x. auto.
    + exists y. split; [auto|]. split; [lia|congruence].
  - simpl in E, S.
    pose proof (run_labels_adjacent _ _ _ _ _ _ _ _ E) as A.
    assert (Lw : (fst x <= fst w)%nat).
    { apply (StronglySorted_split _ z1 _ x S). now left. }
    assert (Uw : (fst w <= fst y)%nat).
    { apply (StronglySorted_split (fun u v : nat * (Z * Ping) => (fst u <= fst v)%nat)
               (z1 ++ [x]) (z2 ++ y :: z3) w).
      - rewrite <- app_assoc. exact S.
      - apply in_or_app. right. now left. }
    unfold index_gap in A.
    destruct (Z.eqb (fst (snd w)) (fst (snd x) + 1)) eqn:G; simpl in A; [|lia].
    apply Z.eqb_eq in G.
    destruct (Z.eq_dec l (fst (snd x))) as [->|N].
    + exists x. split; [now left|auto].
    + destruct (IH (z1 ++ [x]) w) with (l := l) as (w' & Hw & Ew & Fw).
      * rewrite <- app_assoc. exact E.
      * rewrite <- app_assoc. exact S.
      * lia.
      * lia.
      * exists w'. split; [now right|]. split; [assumption|congruence].
Qed.

Section Unbroken.

Variables (ais_data : list Ping) (ports : list Port) (speed_limit : float).

Local Abbreviation ships' := (ships ais_data).
Local Abbreviation rs := (routes ais_data ports speed_limit).
Local Abbreviation rp := (route_port ais_data ports speed_limit).
Local Abbreviation tagged' := (tagged ais_data ports speed_limit).
Local Abbreviation track_of' := (track_of ais_data ports speed_limit).

(** Whether a row of [routes] is kept depends on its id only. *)
Lemma route_port_by_id (a c : Track) :
  In a rp -> In c rs -> t_id c = t_id a -> In c rp.
Proof.
  intros Ha Hc E. apply rp_In in Ha. destruct Ha as [Ha N]. apply rpc_In in Ha.
  apply rp_In. rewrite E. split; [|assumption]. apply rpc_In. rewrite E. prop.
Qed.

(** X15: Every ping whose label lies between the labels of two rows of a voyage
    is a row of that voyage: a voyage has no gap, and no ping of another
    ship in it. *)
Theorem voyage_unbroken (a b : Track) (l : Z) (p : Ping) :
  In a rp -> In b rp -> t_id a = t_id b ->
  (t_index a <= l <= t_index b)%Z -> In (l, p) ships' ->
  In (mkTrack l p (t_id a)) rp.
Proof.
  intros Ha Hb E L Hl.
  assert (Hsa : In a rs).
  { apply rp_In in Ha. destruct Ha as [Ha _]. now apply rpc_In in Ha. }
  assert (Hsb : In b rs).
  { apply rp_In in Hb. destruct Hb as [Hb _]. now apply rpc_In in Hb. }
  assert (U : forall w xa, In w tagged' -> fst (snd w) = l ->
                           In xa tagged' -> track_of' xa = a -> key_of w = key_of xa ->
                           In (mkTrack l p (t_id a)) rp).
  { intros w xa Hw Ew Hxa Ta K.
    assert (Hc : In (track_of' w) rs).
    { rewrite (routes_tagged ais_data ports speed_limit). now apply in_map. }
    assert (Ec : t_id (track_of' w) = t_id a).
    { rewrite <- Ta. apply (same_id ais_data ports speed_limit); assumption. }
    destruct (routes_ships ais_data ports speed_limit _ Hc) as [Sc _].
    simpl in Sc. rewrite Ew in Sc.
    assert (P : (l, snd (snd w)) = (l, p)).
    { apply (sorted_label_unique (fun p q => text_le (mmsi p) (mmsi q)) ships');
        auto using ships_sorted. }
    injection P as P.
    replace (mkTrack l p (t_id a)) with (track_of' w).
    - now apply (route_port_by_id a).
    - unfold track_of in *. simpl in *. rewrite Ew, P. f_equal. exact Ec. }
  destruct (routes_rows ais_data ports speed_limit a Hsa) as (xa & Hxa & Ta & Sa).
  destruct (routes_rows ais_data ports speed_limit b Hsb) as (xb & Hxb & Tb & Sb).
  assert (K : key_of xa = key_of xb).
  { apply (same_id ais_data ports speed_limit); [assumption..|]. now rewrite Ta, Tb. }
  destruct (Z.eq_dec (t_index a) (t_index b)) as [D|D].
  - apply (U xa xa); auto. rewrite Sa. simpl. lia.
  - destruct (sorted_between (fun z : nat * (Z * Ping) => fst (snd z)) tagged' xa xb)
      as (l1 & l2 & l3 & Et & _); auto using tagged_label_sorted.
    { rewrite Sa, Sb. simpl. lia. }
    pose proof (tagged_sorted ais_data ports speed_limit) as S. rewrite Et in S.
    assert (F : fst xa = fst xb) by (unfold key_of in K; congruence).
    destruct (run_block (routes_index ais_data ports speed_limit) None 0 l2 l1 l3 xa xb)
      with (l := l) as (w & Hw & Ew & Fw).
    + exact Et.
    + revert S. apply StronglySorted_impl. prop.
    + exact F.
    + rewrite Sa, Sb. simpl. lia.
    + assert (Hwt : In w tagged').
      { rewrite Et. apply in_or_app. right. destruct Hw as [<-|Hw]; [now left|].
        right. apply in_app_or in Hw. apply in_or_app.
        destruct Hw as [Hw|[<-|[]]]; [now left|right; now left]. }
      destruct (sorted_segment _ l1 l2 l3 xa xb w S Hw) as [M1 M2].
      assert (M : mmsi (snd (snd w)) = mmsi (snd (snd xa))).
      { assert (mmsi (snd (snd xa)) = mmsi (snd (snd xb))) by (unfold key_of in K; congruence).
        destruct M1 as [->|M1]; [reflexivity|]. destruct M2 as [->|M2]; [congruence|].
        destruct M1 as (_ & _ & M1), M2 as (_ & _ & M2).
        now apply (text_le_between _ _ (mmsi (snd (snd xb)))). }
      apply (U w xa); auto. unfold key_of. congruence.
Qed.

End Unbroken.

(** ** The waypoints that come out *)

Lemma wkey_leb_spec (a b : WKey) :
  wkey_leb a b = true <->
  (fst a < fst b)%nat \/ (fst a = fst b /\ (snd a <= snd b)%Z).
Proof.
  unfold wkey_leb.
  rewrite orb_true_iff, andb_true_iff, Nat.ltb_lt, Nat.eqb_eq, Z.leb_le. reflexivity.
Qed.

Lemma wkey_leb_total (a b : WKey) : wkey_leb a b = true \/ wkey_leb b a = true.
Proof. rewrite !wkey_leb_spec. lia. Qed.

Lemma wkey_leb_trans (a b c : WKey) :
  wkey_leb a b = true -> wkey_leb b c = true -> wkey_leb a c = true.
Proof. rewrite !wkey_leb_spec. lia. Qed.

Lemma wkey_leb_refl (a : WKey) : wkey_leb a a = true.
Proof. rewrite wkey_leb_spec. lia. Qed.

(** Rows made from a sorted list of keys, some for every key, are sorted by
    their key. *)
Lemma StronglySorted_flat_map {A B K : Type} (R : K -> K -> Prop) (key : B -> K)
  (ka : A -> K) (f : A -> list B) (l : list A) :
  (forall a b, In b (f a) -> key b = ka a) ->
  (forall k, R k k) ->
  StronglySorted (fun x y => R (ka x) (ka y)) l ->
  StronglySorted (fun x y => R (key x) (key y)) (flat_map f l).
Proof.
  intros Hk Hr S. induction S as [|a t S IH F]; simpl; [constructor|].
  apply StronglySorted_app.
  - assert (E : forall b, In b (f a) -> key b = ka a) by (intros; now apply Hk).
    induction (f a) as [|b u IHu]; constructor.
    + apply IHu. intros; apply E; now right.
    + apply Forall_forall. intros c Hc.
      rewrite (E b), (E c) by (simpl; auto). apply Hr.
  - exact IH.
  - intros x y Hx Hy. apply in_flat_map in Hy. destruct Hy as (a' & Ha' & Hy).
    rewrite (Hk a x Hx), (Hk a' y Hy). rewrite Forall_forall in F. now apply F.
Qed.

(** X16: The waypoints come out ordered by voyage and, within a voyage, by
    time. *)
Theorem waypoints_sorted (route : list Route) (points : Z) :
  StronglySorted
    (fun a b => wkey_leb (id a, time (ping a)) (id b, time (ping b)) = true)
    (waypoints_frame route points).
Proof.
  unfold waypoints_frame.
  apply (StronglySorted_flat_map (fun a b : WKey => wkey_leb a b = true)
           (fun w : Route => (id w, time (ping w)))
           (fun w : WKey * (float * float * float * float) => fst w)).
  - intros [k [[[la lo] sg] cg]] b H. apply in_map_iff in H.
    destruct H as (e & <- & _). simpl. now destruct k.
  - apply wkey_leb_refl.
  - unfold bucket_means. apply StronglySorted_map. simpl.
    apply sort_by_Sorted; [apply wkey_leb_total|apply wkey_leb_trans].
Qed.

(** X17: [create_waypoints] invents no voyage: every waypoint has the id and the
    port columns of a row of [interpolated_routes]. *)
Theorem waypoints_of_known_voyages (waypoint_amount : Z) (routes interpolated out : list Route) :
  create_waypoints_frame waypoint_amount routes interpolated = Return out ->
  forall w, In w out -> exists g, In g interpolated /\ id g = id w /\ info g = info w.
Proof.
  unfold create_waypoints_frame, interpolated_local.
  destruct (new_interval _ _) as [iv|e]; simpl; [|discriminate].
  destruct (interpolate iv _) as [new_inter|e] eqn:I; simpl; [|discriminate].
  intros [= <-] w Hw.
  assert (L : exists r, In r (new_inter ++ without_ids
                 (unique Nat.eqb
                    (map (fun rl : Route * Z => id (fst rl))
                       (short_routes waypoint_amount routes interpolated)))
                 interpolated) /\ id r = id w /\ info r = info w).
  { unfold waypoints_frame in Hw. apply in_flat_map in Hw.
    destruct Hw as ([k [[[la lo] sg] cg]] & _ & Hw). apply in_map_iff in Hw.
    destruct Hw as ([[i m] inf] & <- & He). apply filter_In in He.
    destruct He as [He Ei]. simpl in Ei. apply Nat.eqb_eq in Ei. simpl.
    unfold static_columns in He. apply drop_duplicates_incl, in_map_iff in He.
    destruct He as (r & E & Hr). injection E as <- _ <-. exists r. auto. }
  destruct L as (r & Hr & Ei & Ef). apply in_app_or in Hr. destruct Hr as [Hr|Hr].
  - unfold interpolate in I. destruct (resample iv _) as [samples|e]; simpl in I;
      [|discriminate].
    injection I as <-. unfold merge_locode in Hr. apply in_flat_map in Hr.
    destruct Hr as (s & _ & Hr). apply in_map_iff in Hr. destruct Hr as (e & <- & He).
    apply filter_In in He. destruct He as [He Es]. apply Nat.eqb_eq in Es.
    apply id_locode_In in He. destruct He as (r' & Hr' & Ei' & Ef' & _).
    apply in_map_iff in Hr'. destruct Hr' as ([g len] & <- & Hg).
    unfold at_least_30 in Hg. apply filter_In in Hg. destruct Hg as [Hg _].
    apply short_routes_In in Hg. destruct Hg as [Hg _].
    exists g. simpl in *. split; [assumption|]. split; congruence.
  - apply without_ids_In in Hr. destruct Hr as [Hr _]. exists r. auto.
Qed.

(** ** Stays of one ping *)

(** A distance that is not negative, over a time of zero seconds, gives a
    speed that is infinite or no number, and never at or under a finite
    limit. *)
Lemma speed_over_no_time (h limit : float) :
  PrimFloat.ltb h 0 = false ->
  PrimFloat.ltb limit infinity = true ->
  PrimFloat.leb (h / (float_of_Z 0 / 3600) * 0x1.1475a31a4bdbap-1)%float limit = false.
Proof.
  rewrite !ltb_spec, leb_spec, mul_spec, div_spec.
  replace (Prim2SF (float_of_Z 0 / 3600)%float) with (S754_zero false) by reflexivity.
  replace (Prim2SF 0x1.1475a31a4bdbap-1%float)
    with (S754_finite false 4863527309589946 (-53)) by reflexivity.
  replace (Prim2SF 0) with (S754_zero false) by reflexivity.
  replace (Prim2SF infinity) with (S754_infinity false) by reflexivity.
  unfold SF64mul, SF64div, SFltb, SFleb.
  destruct (Prim2SF h) as [s|s| |s m e]; simpl;
    try (intros _ _; reflexivity);
    destruct s; simpl; try discriminate; intros _;
    destruct (Prim2SF limit) as [s'|s'| |s' m' e']; simpl;
    try destruct s'; simpl; intros H; try discriminate H; reflexivity.
Qed.

(** The stay of a group of one row starts and ends at one time. *)
Lemma single_ping_times (g : list InPort) :
  List.length (index_list (agg_dwell g)) = 1%nat ->
  time_first (agg_dwell g) = time_last (agg_dwell g).
Proof.
  simpl. rewrite length_map. destruct g as [|r [|r' g]]; simpl; try discriminate.
  reflexivity.
Qed.

(** X19: A stay in a port polygon that consists of one ping is never a dock
    event, whatever the finite speed limit: its time span is zero, the
    division gives an infinite speed or no number, and the comparison with
    the limit fails.  The ping counts as passing through. *)
Theorem single_ping_stay_is_no_dock_event (ais_data : list Ping) (ports : list Port)
  (speed_limit : float) (d : Dwell) :
  In d (times ais_data ports) ->
  List.length (index_list d) = 1%nat ->
  PrimFloat.ltb (haversine (lat_first d, long_first d) (lat_last d, long_last d)) 0 = false ->
  PrimFloat.ltb speed_limit infinity = true ->
  docked speed_limit d = false /\
  In d (time_out_port ais_data ports speed_limit) /\
  ~ In d (time_in_port ais_data ports speed_limit).
Proof.
  intros Hd L H F.
  assert (T : time_first d = time_last d).
  { unfold times, dwell_groups in Hd. apply in_map_iff in Hd.
    destruct Hd as (k & <- & _). now apply single_ping_times. }
  assert (D : docked speed_limit d = false).
  { unfold docked, speed. rewrite T, Z.sub_diag. now apply speed_over_no_time. }
  split; [exact D|]. unfold time_out_port, time_in_port. rewrite !filter_In, D.
  split; [auto|]. intros [_ X]. discriminate.
Qed.

(** ** From [create_routes] to [clean_data] *)

Lemma filter_filter {A : Type} (p q : A -> bool) (l : list A) :
  filter p (filter q l) = filter (fun x => q x && p x) l.
Proof.
  induction l as [|a t IH]; simpl; [reflexivity|].
  destruct (q a); simpl; [|assumption]. destruct (p a); now rewrite IH.
Qed.

Lemma voyage_of_kept (keep : nat -> bool) (frame : list Route) (row : Route) :
  In row (filter (fun r => keep (id r)) frame) ->
  voyage (id row) (filter (fun r => keep (id r)) frame) = voyage (id row) frame.
Proof.
  intros H. apply filter_In in H. destruct H as [_ K].
  unfold voyage. rewrite filter_filter. apply filter_ext. intros x.
  destruct (Nat.eqb (id x) (id row)) eqn:E; [|apply andb_false_r].
  apply Nat.eqb_eq in E. now rewrite E, K.
Qed.

(** X20: The routes that are left after [create_routes],
    [remove_routes_outside_polygon], [interpolate_routes] and [clean_data]
    are whole voyages of the frame that [create_routes] made: the stages in
    between drop voyages, and never a row of a voyage that stays. *)
Theorem cleaned_routes_are_whole_voyages (speed_limit : float) (interval_s : Z)
  (threshold : float) (interval_day : Z) (speed : float) (self self' : clean_ais) :
  run_all [CreateRoutes speed_limit; RemoveRoutesOutsidePolygon;
           InterpolateRoutes interval_s; CleanData threshold interval_day speed] self
  = returns self' ->
  exists ais_data ports frame keep,
    self_ais_data self = Some ais_data /\ self_ports self = Some ports /\
    create_routes_frame ais_data ports speed_limit = Return frame /\
    self_routes self' = Some (filter (fun r => keep (id r)) frame) /\
    forall row, In row (filter (fun r => keep (id r)) frame) ->
                voyage (id row) (filter (fun r => keep (id r)) frame)
                = voyage (id row) frame.
Proof.
  unfold run_all, run, returns, raises.
  unfold create_routes.
  destruct (self_ais_data self) as [ais|] eqn:Ea; [|discriminate].
  destruct (self_ports self) as [ports|] eqn:Ep; [|discriminate].
  destruct (create_routes_frame ais ports speed_limit) as [frame|e] eqn:E1;
    [|discriminate].
  unfold returns, remove_routes_outside_polygon. simpl.
  destruct (self_polygon self) as [area|]; [|discriminate].
  unfold returns, interpolate_routes. simpl.
  destruct (interpolate interval_s (remove_outside area frame)) as [grid|e] eqn:E2;
    [|discriminate].
  unfold returns, clean_data. simpl.
  destruct (clean_data_frames threshold interval_day speed (remove_outside area frame, grid))
    as [out|e] eqn:E3; [|discriminate].
  unfold returns. intros [= <-]. simpl.
  unfold clean_data_frames, distance_pass in E3. simpl in E3.
  destruct (interpolate interval_day grid) as [day|e]; simpl in E3; [|discriminate].
  injection E3 as <-. unfold speed_pass. simpl.
  set (a := slow_ids speed _). set (b := stationary_ids threshold day).
  set (c := ids_outside area frame).
  exists ais, ports, frame,
    (fun i => negb (mem_nat i c) && (negb (mem_nat i b) && negb (mem_nat i a))).
  split; [reflexivity|]. split; [reflexivity|]. split; [exact E1|]. split.
  - f_equal. unfold remove_outside. fold c. rewrite without_ids_twice.
    unfold without_ids. apply filter_filter.
  - intros row.
    exact (voyage_of_kept
             (fun i => negb (mem_nat i c) && (negb (mem_nat i b) && negb (mem_nat i a)))
             frame row).
Qed.

End Pipeline.

(** * The properties on concrete frames *)

(** ** The voyage segmenter on the synthetic ship *)




Lemma voyage_ports_found_witness :
  In (1%nat, (15, 26)%Z) (from_to in_box flat_distance synthetic harbours 3) /\
  exists m,
    (forall t, In t (route_port in_box flat_distance synthetic harbours 3) ->
               t_id t = 1%nat -> mmsi (t_ping t) = m) /\
    docked_ping in_box flat_distance synthetic harbours 3 m (15 - 1) /\
    docked_ping in_box flat_distance synthetic harbours 3 m (26 + 1).
Proof.
  split; [vm_compute; left; reflexivity|].
  apply (proj1 (proj2 (voyage_ports_found in_box flat_distance synthetic harbours 3))).
  vm_compute. left. reflexivity.
Defined.

Lemma first_match_wins_witness :
  In (mkInPort 0 (in_aarhus 0) (mkPort "Aarhus" "DKAAR" [(0, 0); (1, 0); (1, 1); (0, 1)]%float))
     (in_port in_box [in_aarhus 0] overlapping) /\
  reported in_box [in_aarhus 0] overlapping 0 0 /\
  reported in_box [in_aarhus 0] overlapping 0 1 /\
  In (Some 0%Z, 0%Z) (exploded_masks in_box [in_aarhus 0] overlapping) /\
  row_at overlapping 0
  = Some (mkPort "Aarhus" "DKAAR" [(0, 0); (1, 0); (1, 1); (0, 1)]%float).
Proof.
  assert (H : In (Some 0%Z, 0%Z) (exploded_masks in_box [in_aarhus 0] overlapping))
    by (vm_compute; left; reflexivity).
  assert (R : In (mkInPort 0 (in_aarhus 0)
                    (mkPort "Aarhus" "DKAAR" [(0, 0); (1, 0); (1, 1); (0, 1)]%float))
                 (in_port in_box [in_aarhus 0] overlapping))
    by (vm_compute; left; reflexivity).
  split; [exact R|].
  split; [exists [0%Z]; split; vm_compute; left; reflexivity|].
  split; [exists [0%Z]; split; vm_compute; [right; left|left]; reflexivity|].
  split; [exact H|].
  exact (proj2 (proj2 (first_match_wins in_box [in_aarhus 0] overlapping 0 0)) _ R eq_refl H).
Defined.

(** ** The quality filter on small frames *)

(** C3: [clean_data] does not do what its docstring says, "removes data which
    havent moved threshold km interval time".  The two points of [becalmed]
    are the successive grid points of one trip, a day apart and at one
    position: their distance is zero, under the threshold of ten kilometres.
    Their speed over ground is missing, [dropna] drops the pair before any
    distance is measured, and the stage returns with the trip still in both
    frames of the object.  The same trip with a speed, [moored], is removed
    from both. *)
Lemma becalmed_kept :
  interpolate on_grid 86400 becalmed = Return becalmed /\
  consecutive becalmed (grid_point 3 0 55 10 PrimFloat.nan)
                       (grid_point 3 86400 55 10 PrimFloat.nan) /\
  PrimFloat.ltb (flat_distance (55, 10)%float (55, 10)%float) 10 = true /\
  pair_complete (grid_point 3 0 55 10 PrimFloat.nan)
                (grid_point 3 86400 55 10 PrimFloat.nan) = false /\
  distance_pass flat_distance on_grid 10 86400 (becalmed, becalmed)
  = Return (becalmed, becalmed) /\
  run in_box flat_distance on_grid plain_mean (CleanData 10 86400 0.5)
      (holding becalmed becalmed)
  = returns (holding becalmed becalmed) /\
  self_routes (fst (run in_box flat_distance on_grid plain_mean (CleanData 10 86400 0.5)
                        (holding becalmed becalmed))) = Some becalmed /\
  self_interpolated_routes
    (fst (run in_box flat_distance on_grid plain_mean (CleanData 10 86400 0.5)
              (holding becalmed becalmed))) = Some becalmed /\
  run in_box flat_distance on_grid plain_mean (CleanData 10 86400 0.5)
      (holding moored moored)
  = returns (holding [] []).
Proof.
  assert (S : run in_box flat_distance on_grid plain_mean (CleanData 10 86400 0.5)
                  (holding becalmed becalmed)
              = returns (holding becalmed becalmed)) by (vm_compute; reflexivity).
  split; [vm_compute; reflexivity|]. split.
  { exists [], [], []. split; [reflexivity|]. split; [reflexivity|]. intros x []. }
  split; [vm_compute; reflexivity|]. split; [vm_compute; reflexivity|].
  split; [vm_compute; reflexivity|]. split; [exact S|]. rewrite S.
  split; [reflexivity|]. split; [reflexivity|]. vm_compute. reflexivity.
Qed.

Lemma distance_pass_filter_witness :
  interpolate on_grid 86400 moored = Return moored /\
  exists out,
    distance_pass flat_distance on_grid 10 86400 (moored, moored) = Return out /\
    forall r,
      (In r (fst out) <-> In r moored /\ ~ close_pair flat_distance 10 moored (id r)) /\
      (In r (snd out) <-> In r moored /\ ~ close_pair flat_distance 10 moored (id r)).
Proof.
  split; [vm_compute; reflexivity|].
  apply (distance_pass_filter flat_distance on_grid 10 86400 moored moored moored).
  vm_compute. reflexivity.
Defined.

Lemma clean_data_speed_filter_witness :
  self_routes (holding two_trips two_trips) = Some two_trips /\
  self_interpolated_routes (holding two_trips two_trips) = Some two_trips /\
  distance_pass flat_distance on_grid 10 86400 (two_trips, two_trips)
  = Return (two_trips, two_trips) /\
  exists out,
    clean_data_frames flat_distance on_grid 10 86400 0.5 (two_trips, two_trips)
    = Return out /\
    run in_box flat_distance on_grid plain_mean (CleanData 10 86400 0.5)
        (holding two_trips two_trips)
    = returns (set_interpolated_routes
                 (set_routes (holding two_trips two_trips) (fst out)) (snd out)) /\
    self_routes (fst (run in_box flat_distance on_grid plain_mean (CleanData 10 86400 0.5)
                          (holding two_trips two_trips))) = Some (fst out) /\
    self_interpolated_routes
      (fst (run in_box flat_distance on_grid plain_mean (CleanData 10 86400 0.5)
                (holding two_trips two_trips))) = Some (snd out) /\
    forall r,
      (In r (fst out) <-> In r two_trips /\ ~ has_slow_point 0.5 two_trips (id r)) /\
      (In r (snd out) <-> In r two_trips /\ ~ has_slow_point 0.5 two_trips (id r)).
Proof.
  split; [reflexivity|]. split; [reflexivity|].
  split; [vm_compute; reflexivity|].
  apply (clean_data_speed_filter in_box flat_distance on_grid plain_mean 10 86400 0.5
           (holding two_trips two_trips) two_trips two_trips (two_trips, two_trips)).
  - reflexivity.
  - reflexivity.
  - vm_compute. reflexivity.
Defined.

(** ** Missing artifacts on a fresh object *)

Lemma missing_artifact_raises_witness :
  In Routes (required (CleanData 10 86400 0.5)) /\
  absent Routes init = true /\
  exists b, In b (required (CleanData 10 86400 0.5)) /\ absent b init = true /\
            run in_box flat_distance on_grid plain_mean (CleanData 10 86400 0.5) init
            = raises init (NotdefinedError (artifact_name b)).
Proof.
  split; [simpl; auto|]. split; [reflexivity|].
  apply (missing_artifact_raises in_box flat_distance on_grid plain_mean
           (CleanData 10 86400 0.5) init Routes); [simpl; auto|reflexivity].
Defined.

(** ** Waypoints on small frames *)

Lemma short_voyage_divides_by_zero_witness :
  In (grid_point 5 1000 55 10 9) instant /\
  (duration 5 instant < 100 - 1)%Z /\
  bucket_width 100 5 instant = Some 0%Z /\
  floordiv (1000 - day_floor 5 instant) (bucket_width 100 5 instant) = None /\
  s_group 100 instant (grid_point 5 1000 55 10 9) = None /\
  forall w, In w (waypoints_frame plain_mean instant 100) -> id w <> 5%nat.
Proof.
  split; [left; reflexivity|]. split; [vm_compute; reflexivity|].
  apply (short_voyage_divides_by_zero plain_mean 100 instant (grid_point 5 1000 55 10 9));
    [left; reflexivity|vm_compute; reflexivity].
Defined.

(** C6, as stated, fails on its last part: with a target of four points,
    the trip of a hundred seconds gets the width 33 and five waypoints. *)
Lemma five_waypoints_for_four :
  bucket_width 4 6 hundred_seconds = Some 33%Z /\
  map (fun w => (id w, time (ping w))) (waypoints_frame plain_mean hundred_seconds 4)
  = [(6%nat, 0%Z); (6%nat, 33%Z); (6%nat, 66%Z); (6%nat, 99%Z); (6%nat, 132%Z)] /\
  (4 < Z.of_nat (List.length (waypoints_frame plain_mean hundred_seconds 4)))%Z.
Proof. repeat split; vm_compute; reflexivity. Qed.

Lemma waypoint_buckets_witness :
  (1 < 4)%Z /\ (4 - 1 <= duration 6 hundred_seconds)%Z /\
  bucket_width 4 6 hundred_seconds = Some (duration 6 hundred_seconds / (4 - 1))%Z /\
  (Z.of_nat (List.length (buckets_of plain_mean 4 hundred_seconds 6))
   <= duration 6 hundred_seconds / (duration 6 hundred_seconds / (4 - 1)) + 2)%Z.
Proof.
  assert (H1 : (1 < 4)%Z) by reflexivity.
  assert (H2 : (4 - 1 <= duration 6 hundred_seconds)%Z) by (vm_compute; discriminate).
  split; [exact H1|]. split; [exact H2|].
  destruct (waypoint_buckets plain_mean 4 hundred_seconds 6 H1 H2) as (W & _ & _ & B & _).
  split; [exact W|exact B].
Defined.

(** C4, as stated, fails: with a target of four points the trip of sixty
    minutes is resampled every 900 seconds, a quarter of its length, and not
    every twenty minutes, a third of it. *)
Lemma interval_divides_by_target :
  minutes 7 one_hour = 60%Z /\
  Z.of_nat (count_points one_hour 7) = 2%Z /\
  resampling_interval 4 one_hour one_hour = Return 900%Z /\
  (900 <> 60 * 60 / (4 - 1))%Z.
Proof. repeat split; vm_compute; congruence. Qed.

Lemma short_trips_resampled_witness :
  interpolated_local on_grid 4 one_hour one_hour = Return one_hour /\
  exists m new_inter,
    (exists r, In (r, m) (at_least_30 (short_routes 4 one_hour one_hour))) /\
    resampling_interval 4 one_hour one_hour = Return (Z.quot (m * 60) 4) /\
    interpolate on_grid (Z.quot (m * 60) 4)
                (map fst (at_least_30 (short_routes 4 one_hour one_hour)))
    = Return new_inter.
Proof.
  assert (H : interpolated_local on_grid 4 one_hour one_hour = Return one_hour)
    by (vm_compute; reflexivity).
  split; [exact H|].
  destruct (short_trips_resampled on_grid 4 one_hour one_hour one_hour H)
    as (m & new_inter & A & _ & _ & B & C & _).
  exists m, new_inter. split; [exact A|]. split; [exact B|exact C].
Defined.

(** ** The object across the stages, on the synthetic ship *)

(** [create_waypoints] on two trips that have the target number of points:
    the call raises, and the frames are as they were. *)
Lemma failed_stage_keeps_frames_witness :
  run in_box flat_distance on_grid plain_mean (CreateWaypoints 2) (holding two_trips two_trips)
  = raises (set_waypoint_amount (holding two_trips two_trips) 2) ValueError /\
  self_ais_data (set_waypoint_amount (holding two_trips two_trips) 2) = None /\
  self_ports (set_waypoint_amount (holding two_trips two_trips) 2) = None /\
  self_polygon (set_waypoint_amount (holding two_trips two_trips) 2) = None /\
  self_routes (set_waypoint_amount (holding two_trips two_trips) 2) = Some two_trips /\
  self_interpolated_routes (set_waypoint_amount (holding two_trips two_trips) 2)
  = Some two_trips /\
  self_waypoints (set_waypoint_amount (holding two_trips two_trips) 2) = None.
Proof.
  assert (H : run in_box flat_distance on_grid plain_mean (CreateWaypoints 2)
                (holding two_trips two_trips)
              = raises (set_waypoint_amount (holding two_trips two_trips) 2) ValueError)
    by (vm_compute; reflexivity).
  split; [exact H|].
  exact (failed_stage_keeps_frames in_box flat_distance on_grid plain_mean
           (CreateWaypoints 2) (holding two_trips two_trips)
           (set_waypoint_amount (holding two_trips two_trips) 2) ValueError H).
Defined.

(** [clean_example.py] on the synthetic ship: the script stops, as the one
    voyage that is left is shorter than thirty minutes, but not for a frame
    that is missing. *)
Lemma ordered_script_finds_its_frames_witness :
  ordered [AisData; Ports; Polygon] clean_example = true /\
  (forall a, In a [AisData; Ports; Polygon] ->
             absent a (imported synthetic harbours open_sea) = false) /\
  is_Notdefined
    (snd (run_all in_box flat_distance on_grid plain_mean clean_example
            (imported synthetic harbours open_sea))) = false.
Proof.
  assert (O : ordered [AisData; Ports; Polygon] clean_example = true) by reflexivity.
  assert (H : forall a, In a [AisData; Ports; Polygon] ->
                        absent a (imported synthetic harbours open_sea) = false).
  { intros a [<-|[<-|[<-|[]]]]; reflexivity. }
  split; [exact O|]. split; [exact H|].
  apply (ordered_script_finds_its_frames in_box flat_distance on_grid plain_mean)
    with (have := [AisData; Ports; Polygon]).
  - intros interval_s frame v. unfold on_grid. discriminate.
  - exact O.
  - exact H.
Defined.

(** ** Resampling and cleaning on small frames *)

Lemma interpolate_rows_witness :
  on_grid 600 (map (fun r => mkSample (id r) (ping r)) two_trips)
  = Return (map (fun r => mkSample (id r) (ping r)) two_trips) /\
  exists out,
    interpolate on_grid 600 two_trips = Return out /\
    (forall g, In g out ->
       In (mkSample (id g) (ping g)) (map (fun r => mkSample (id r) (ping r)) two_trips) /\
       info_complete (info g) = true /\
       exists r, In r two_trips /\ id r = id g /\ info r = info g) /\
    (forall s r, In s (map (fun r => mkSample (id r) (ping r)) two_trips) ->
                 In r two_trips -> id r = s_id s ->
                 info_complete (info r) = true ->
                 exists g, In g out /\ id g = s_id s /\ ping g = s_ping s) /\
    (forall i, (forall r, In r two_trips -> id r = i -> info_complete (info r) = false) ->
               forall g, In g out -> id g <> i).
Proof.
  split; [reflexivity|].
  apply (interpolate_rows on_grid 600 two_trips). reflexivity.
Defined.

Lemma clean_data_leaves_no_slow_point_witness :
  clean_data_frames flat_distance on_grid 10 86400 0.5 (two_trips, two_trips)
  = Return (skipn 2 two_trips, skipn 2 two_trips) /\
  (forall g, In g (skipn 2 two_trips) -> PrimFloat.leb (sog (ping g)) 0.5 = false) /\
  speed_pass 0.5 (skipn 2 two_trips, skipn 2 two_trips)
  = (skipn 2 two_trips, skipn 2 two_trips).
Proof.
  assert (H : clean_data_frames flat_distance on_grid 10 86400 0.5 (two_trips, two_trips)
              = Return (skipn 2 two_trips, skipn 2 two_trips))
    by (vm_compute; reflexivity).
  split; [exact H|].
  exact (clean_data_leaves_no_slow_point flat_distance on_grid 10 86400 0.5
           (two_trips, two_trips) (skipn 2 two_trips, skipn 2 two_trips) H).
Defined.

Lemma clean_data_selects_voyages_witness :
  clean_data_frames flat_distance on_grid 10 86400 0.5 (two_trips, two_trips)
  = Return (skipn 2 two_trips, skipn 2 two_trips) /\
  exists keep : nat -> bool,
    skipn 2 two_trips = filter (fun r => keep (id r)) two_trips /\
    skipn 2 two_trips = filter (fun r => keep (id r)) two_trips.
Proof.
  assert (H : clean_data_frames flat_distance on_grid 10 86400 0.5 (two_trips, two_trips)
              = Return (skipn 2 two_trips, skipn 2 two_trips))
    by (vm_compute; reflexivity).
  split; [exact H|].
  exact (clean_data_selects_voyages flat_distance on_grid 10 86400 0.5
           (two_trips, two_trips) (skipn 2 two_trips, skipn 2 two_trips) H).
Defined.

(** A trip of a hundred seconds is the only trip: it is short of points and
    under thirty minutes, and [create_waypoints] raises [ValueError] at a
    target of a hundred points.  At a target of [0] no trip is short of
    points, and it raises [ZeroDivisionError]. *)
Lemma create_waypoints_needs_short_trip_witness :
  self_routes (holding hundred_seconds hundred_seconds) = Some hundred_seconds /\
  self_interpolated_routes (holding hundred_seconds hundred_seconds) = Some hundred_seconds /\
  (forall r, In r hundred_seconds ->
             (Z.of_nat (count_points hundred_seconds (id r)) < 100)%Z ->
             (exists p, In p hundred_seconds /\ id p = id r) ->
             (minutes (id r) hundred_seconds < 30)%Z) /\
  run in_box flat_distance on_grid plain_mean (CreateWaypoints 100)
      (holding hundred_seconds hundred_seconds)
  = raises (set_waypoint_amount (holding hundred_seconds hundred_seconds) 100) ValueError /\
  run in_box flat_distance on_grid plain_mean (CreateWaypoints 0)
      (holding hundred_seconds hundred_seconds)
  = raises (set_waypoint_amount (holding hundred_seconds hundred_seconds) 0)
           ZeroDivisionError.
Proof.
  assert (H : forall r, In r hundred_seconds ->
             (Z.of_nat (count_points hundred_seconds (id r)) < 100)%Z ->
             (exists p, In p hundred_seconds /\ id p = id r) ->
             (minutes (id r) hundred_seconds < 30)%Z).
  { intros r Hr _ _.
    repeat (destruct Hr as [<-|Hr]; [vm_compute; reflexivity|]). destruct Hr. }
  assert (H0 : forall r, In r hundred_seconds ->
             (Z.of_nat (count_points hundred_seconds (id r)) < 0)%Z ->
             (exists p, In p hundred_seconds /\ id p = id r) ->
             (minutes (id r) hundred_seconds < 30)%Z).
  { intros r _ C _. lia. }
  split; [reflexivity|]. split; [reflexivity|]. split; [exact H|]. split.
  - exact (create_waypoints_needs_short_trip in_box flat_distance on_grid plain_mean 100
             (holding hundred_seconds hundred_seconds) hundred_seconds hundred_seconds
             eq_refl eq_refl H).
  - exact (create_waypoints_needs_short_trip in_box flat_distance on_grid plain_mean 0
             (holding hundred_seconds hundred_seconds) hundred_seconds hundred_seconds
             eq_refl eq_refl H0).
Defined.

(** ** The stored routes of the synthetic ship *)

Lemma synthetic_frame :
  create_routes_frame in_box flat_distance synthetic harbours 3 = Return middle_voyage.
Proof. vm_compute. reflexivity. Qed.

Lemma middle_voyage_head : In (mkRoute (at_sea 900) 1 some_ports) middle_voyage.
Proof. left. reflexivity. Qed.

Lemma middle_voyage_second : In (mkRoute (at_sea 960) 1 some_ports) middle_voyage.
Proof. right. left. reflexivity. Qed.

Lemma voyage_of_one_ship_witness :
  create_routes_frame in_box flat_distance synthetic harbours 3 = Return middle_voyage /\
  In (mkRoute (at_sea 900) 1 some_ports) middle_voyage /\
  In (mkRoute (at_sea 960) 1 some_ports) middle_voyage /\
  id (mkRoute (at_sea 900) 1 some_ports) = id (mkRoute (at_sea 960) 1 some_ports) /\
  mmsi (ping (mkRoute (at_sea 900) 1 some_ports))
  = mmsi (ping (mkRoute (at_sea 960) 1 some_ports)) /\
  info (mkRoute (at_sea 900) 1 some_ports) = info (mkRoute (at_sea 960) 1 some_ports).
Proof.
  split; [exact synthetic_frame|]. split; [exact middle_voyage_head|].
  split; [exact middle_voyage_second|]. split; [reflexivity|].
  exact (voyage_of_one_ship in_box flat_distance synthetic harbours 3 middle_voyage
           (mkRoute (at_sea 900) 1 some_ports) (mkRoute (at_sea 960) 1 some_ports)
           synthetic_frame middle_voyage_head middle_voyage_second eq_refl).
Defined.

Lemma voyages_have_ten_points_witness :
  create_routes_frame in_box flat_distance synthetic harbours 3 = Return middle_voyage /\
  In (mkRoute (at_sea 900) 1 some_ports) middle_voyage /\
  (10 <= List.length (voyage (id (mkRoute (at_sea 900) 1 some_ports)) middle_voyage))%nat.
Proof.
  split; [exact synthetic_frame|]. split; [exact middle_voyage_head|].
  exact (voyages_have_ten_points in_box flat_distance synthetic harbours 3 middle_voyage
           (mkRoute (at_sea 900) 1 some_ports) synthetic_frame middle_voyage_head).
Defined.

Lemma stored_frame_sorted_witness :
  create_routes_frame in_box flat_distance synthetic harbours 3 = Return middle_voyage /\
  StronglySorted (fun a b => ping_leb (ping a) (ping b) = true /\ (id a <= id b)%nat)
                 middle_voyage.
Proof.
  split; [exact synthetic_frame|].
  exact (stored_frame_sorted in_box flat_distance synthetic harbours 3 middle_voyage
           synthetic_frame).
Defined.

(** The MMSI is compared as text: the pings of the ship ["100"] come before
    the pings of the ship ["99"]. *)
Lemma ships_in_text_order :
  ping_leb (mkPing "100" 60 5 5 9 90) (mkPing "99" 0 5 5 9 90) = true /\
  ping_leb (mkPing "99" 0 5 5 9 90) (mkPing "100" 60 5 5 9 90) = false /\
  map (fun r => (fst r, mmsi (snd r), time (snd r)))
      (ships [mkPing "99" 0 5 5 9 90; mkPing "100" 60 5 5 9 90; mkPing "100" 0 5 5 9 90])
  = [(0, "100", 0); (1, "100", 60); (2, "99", 0)]%Z%string.
Proof. split; [reflexivity|]. split; [reflexivity|]. vm_compute. reflexivity. Qed.

Lemma arrival_after_the_voyage_witness :
  create_routes_frame in_box flat_distance synthetic harbours 3 = Return middle_voyage /\
  In (mkRoute (at_sea 900) 1 some_ports) middle_voyage /\
  (time (ping (mkRoute (at_sea 900) 1 some_ports))
   <= to_time (info (mkRoute (at_sea 900) 1 some_ports)))%Z.
Proof.
  split; [exact synthetic_frame|]. split; [exact middle_voyage_head|].
  exact (arrival_after_the_voyage in_box flat_distance synthetic harbours 3 middle_voyage
           (mkRoute (at_sea 900) 1 some_ports) synthetic_frame middle_voyage_head).
Defined.


(** ** An unbroken voyage, and its waypoints *)

Lemma synthetic_route_port :
  route_port in_box flat_distance synthetic harbours 3
  = map (fun k => mkTrack (15 + Z.of_nat k) (at_sea (900 + 60 * Z.of_nat k)) 1) (seq 0 12).
Proof. vm_compute. reflexivity. Qed.

Lemma synthetic_ship_20 : In (20%Z, at_sea 1200) (ships synthetic).
Proof. vm_compute. do 20 right. left. reflexivity. Qed.

Lemma voyage_unbroken_witness :
  In (mkTrack 15 (at_sea 900) 1) (route_port in_box flat_distance synthetic harbours 3) /\
  In (mkTrack 26 (at_sea 1560) 1) (route_port in_box flat_distance synthetic harbours 3) /\
  t_id (mkTrack 15 (at_sea 900) 1) = t_id (mkTrack 26 (at_sea 1560) 1) /\
  (t_index (mkTrack 15 (at_sea 900) 1) <= 20 <= t_index (mkTrack 26 (at_sea 1560) 1))%Z /\
  In (20%Z, at_sea 1200) (ships synthetic) /\
  In (mkTrack 20 (at_sea 1200) (t_id (mkTrack 15 (at_sea 900) 1)))
     (route_port in_box flat_distance synthetic harbours 3).
Proof.
  assert (A : In (mkTrack 15 (at_sea 900) 1)
                 (route_port in_box flat_distance synthetic harbours 3)).
  { rewrite synthetic_route_port. left. reflexivity. }
  assert (B : In (mkTrack 26 (at_sea 1560) 1)
                 (route_port in_box flat_distance synthetic harbours 3)).
  { rewrite synthetic_route_port. do 11 right. left. reflexivity. }
  assert (L : (t_index (mkTrack 15 (at_sea 900) 1) <= 20
               <= t_index (mkTrack 26 (at_sea 1560) 1))%Z) by (simpl; lia).
  split; [exact A|]. split; [exact B|]. split; [reflexivity|]. split; [exact L|].
  split; [exact synthetic_ship_20|].
  exact (voyage_unbroken in_box flat_distance synthetic harbours 3
           (mkTrack 15 (at_sea 900) 1) (mkTrack 26 (at_sea 1560) 1) 20 (at_sea 1200)
           A B eq_refl L synthetic_ship_20).
Defined.

Lemma waypoints_of_known_voyages_witness :
  create_waypoints_frame on_grid plain_mean 100 one_hour one_hour = Return one_hour /\
  forall w, In w one_hour -> exists g, In g one_hour /\ id g = id w /\ info g = info w.
Proof.
  assert (H : create_waypoints_frame on_grid plain_mean 100 one_hour one_hour
              = Return one_hour) by (vm_compute; reflexivity).
  split; [exact H|].
  exact (waypoints_of_known_voyages on_grid plain_mean 100 one_hour one_hour one_hour H).
Defined.

(** ** A stay of one ping, and the routes after four stages *)

Lemma single_ping_stay_is_no_dock_event_witness :
  In one_ping_stay (times in_box passing harbours) /\
  List.length (index_list one_ping_stay) = 1%nat /\
  PrimFloat.ltb (flat_distance (lat_first one_ping_stay, long_first one_ping_stay)
                               (lat_last one_ping_stay, long_last one_ping_stay)) 0 = false /\
  PrimFloat.ltb 3 infinity = true /\
  docked flat_distance 3 one_ping_stay = false /\
  In one_ping_stay (time_out_port in_box flat_distance passing harbours 3) /\
  ~ In one_ping_stay (time_in_port in_box flat_distance passing harbours 3).
Proof.
  assert (H : In one_ping_stay (times in_box passing harbours)).
  { vm_compute. left. reflexivity. }
  split; [exact H|]. split; [reflexivity|]. split; [reflexivity|]. split; [reflexivity|].
  exact (single_ping_stay_is_no_dock_event in_box flat_distance passing harbours 3
           one_ping_stay H eq_refl eq_refl eq_refl).
Defined.

Lemma cleaned_routes_are_whole_voyages_witness :
  run_all in_box flat_distance on_grid plain_mean
          [CreateRoutes 3; RemoveRoutesOutsidePolygon; InterpolateRoutes 600;
           CleanData 0 86400 0.5]
          (imported synthetic harbours open_sea)
  = returns cleaned /\
  exists ais_data ports frame keep,
    self_ais_data (imported synthetic harbours open_sea) = Some ais_data /\
    self_ports (imported synthetic harbours open_sea) = Some ports /\
    create_routes_frame in_box flat_distance ais_data ports 3 = Return frame /\
    self_routes cleaned = Some (filter (fun r => keep (id r)) frame) /\
    forall row, In row (filter (fun r => keep (id r)) frame) ->
                voyage (id row) (filter (fun r => keep (id r)) frame)
                = voyage (id row) frame.
Proof.
  assert (H : run_all in_box flat_distance on_grid plain_mean
                [CreateRoutes 3; RemoveRoutesOutsidePolygon; InterpolateRoutes 600;
                 CleanData 0 86400 0.5]
                (imported synthetic harbours open_sea)
              = returns cleaned) by (vm_compute; reflexivity).
  split; [exact H|].
  exact (cleaned_routes_are_whole_voyages in_box flat_distance on_grid plain_mean
           3 600 0 86400 0.5 (imported synthetic harbours open_sea) cleaned H).
Defined.

(** * Fetching the pings *)

(** ** The database object *)

Lemma disconnect_not_open (self : Database.t) :
  Database.is_open (Database.disconnect self) = false.
Proof.
  unfold Database.is_open, Database.disconnect.
  destruct (Database._conn self) eqn:E; simpl; [reflexivity|]. now rewrite E.
Qed.

Lemma call_stays_closed {Rows : Type} (c : Database.Call Rows) (self : Database.t) :
  Database._conn self <> None -> Database.is_open self = false ->
  Database._conn (Database.call c self) <> None
  /\ Database.is_open (Database.call c self) = false.
Proof.
  unfold Database.is_open. destruct self as [[conn|] n]; simpl; [|congruence].
  intros _ H. destruct c as [r| |[| |data]]; simpl; auto; split; congruence.
Qed.

(** X21: Once its connection is closed, by [disconnect] or by a query that
    failed, a [Database] object never has an open connection again,
    whatever is called on it: [connect] only dials when [_conn] is [None],
    and nothing sets it back to [None]. *)
Theorem closed_for_good {Rows : Type} (calls : list (Database.Call Rows))
  (self : Database.t) :
  Database._conn self <> None -> Database.is_open self = false ->
  Database._conn (Database.run calls self) <> None
  /\ Database.is_open (Database.run calls self) = false.
Proof.
  revert self. induction calls as [|c rest IH]; intros self N C; [auto|].
  destruct (call_stays_closed c self N C) as [N' C'].
  unfold Database.run. simpl. now apply IH.
Qed.

Lemma call_counter {Rows : Type} (c : Database.Call Rows) (self : Database.t) :
  (Database._counter self <= Database._counter (Database.call c self))%nat.
Proof.
  destruct self as [[conn|] n]; destruct c as [[|]| |[| |data]]; simpl; lia.
Qed.

(** X22: On one object no cursor name is used twice: the names that the calls
    ask for go up strictly, from above the counter. *)
Theorem cursor_names_fresh {Rows : Type} (calls : list (Database.Call Rows))
  (self : Database.t) :
  StronglySorted lt (Database.names calls self)
  /\ Forall (fun n => (Database._counter self < n)%nat) (Database.names calls self).
Proof.
  revert self. induction calls as [|c rest IH]; intros self; simpl.
  - split; constructor.
  - destruct (IH (Database.call c self)) as [S F].
    pose proof (call_counter c self) as M.
    assert (F' : Forall (fun n => (Database._counter self < n)%nat)
                        (Database.names rest (Database.call c self))).
    { revert F. apply Forall_impl. intros n. lia. }
    destruct c as [r| |reply]; try (split; assumption).
    destruct self as [[conn|] k]; [|split; assumption]. simpl in *.
    split.
    + constructor; [assumption|]. revert F. apply Forall_impl. intros n.
      destruct reply; simpl; lia.
    + constructor; [lia|assumption].
Qed.

(** ** The dates *)

Lemma shifted_seq_sorted (s : Z) (a n : nat) :
  StronglySorted Z.lt (map (fun i => (s + Z.of_nat i)%Z) (seq a n)).
Proof.
  revert a. induction n as [|n IH]; intros a; simpl; constructor; [apply IH|].
  apply Forall_forall. intros d H. apply in_map_iff in H. destruct H as (i & <- & H).
  apply in_seq in H. lia.
Qed.

(** X23: [daterange] gives every day from the first to the last, both included,
    once and in order; it gives nothing when the last day is before the
    first. *)
Theorem daterange_inclusive (start_date end_date : Z) :
  (forall d, In d (GetAisData.daterange start_date end_date)
             <-> (start_date <= d <= end_date)%Z) /\
  StronglySorted Z.lt (GetAisData.daterange start_date end_date) /\
  List.length (GetAisData.daterange start_date end_date)
  = Z.to_nat (end_date - start_date + 1).
Proof.
  unfold GetAisData.daterange. split; [|split].
  - intros d. rewrite in_map_iff. split.
    + intros (i & <- & H). apply in_seq in H. lia.
    + intros H. exists (Z.to_nat (d - start_date)). split; [lia|].
      apply in_seq. lia.
  - apply shifted_seq_sorted.
  - now rewrite length_map, length_seq.
Qed.

(** ** Ship types and folders *)

Lemma getitem_In {V : Type} (d : list (string * V)) (k : string) (v : V) :
  GetAisData.getitem String.eqb d k = Some v -> In (k, v) d.
Proof.
  induction d as [|[k' v'] t IH]; simpl; [discriminate|].
  destruct (String.eqb k' k) eqn:E.
  - apply String.eqb_eq in E. intros [= ->]. left. now subst.
  - intros H. right. now apply IH.
Qed.

(** X24: A ship type given by name is stored in the folder of a name with the
    same number, so the lookup of the folder never fails for it; the folder
    is the name itself but for the two names that share their number with a
    later one. *)
Theorem named_type_has_its_folder (name : string) (code : Z) :
  GetAisData.shiptype_code (inl name) = inr code ->
  exists folder,
    GetAisData.ship_string (GetAisData.towing code) = inr folder /\
    GetAisData.shiptype_code (inl folder) = inr code /\
    (folder = name
     \/ (name = "high speed craft" /\ folder = "hsc")
     \/ (name = "military ops" /\ folder = "military"))%string.
Proof.
  unfold GetAisData.shiptype_code at 1.
  destruct (GetAisData.getitem String.eqb GetAisData.ship_type_lookup name) as [c|] eqn:E;
    [|discriminate].
  intros [= ->]. apply getitem_In in E.
  unfold GetAisData.ship_type_lookup in E. simpl in E.
  repeat (destruct E as [E|E];
          [injection E as <- <-; eexists;
           split; [vm_compute; reflexivity|];
           split; [vm_compute; reflexivity|];
           first [left; reflexivity
                 |right; left; split; reflexivity
                 |right; right; split; reflexivity]|]).
  contradiction.
Qed.

(** ** The name of a csv file *)

Lemma substring_all (s : string) : substring 0 (String.length s) s = s.
Proof. induction s as [|c s IH]; simpl; [reflexivity|now rewrite IH]. Qed.

Lemma substring_append (s t : string) :
  substring (String.length s) (String.length t) (s ++ t) = t.
Proof. induction s as [|c s IH]; simpl; [apply substring_all|exact IH]. Qed.

Lemma length_append (s t : string) :
  String.length (s ++ t) = (String.length s + String.length t)%nat.
Proof. induction s as [|c s IH]; simpl; [reflexivity|now rewrite IH]. Qed.

Lemma endswith_append (s t : string) : GetAisData.endswith (s ++ t) t = true.
Proof.
  unfold GetAisData.endswith. rewrite length_append.
  replace (String.length s + String.length t - String.length t)%nat
    with (String.length s) by lia.
  rewrite substring_append, String.eqb_refl, andb_true_r. apply Nat.leb_le. lia.
Qed.

(** X25: The file that [pandas_to_csv] writes always has a name that ends in
    [.csv], and a name that has the ending is left as it is. *)
Theorem csv_name_ends (file_name : string) :
  GetAisData.endswith (GetAisData.csv_name file_name) ".csv" = true /\
  GetAisData.csv_name (GetAisData.csv_name file_name) = GetAisData.csv_name file_name.
Proof.
  assert (H : GetAisData.endswith (GetAisData.csv_name file_name) ".csv" = true).
  { unfold GetAisData.csv_name.
    destruct (GetAisData.endswith file_name ".csv") eqn:E; [exact E|].
    apply endswith_append. }
  split; [exact H|]. unfold GetAisData.csv_name at 1. now rewrite H.
Qed.

(** ** The files of [get_ship_ais] *)

Section Files.

Variable Rows : Type.
Variable path : string -> list string -> string.
Variable check_file : string -> bool.
Variable strftime : Z -> string.

Local Abbreviation fetch_dates' := (GetAisData.fetch_dates path check_file strftime).
Local Abbreviation get_ship_ais' := (GetAisData.get_ship_ais path check_file strftime).

(** The file of one day. *)
Local Abbreviation file_of reply code geo_area folder_name :=
  (fun (d : Z) (file : GetAisData.File Rows) =>
     exists name rows,
       GetAisData.ship_string code = inr name /\
       reply d = Database.Fetched rows /\
       check_file (path folder_name [geo_area; name]) = true /\
       file = (path (path folder_name [geo_area; name])
                    [GetAisData.csv_name (strftime d)], rows)).

Lemma fetch_dates_files (reply : Z -> Database.Reply Rows) (code : Z)
  (geo_area folder_name : string) (dates : list Z) (st st' : GetAisData.Fetching Rows) :
  Database._conn (GetAisData.database st) <> None ->
  fetch_dates' reply code geo_area folder_name dates st = (st', None) ->
  exists files,
    GetAisData.written st' = GetAisData.written st ++ files /\
    Forall2 (file_of reply code geo_area folder_name) dates files.
Proof.
  revert st. induction dates as [|d rest IH]; intros st N H; simpl in H.
  - injection H as <-. exists []. split; [now rewrite app_nil_r|constructor].
  - unfold Database.execute_sql in H.
    destruct (Database._conn (GetAisData.database st)) as [conn|] eqn:E; [|congruence].
    destruct (reply d) as [| |rows] eqn:R; try discriminate. simpl in H.
    destruct (GetAisData.ship_string code) as [e|name] eqn:S; [discriminate|].
    unfold GetAisData.pandas_to_csv in H.
    destruct (check_file (path folder_name [geo_area; name])) eqn:C; [|discriminate].
    apply IH in H; [|simpl; congruence].
    destruct H as (files & W & F). simpl in W. rewrite <- app_assoc in W.
    eexists. split; [exact W|]. constructor; [|exact F].
    exists name, rows. auto.
Qed.

(** X26: When [get_ship_ais] returns, it has written one file for every day
    from [start_date] to [end_date], in order, with the rows of that day,
    under [folder_name/geo_area/ship type], also for a day without rows: a
    connected [execute_sql] never returns [None]. *)
Theorem one_file_per_day (reachable : bool) (reply : Z -> Database.Reply Rows)
  (shiptype : string + Z) (start_date end_date : Z) (geo_area folder_name : string)
  (st : GetAisData.Fetching Rows) :
  get_ship_ais' reachable reply shiptype start_date end_date geo_area folder_name
  = (st, None) ->
  exists code,
    GetAisData.shiptype_code shiptype = inr code /\
    Forall2 (file_of reply (GetAisData.towing code) geo_area folder_name)
            (GetAisData.daterange start_date end_date) (GetAisData.written st).
Proof.
  unfold GetAisData.get_ship_ais.
  destruct (GetAisData.shiptype_code shiptype) as [e|code]; [discriminate|].
  cbv zeta. destruct reachable; simpl; [|discriminate].
  destruct (fetch_dates' _ _ _ _ _ _) as [st1 o] eqn:F. simpl.
  intros [= <- ->]. exists code. split; [reflexivity|].
  apply fetch_dates_files in F; [|discriminate].
  destruct F as (files & W & F). simpl in *. now rewrite W.
Qed.

Lemma fetch_dates_unknown (reply : Z -> Database.Reply Rows) (code : Z)
  (geo_area folder_name : string) (dates : list Z) (st : GetAisData.Fetching Rows) :
  GetAisData.ship_string code = inl Errors.KeyError ->
  GetAisData.written (fst (fetch_dates' reply code geo_area folder_name dates st))
  = GetAisData.written st.
Proof.
  intros S. revert st. induction dates as [|d rest IH]; intros st; simpl; [reflexivity|].
  destruct (Database.execute_sql (reply d) (GetAisData.database st)) as [db [e|[rows|]]];
    try reflexivity.
  - now rewrite S.
  - now rewrite IH.
Qed.

(** X27: A ship type given as a number that has no name is only noticed once the
    server has answered the first query: nothing is written, and with a
    server that answers, [KeyError] is raised at the first day. *)
Theorem unknown_code_writes_nothing (reachable : bool) (reply : Z -> Database.Reply Rows)
  (code start_date end_date : Z) (geo_area folder_name : string) :
  GetAisData.ship_string (GetAisData.towing code) = inl Errors.KeyError ->
  GetAisData.written
    (fst (get_ship_ais' reachable reply (inr code) start_date end_date
            geo_area folder_name)) = [] /\
  (reachable = true -> (start_date <= end_date)%Z ->
   (exists rows, reply start_date = Database.Fetched rows) ->
   snd (get_ship_ais' reachable reply (inr code) start_date end_date
          geo_area folder_name) = Some Errors.KeyError).
Proof.
  intros S. unfold GetAisData.get_ship_ais. simpl. split.
  - destruct reachable; simpl; [|reflexivity].
    now rewrite fetch_dates_unknown.
  - intros -> L (rows & R). simpl. unfold GetAisData.daterange.
    destruct (Z.to_nat (end_date - start_date + 1)) as [|n] eqn:E; [lia|].
    simpl. rewrite Z.add_0_r, R. simpl. now rewrite S.
Qed.

End Files.

(** ** Fetching two days *)

Lemma closed_for_good_witness :
  Database._conn hung_up <> None /\
  Database.is_open hung_up = false /\
  Database._conn
    (Database.run [Database.Connect true; Database.ExecuteSql (Database.Fetched 1%Z)]
                  hung_up) <> None /\
  Database.is_open
    (Database.run [Database.Connect true; Database.ExecuteSql (Database.Fetched 1%Z)]
                  hung_up) = false.
Proof.
  assert (N : Database._conn hung_up <> None) by discriminate.
  split; [exact N|]. split; [reflexivity|].
  exact (closed_for_good
           [Database.Connect true; Database.ExecuteSql (Database.Fetched 1%Z)]
           hung_up N eq_refl).
Defined.

Lemma named_type_has_its_folder_witness :
  GetAisData.shiptype_code (inl "high speed craft"%string) = inr 40%Z /\
  exists folder,
    GetAisData.ship_string (GetAisData.towing 40) = inr folder /\
    GetAisData.shiptype_code (inl folder) = inr 40%Z /\
    (folder = "high speed craft"
     \/ ("high speed craft" = "high speed craft" /\ folder = "hsc")
     \/ ("high speed craft" = "military ops" /\ folder = "military"))%string.
Proof.
  split; [reflexivity|].
  exact (named_type_has_its_folder "high speed craft" 40 eq_refl).
Defined.

Lemma one_file_per_day_witness :
  GetAisData.get_ship_ais join every_folder april true answers (inl "cargo"%string)
                          737150 737151 "N_Norway" "AIS"
  = (two_days, None) /\
  exists code,
    GetAisData.shiptype_code (inl "cargo"%string) = inr code /\
    Forall2
      (fun (d : Z) (file : GetAisData.File Z) =>
         exists name rows,
           GetAisData.ship_string (GetAisData.towing code) = inr name /\
           answers d = Database.Fetched rows /\
           every_folder (join "AIS" ["N_Norway"%string; name]) = true /\
           file = (join (join "AIS" ["N_Norway"%string; name])
                        [GetAisData.csv_name (april d)], rows))
      (GetAisData.daterange 737150 737151) (GetAisData.written two_days).
Proof.
  split; [reflexivity|].
  exact (one_file_per_day Z join every_folder april true answers (inl "cargo"%string)
           737150 737151 "N_Norway" "AIS" two_days eq_refl).
Defined.

Lemma unknown_code_writes_nothing_witness :
  GetAisData.ship_string (GetAisData.towing 99) = inl Errors.KeyError /\
  GetAisData.written
    (fst (GetAisData.get_ship_ais join every_folder april true answers (inr 99%Z)
            737150 737151 "N_Norway" "AIS")) = [] /\
  (true = true -> (737150 <= 737151)%Z ->
   (exists rows, answers 737150 = Database.Fetched rows) ->
   snd (GetAisData.get_ship_ais join every_folder april true answers (inr 99%Z)
          737150 737151 "N_Norway" "AIS") = Some Errors.KeyError).
Proof.
  split; [reflexivity|].
  exact (unknown_code_writes_nothing Z join every_folder april true answers 99
           737150 737151 "N_Norway" "AIS" eq_refl).
Defined.
